(** * The batch engine of nomacs (ImageLounge/src/DkLoader/DkProcess.cpp)

    A shallow embedding of the batch steps ([DkResizeBatch],
    [DkBatchTransform]), of the per-file item ([DkBatchProcess]) and of the
    result polling of the runner ([DkBatchProcessing]).

    Conventions.
    - [int] fields are [Z]; the failure counter is incremented with the
      wrap-around of a 32 bit [int] written out ([incr32]).
    - [float] is IEEE-754 binary32, through [SpecFloat] at precision 24.
    - Member functions of [DkBatchProcess] mutate the item and the file
      system: they are computations in the state monad [M] over
      [DkBatchProcess * World].
    - Qt, the image library and the header [DkProcess.h] are collaborators
      that are not part of DkProcess.cpp: they are the fields of the classes
      [DkEnums], [QtCore] and [ImageLib]. *)

From Stdlib Require Import ZArith Ascii String List Bool Lia SpecFloat.
From stdpp Require Import base option list gmap strings.

Local Open Scope string_scope.
Local Open Scope Z_scope.

(* ------------------------------------------------------------------ *)
(** * Machine numbers *)

Module Int32.

Definition min_int : Z := - 2 ^ 31.
Definition max_int : Z := 2 ^ 31 - 1.

(** Two's complement representative of [z] in a 32 bit [int]. *)
Definition wrap (z : Z) : Z := (z + 2 ^ 31) mod 2 ^ 32 - 2 ^ 31.

(** [x++] on an [int]. *)
Definition incr32 (z : Z) : Z := wrap (z + 1).

End Int32.

Module Float32.

Definition float : Type := spec_float.

Definition prec : Z := 24.
Definition emax : Z := 128.

(** Conversion [int -> float] (round to nearest even). *)
Definition of_int (z : Z) : float := binary_normalize prec emax z 0 false.

Definition one : float := SFone prec emax.
Definition hundred : float := of_int 100.

Definition div (x y : float) : float := SFdiv prec emax x y.
Definition mul (x y : float) : float := SFmul prec emax x y.

(** [x == y], [x < y] and [x > y] of C++ on floats: all three are false
    as soon as one side is a NaN. *)
Definition eqb (x y : float) : bool := SFeqb x y.
Definition ltb (x y : float) : bool := SFltb x y.
Definition gtb (x y : float) : bool := SFltb y x.

End Float32.

Import Int32 Float32.

(* ------------------------------------------------------------------ *)
(** * Collaborators *)

(** The enumerators of DkProcess.h, a header that is not among the
    sources.  Only their being pairwise distinct is known. *)
Class DkEnums : Type := {
  (* DkResizeBatch *)
  mode_default : Z;
  mode_long_side : Z;
  mode_short_side : Z;
  mode_height : Z;
  prop_decrease_only : Z;
  prop_increase_only : Z;
  (* DkBatchConfig *)
  mode_overwrite : Z;
  mode_skip_existing : Z;
  (* DkBatchProcessing *)
  batch_item_not_computed : Z;
  batch_item_succeeded : Z;
  batch_item_failed : Z;
  resize_modes_distinct :
    NoDup [mode_default; mode_long_side; mode_short_side; mode_height];
  resize_props_distinct : prop_decrease_only ≠ prop_increase_only;
  config_modes_distinct : mode_overwrite ≠ mode_skip_existing;
  batch_items_distinct :
    NoDup [batch_item_not_computed; batch_item_succeeded; batch_item_failed]
}.

(** What DkProcess.cpp uses of QtCore: the parts of a path ([QFileInfo]) and
    [qRound]. *)
Class QtCore : Type := {
  absolutePath : string → string;
  baseName : string → string;
  suffix : string → string;
  (** [QFileInfo(dir, file).absoluteFilePath()] *)
  filePathIn : string → string → string;
  qRound : float → Z
}.

(** [QImage], [DkImage], [DkRotatingRect] and the codecs, consumed as an
    opaque capability. *)
Class ImageLib : Type := {
  QImage : Type;
  DkRotatingRect : Type;
  (** the bytes of a file *)
  FileData : Type;
  (** [QImage::isNull] *)
  isNull : QImage → bool;
  (** [QImage::size], as (width, height) *)
  imageSize : QImage → Z * Z;
  (** [img.transformed(m)] for the rotation [m] by [angle] degrees *)
  transformed : Z → QImage → QImage;
  (** [img.mirrored(horizontal, vertical)] *)
  mirrored : bool → bool → QImage → QImage;
  (** [DkImage::resizeImage(img, size, factor, interpolation, correctGamma)] *)
  resizeImage : QImage → Z * Z → float → Z → bool → QImage;
  (** [DkImage::cropToImage(img, rect, background)] *)
  cropToImage : QImage → DkRotatingRect → QImage;
  (** [DkRotatingRect::isEmpty] *)
  rectIsEmpty : DkRotatingRect → bool;
  (** the image a file decodes to (null if it does not decode) and the
      crop region stored in its meta data *)
  decode : FileData → QImage;
  storedCropRect : FileData → DkRotatingRect;
  (** the bytes written for an image at a path and compression level *)
  encode : QImage → string → Z → FileData
}.

(* ------------------------------------------------------------------ *)
(** * Log lines *)

(** An argument of [QString::arg]. *)
Inductive LogArg : Type :=
| AStr (s : string)
| AInt (z : Z)
| AFloat (f : float).

(** A line of a [QStringList] log: a [QObject::tr] template with its
    arguments, or the [errorString()] of the [QFile] on a path. *)
Inductive LogLine : Type :=
| Tr (template : string) (args : list LogArg)
| ErrorString (path : string).

(** [logStrings.append(line)] *)
Definition append (logStrings : list LogLine) (line : LogLine) : list LogLine :=
  logStrings ++ [line].

(* ------------------------------------------------------------------ *)
(** * QSize *)

Module QSize.

Definition t : Type := Z * Z.

(** [QSize()] is the invalid size. *)
Definition default : t := (-1, -1).

Definition width (s : t) : Z := fst s.
Definition height (s : t) : Z := snd s.
Definition setWidth (s : t) (w : Z) : t := (w, snd s).
Definition setHeight (s : t) (h : Z) : t := (fst s, h).
Definition transpose (s : t) : t := (snd s, fst s).

Definition neqb (a b : t) : bool :=
  negb ((fst a =? fst b) && (snd a =? snd b)).

End QSize.

(* ------------------------------------------------------------------ *)
(** * Steps *)

Section Steps.

Context {enums : DkEnums} {qt : QtCore} {lib : ImageLib}.

(** Plugin meta data, tagged with the run it belongs to. *)
Record DkBatchInfo : Type := { runID : string; blob : string }.

(** Modelled from the spec: DkImageContainer (DkImageContainer.cpp is not
    among the sources).  The container owns the image which the steps
    replace in place, and the crop region read from the meta data. *)
Record DkImageContainer : Type := {
  cFilePath : string;
  cImage : QImage;
  cCropRect : DkRotatingRect
}.

Definition image (c : DkImageContainer) : QImage := cImage c.
Definition cropRect (c : DkImageContainer) : DkRotatingRect := cCropRect c.

(** [container->setImage(img, editName)] *)
Definition setImage (c : DkImageContainer) (img : QImage) : DkImageContainer :=
  {| cFilePath := cFilePath c; cImage := img; cCropRect := cCropRect c |}.

(** Modelled from the spec: [container->cropImage(rect, col, false)], which
    replaces the image of the container by its crop to [rect]. *)
Definition cropImage (c : DkImageContainer) (rect : DkRotatingRect)
  : DkImageContainer :=
  setImage c (cropToImage (image c) rect).

(** ** DkAbstractBatch: the virtual interface of a step *)

Record DkAbstractBatch : Type := {
  name : string;
  isActive : bool;
  (** [compute(container, logStrings, batchInfo)]: the verdict, the
      container and the log after the call, and the infos pushed *)
  compute :
    DkImageContainer → list LogLine →
    bool * DkImageContainer * list LogLine * list (option DkBatchInfo)
}.

(** [DkAbstractBatch::compute(container, logStrings, batchInfo)] *)
Definition DkAbstractBatch_compute3
    (compute2 : DkImageContainer → list LogLine →
                bool * DkImageContainer * list LogLine)
    (container : DkImageContainer) (logStrings : list LogLine)
  : bool * DkImageContainer * list LogLine * list (option DkBatchInfo) :=
  (compute2 container logStrings, []).

(** [DkAbstractBatch::compute(container, logStrings)] *)
Definition DkAbstractBatch_compute2
    (compute1 : QImage → list LogLine → bool * QImage * list LogLine)
    (container : DkImageContainer) (logStrings : list LogLine)
  : bool * DkImageContainer * list LogLine :=
  let img := image container in
  let '(isOk, img, logStrings) := compute1 img logStrings in
  if isOk
  then (isOk, setImage container img, logStrings)
  else (isOk, container, logStrings).

(** ** DkResizeBatch *)

(** [rMode] is the member [mMode] of DkResizeBatch; the name [mMode] is
    kept for the member of DkBatchProcess. *)
Record DkResizeBatch : Type := {
  mScaleFactor : float;
  rMode : Z;
  mProperty : Z;
  mIplMethod : Z;
  mCorrectGamma : bool
}.

Definition DkResizeBatch_name : string := "[Resize Batch]".

Definition DkResizeBatch_isActive (s : DkResizeBatch) : bool :=
  if negb (rMode s =? mode_default) then true
  else if negb (Float32.eqb (mScaleFactor s) one) then true
  else false.

(** [prepareProperties(imgSize, size, scaleFactor, logStrings)]; the
    reference parameters [size], [scaleFactor] and [logStrings] are
    returned next to the verdict. *)
Definition prepareProperties (s : DkResizeBatch) (imgSize : QSize.t)
    (size : QSize.t) (scaleFactor : float) (logStrings : list LogLine)
  : bool * QSize.t * float * list LogLine :=
  let normalizedSize := imgSize in
  if rMode s =? mode_default then
    (true, size, mScaleFactor s, logStrings)
  else
    let normalizedSize :=
      if rMode s =? mode_long_side then
        if QSize.width imgSize <? QSize.height imgSize
        then QSize.transpose normalizedSize else normalizedSize
      else if rMode s =? mode_short_side then
        if QSize.width imgSize >? QSize.height imgSize
        then QSize.transpose normalizedSize else normalizedSize
      else if rMode s =? mode_height then
        QSize.transpose normalizedSize
      else normalizedSize in
    let sf := div (mScaleFactor s) (of_int (QSize.width normalizedSize)) in
    if gtb sf one && (mProperty s =? prop_decrease_only) then
      (false, size, scaleFactor,
       append logStrings
         (Tr "%1 I need to increase the image, but the option is set to decrease only -> skipping."
            [AStr DkResizeBatch_name]))
    else if ltb sf one && (mProperty s =? prop_increase_only) then
      (false, size, scaleFactor,
       append logStrings
         (Tr "%1 I need to decrease the image, but the option is set to increase only -> skipping."
            [AStr DkResizeBatch_name]))
    else if Float32.eqb sf one then
      (false, size, scaleFactor,
       append logStrings
         (Tr "%1 image size matches scale factor -> skipping."
            [AStr DkResizeBatch_name]))
    else
      let size := QSize.setWidth size (qRound (mScaleFactor s)) in
      let size :=
        QSize.setHeight size
          (qRound (mul sf (of_int (QSize.height normalizedSize)))) in
      let size :=
        if QSize.neqb normalizedSize imgSize
        then QSize.transpose size else size in
      (true, size, scaleFactor, logStrings).

(** [DkResizeBatch::compute(img, logStrings)] *)
Definition DkResizeBatch_compute (s : DkResizeBatch)
    (img : QImage) (logStrings : list LogLine)
  : bool * QImage * list LogLine :=
  if Float32.eqb (mScaleFactor s) one then
    (true, img,
     append logStrings
       (Tr "%1 scale factor is 1 -> ignoring" [AStr DkResizeBatch_name]))
  else
    let size := QSize.default in
    let sf := one in
    let '(prepared, size, sf, logStrings) :=
      prepareProperties s (imageSize img) size sf logStrings in
    if prepared then
      let tmpImg :=
        resizeImage img size sf (mIplMethod s) (mCorrectGamma s) in
      if isNull tmpImg then
        (false, img,
         append logStrings
           (Tr "%1 could not resize image." [AStr DkResizeBatch_name]))
      else
        let logStrings :=
          if rMode s =? mode_default then
            append logStrings
              (Tr "%1 image resized, scale factor: %2%"
                 [AStr DkResizeBatch_name;
                  AFloat (mul (mScaleFactor s) hundred)])
          else
            append logStrings
              (Tr "%1 image resized, new side: %2 px"
                 [AStr DkResizeBatch_name; AFloat (mScaleFactor s)]) in
        (true, tmpImg, logStrings)
    else
      (true, img,
       append logStrings
         (Tr "%1 no need for resizing." [AStr DkResizeBatch_name])).

(** The resize step behind the virtual interface: it overrides
    [compute(img, logStrings)] only. *)
Definition resizeStep (s : DkResizeBatch) : DkAbstractBatch :=
  {| name := DkResizeBatch_name;
     isActive := DkResizeBatch_isActive s;
     compute :=
       DkAbstractBatch_compute3
         (DkAbstractBatch_compute2 (DkResizeBatch_compute s)) |}.

(** The factor [sf] which [prepareProperties] computes from the target
    side and the image: there is one in every mode but [mode_default],
    where the configured factor is passed on as it is. *)
Definition computedScaleFactor (s : DkResizeBatch) (imgSize : QSize.t)
  : option float :=
  if rMode s =? mode_default then None
  else
    let normalizedSize :=
      if rMode s =? mode_long_side then
        if QSize.width imgSize <? QSize.height imgSize
        then QSize.transpose imgSize else imgSize
      else if rMode s =? mode_short_side then
        if QSize.width imgSize >? QSize.height imgSize
        then QSize.transpose imgSize else imgSize
      else if rMode s =? mode_height then
        QSize.transpose imgSize
      else imgSize in
    Some (div (mScaleFactor s) (of_int (QSize.width normalizedSize))).

(** In the specification's words: the dimensions of the image normalized
    per mode, swapped so that the axis of the target is the width. *)
Definition specNormalizedSize (s : DkResizeBatch) (imgSize : QSize.t)
  : QSize.t :=
  if rMode s =? mode_long_side then
    if QSize.width imgSize <? QSize.height imgSize
    then QSize.transpose imgSize else imgSize
  else if rMode s =? mode_short_side then
    if QSize.width imgSize >? QSize.height imgSize
    then QSize.transpose imgSize else imgSize
  else if rMode s =? mode_height then QSize.transpose imgSize
  else imgSize.

(** In the specification's words: the scale factor of a resize step on an
    image, which every step has - the target itself where the target is a
    scale (the absolute-scale mode, [mode_default]), and the target
    divided by the normalized width where the target is a side. *)
Definition specScaleFactor (s : DkResizeBatch) (imgSize : QSize.t) : float :=
  if rMode s =? mode_default then mScaleFactor s
  else
    div (mScaleFactor s) (of_int (QSize.width (specNormalizedSize s imgSize))).

(** In the specification's words: the policy forbids the direction of the
    change - increase only with a factor below 1, decrease only with a
    factor above 1. *)
Definition specPolicyForbids (s : DkResizeBatch) (imgSize : QSize.t)
  : bool :=
  ((mProperty s =? prop_increase_only)
   && ltb (specScaleFactor s imgSize) one)
  || ((mProperty s =? prop_decrease_only)
      && gtb (specScaleFactor s imgSize) one).

(** The cases in which the specification has a resize step leave the
    image alone, whatever the mode: the configured factor is exactly 1, or
    the policy forbids the direction of the change. *)
Definition specNoResize (s : DkResizeBatch) (imgSize : QSize.t) : bool :=
  Float32.eqb (mScaleFactor s) one || specPolicyForbids s imgSize.

(** ** DkBatchTransform *)

Record DkBatchTransform : Type := {
  mAngle : Z;
  mHorizontalFlip : bool;
  mVerticalFlip : bool;
  mCropFromMetadata : bool
}.

Definition DkBatchTransform_name : string := "[Transform Batch]".

Definition DkBatchTransform_isActive (t : DkBatchTransform) : bool :=
  mHorizontalFlip t || mVerticalFlip t || negb (mAngle t =? 0)
  || mCropFromMetadata t.

(** The image [tmpImg] which [DkBatchTransform::compute] builds from the
    image [img] of the container. *)
Definition transformImage (t : DkBatchTransform) (img : QImage) : QImage :=
  let tmpImg :=
    if negb (mAngle t =? 0) then transformed (mAngle t) img else img in
  mirrored (mHorizontalFlip t) (mVerticalFlip t) tmpImg.

(** [DkBatchTransform::compute(container, logStrings)].  The container is
    behind a shared pointer: [cropImage] changes it in place, whereas
    [img] and [tmpImg] are locals of the function. *)
Definition DkBatchTransform_compute (t : DkBatchTransform)
    (container : DkImageContainer) (logStrings : list LogLine)
  : bool * DkImageContainer * list LogLine :=
  if negb (DkBatchTransform_isActive t) then
    (true, container,
     append logStrings
       (Tr "%1 inactive -> skipping" [AStr DkBatchTransform_name]))
  else
    let rect := cropRect container in
    let container :=
      if mCropFromMetadata t then
        if negb (rectIsEmpty rect) then cropImage container rect
        else container
      else container in
    let img := image container in
    let tmpImg := transformImage t img in
    if negb (isNull tmpImg) then
      (* [img = tmpImg;] assigns the local [img] *)
      let img := tmpImg in
      let logStrings :=
        if rectIsEmpty rect && mCropFromMetadata t then
          append logStrings
            (Tr "%1 image transformed." [AStr DkBatchTransform_name])
        else
          append logStrings
            (Tr "%1 image transformed and cropped."
               [AStr DkBatchTransform_name]) in
      (true, container, logStrings)
    else
      (false, container,
       append logStrings
         (Tr "%1 error, could not transform image."
            [AStr DkBatchTransform_name])).

(** The transform step behind the virtual interface: it overrides
    [compute(container, logStrings)]. *)
Definition transformStep (t : DkBatchTransform) : DkAbstractBatch :=
  {| name := DkBatchTransform_name;
     isActive := DkBatchTransform_isActive t;
     compute := DkAbstractBatch_compute3 (DkBatchTransform_compute t) |}.

End Steps.

(* ------------------------------------------------------------------ *)
(** * The file system *)

Section FileSystem.

Context {lib : ImageLib}.

(** A call into the file system which the engine makes, with its
    outcome.  The trace of a world lists them in the order of the calls;
    queries ([QFileInfo::exists]) are not listed. *)
Inductive FsEvent : Type :=
| EvLoad (path : string) (ok : bool)
| EvRename (src dst : string) (ok : bool)
| EvRemove (path : string) (ok : bool)
| EvCopy (src dst : string) (ok : bool)
| EvSave (path : string) (img : QImage) (compression : Z) (ok : bool).

(** The world of an item: the files by path; what the environment decides
    for the coming calls ([true]: the call fails whatever the files are,
    for want of permission or space; no entry left: the call goes
    through); the tokens which [QUuid::createUuid] is going to hand out;
    and the trace of the calls made so far. *)
Record World : Type := {
  files : gmap string FileData;
  faults : list bool;
  uuids : list string;
  trace : list FsEvent
}.

(** The file at a path; there is none at the empty path. *)
Definition fileAt (w : World) (path : string) : option FileData :=
  if decide (path = EmptyString) then None else files w !! path.

(** [QFileInfo(path).exists()] *)
Definition fileExists (w : World) (path : string) : bool :=
  match fileAt w path with Some _ => true | None => false end.

(** A call that changes the files: it consumes one decision of the
    environment, fails if the environment says so or if [effect] is not
    defined on the files as they are, and is traced with its outcome. *)
Definition fsCall (ev : bool → FsEvent)
    (effect : World → option (gmap string FileData)) (w : World)
  : bool * World :=
  let fault := match faults w with f :: _ => f | [] => false end in
  let result := if fault then None else effect w in
  let ok := match result with Some _ => true | None => false end in
  (ok,
   {| files := match result with Some fs => fs | None => files w end;
      faults := tail (faults w);
      uuids := uuids w;
      trace := trace w ++ [ev ok] |}).

(** [QFile(src).rename(dst)]: fails if there is no file at [src] or
    there is one at [dst]; it never overwrites. *)
Definition QFile_rename (src dst : string) : World → bool * World :=
  fsCall (EvRename src dst) (fun w =>
    match fileAt w src with
    | Some d =>
        if decide (dst = EmptyString) then None
        else if fileExists w dst then None
        else Some (<[dst := d]> (delete src (files w)))
    | None => None
    end).

(** [QFile(path).remove()] *)
Definition QFile_remove (path : string) : World → bool * World :=
  fsCall (EvRemove path) (fun w =>
    match fileAt w path with
    | Some _ => Some (delete path (files w))
    | None => None
    end).

(** [QFile(src).copy(dst)]: fails if there is a file at [dst]. *)
Definition QFile_copy (src dst : string) : World → bool * World :=
  fsCall (EvCopy src dst) (fun w =>
    match fileAt w src with
    | Some d =>
        if decide (dst = EmptyString) then None
        else if fileExists w dst then None
        else Some (<[dst := d]> (files w))
    | None => None
    end).

(** [QUuid::createUuid().toString()] *)
Definition createUuid (w : World) : string * World :=
  match uuids w with
  | u :: us =>
      (u, {| files := files w; faults := faults w; uuids := us;
             trace := trace w |})
  | [] => ("{00000000-0000-0000-0000-000000000000}", w)
  end.

(** Modelled from the spec: [DkImageContainer::loadImage] on the container
    of a path, [load(path) -> Image | Fail].  The files stay as they are;
    on success the container holds the decoded image and the stored crop
    region. *)
Definition loadImage (path : string) (w : World)
  : option DkImageContainer * World :=
  let '(ok, w') := fsCall (EvLoad path) (fun w =>
    match fileAt w path with
    | Some _ => Some (files w)
    | None => None
    end) w in
  match fileAt w path with
  | Some d =>
      if ok then
        (Some {| cFilePath := path; cImage := decode d;
                 cCropRect := storedCropRect d |}, w')
      else (None, w')
  | None => (None, w')
  end.

(** Modelled from the spec: [DkImageContainer::saveImage(path, compression)],
    [save(Image, path, compressionLevel) -> bool].  A save that fails
    leaves no file behind and changes none; a save that goes through puts
    the encoded image at the path, over what was there. *)
Definition saveImage (c : DkImageContainer) (path : string)
    (compression : Z) : World → bool * World :=
  fsCall (EvSave path (image c) compression) (fun w =>
    if isNull (image c) then None
    else if decide (path = EmptyString) then None
    else Some (<[path := encode (image c) path compression]> (files w))).

End FileSystem.

(* ------------------------------------------------------------------ *)
(** * DkBatchProcess: the item of one input file *)

Declare Scope batch_scope.
Delimit Scope batch_scope with batch.

Section BatchProcess.

Context {enums : DkEnums} {qt : QtCore} {lib : ImageLib}.

Record DkBatchProcess : Type := {
  mFilePathIn : string;
  mFilePathOut : string;
  mBackupFilePath : string;
  mMode : Z;
  mDeleteOriginal : bool;
  mCompression : Z;
  mFailure : Z;
  mIsProcessed : bool;
  mInfos : list (option DkBatchInfo);
  mLogStrings : list LogLine;
  mProcessFunctions : list (option DkAbstractBatch)
}.

(** [DkBatchProcess(filePathIn, filePathOut)].
    Modelled from the spec: the initial values of the members which the
    constructor does not assign are those of DkProcess.h, which is not
    among the sources: an item starts without failure, not processed,
    without backup. *)
Definition DkBatchProcess_new (filePathIn filePathOut : string)
  : DkBatchProcess :=
  {| mFilePathIn := filePathIn;
     mFilePathOut := filePathOut;
     mBackupFilePath := EmptyString;
     mMode := mode_skip_existing;
     mDeleteOriginal := false;
     mCompression := -1;
     mFailure := 0;
     mIsProcessed := false;
     mInfos := [];
     mLogStrings := [];
     mProcessFunctions := [] |}.

Definition setProcessChain (processes : list (option DkAbstractBatch))
    (p : DkBatchProcess) : DkBatchProcess :=
  {| mFilePathIn := mFilePathIn p; mFilePathOut := mFilePathOut p;
     mBackupFilePath := mBackupFilePath p; mMode := mMode p;
     mDeleteOriginal := mDeleteOriginal p; mCompression := mCompression p;
     mFailure := mFailure p; mIsProcessed := mIsProcessed p;
     mInfos := mInfos p; mLogStrings := mLogStrings p;
     mProcessFunctions := processes |}.

Definition setMode (mode : Z) (p : DkBatchProcess) : DkBatchProcess :=
  {| mFilePathIn := mFilePathIn p; mFilePathOut := mFilePathOut p;
     mBackupFilePath := mBackupFilePath p; mMode := mode;
     mDeleteOriginal := mDeleteOriginal p; mCompression := mCompression p;
     mFailure := mFailure p; mIsProcessed := mIsProcessed p;
     mInfos := mInfos p; mLogStrings := mLogStrings p;
     mProcessFunctions := mProcessFunctions p |}.

Definition setDeleteOriginal (deleteOriginal : bool) (p : DkBatchProcess)
  : DkBatchProcess :=
  {| mFilePathIn := mFilePathIn p; mFilePathOut := mFilePathOut p;
     mBackupFilePath := mBackupFilePath p; mMode := mMode p;
     mDeleteOriginal := deleteOriginal; mCompression := mCompression p;
     mFailure := mFailure p; mIsProcessed := mIsProcessed p;
     mInfos := mInfos p; mLogStrings := mLogStrings p;
     mProcessFunctions := mProcessFunctions p |}.

Definition setCompression (compression : Z) (p : DkBatchProcess)
  : DkBatchProcess :=
  {| mFilePathIn := mFilePathIn p; mFilePathOut := mFilePathOut p;
     mBackupFilePath := mBackupFilePath p; mMode := mMode p;
     mDeleteOriginal := mDeleteOriginal p; mCompression := compression;
     mFailure := mFailure p; mIsProcessed := mIsProcessed p;
     mInfos := mInfos p; mLogStrings := mLogStrings p;
     mProcessFunctions := mProcessFunctions p |}.

(** The item with one member assigned. *)
Definition withLog (logStrings : list LogLine) (p : DkBatchProcess)
  : DkBatchProcess :=
  {| mFilePathIn := mFilePathIn p; mFilePathOut := mFilePathOut p;
     mBackupFilePath := mBackupFilePath p; mMode := mMode p;
     mDeleteOriginal := mDeleteOriginal p; mCompression := mCompression p;
     mFailure := mFailure p; mIsProcessed := mIsProcessed p;
     mInfos := mInfos p; mLogStrings := logStrings;
     mProcessFunctions := mProcessFunctions p |}.

Definition withFailure (failure : Z) (p : DkBatchProcess) : DkBatchProcess :=
  {| mFilePathIn := mFilePathIn p; mFilePathOut := mFilePathOut p;
     mBackupFilePath := mBackupFilePath p; mMode := mMode p;
     mDeleteOriginal := mDeleteOriginal p; mCompression := mCompression p;
     mFailure := failure; mIsProcessed := mIsProcessed p;
     mInfos := mInfos p; mLogStrings := mLogStrings p;
     mProcessFunctions := mProcessFunctions p |}.

Definition withIsProcessed (b : bool) (p : DkBatchProcess) : DkBatchProcess :=
  {| mFilePathIn := mFilePathIn p; mFilePathOut := mFilePathOut p;
     mBackupFilePath := mBackupFilePath p; mMode := mMode p;
     mDeleteOriginal := mDeleteOriginal p; mCompression := mCompression p;
     mFailure := mFailure p; mIsProcessed := b;
     mInfos := mInfos p; mLogStrings := mLogStrings p;
     mProcessFunctions := mProcessFunctions p |}.

Definition withBackupFilePath (path : string) (p : DkBatchProcess)
  : DkBatchProcess :=
  {| mFilePathIn := mFilePathIn p; mFilePathOut := mFilePathOut p;
     mBackupFilePath := path; mMode := mMode p;
     mDeleteOriginal := mDeleteOriginal p; mCompression := mCompression p;
     mFailure := mFailure p; mIsProcessed := mIsProcessed p;
     mInfos := mInfos p; mLogStrings := mLogStrings p;
     mProcessFunctions := mProcessFunctions p |}.

Definition withInfos (infos : list (option DkBatchInfo)) (p : DkBatchProcess)
  : DkBatchProcess :=
  {| mFilePathIn := mFilePathIn p; mFilePathOut := mFilePathOut p;
     mBackupFilePath := mBackupFilePath p; mMode := mMode p;
     mDeleteOriginal := mDeleteOriginal p; mCompression := mCompression p;
     mFailure := mFailure p; mIsProcessed := mIsProcessed p;
     mInfos := infos; mLogStrings := mLogStrings p;
     mProcessFunctions := mProcessFunctions p |}.

Definition hasFailed (p : DkBatchProcess) : bool := negb (mFailure p =? 0).

Definition wasProcessed (p : DkBatchProcess) : bool := mIsProcessed p.

(** ** The monad of the member functions *)

Definition M (A : Type) : Type :=
  DkBatchProcess * World → A * (DkBatchProcess * World).

Definition ret {A : Type} (a : A) : M A := fun s => (a, s).

Definition bind {A B : Type} (m : M A) (k : A → M B) : M B :=
  fun s => let '(a, s') := m s in k a s'.

Notation "x <- c1 ;; c2" := (bind c1 (fun x => c2))
  (at level 100, c1 at next level, right associativity) : batch_scope.
Notation "c1 ;; c2" := (bind c1 (fun _ => c2))
  (at level 100, right associativity) : batch_scope.

Local Open Scope batch_scope.

(** [*this] *)
Definition this : M DkBatchProcess := fun s => (fst s, s).

Definition modify (f : DkBatchProcess → DkBatchProcess) : M unit :=
  fun s => (tt, (f (fst s), snd s)).

(** A call into the file system. *)
Definition fs {A : Type} (call : World → A * World) : M A :=
  fun s => let '(a, w) := call (snd s) in (a, (fst s, w)).

(** [QFileInfo(path).exists()] *)
Definition QFileInfo_exists (path : string) : M bool :=
  fun s => (fileExists (snd s) path, s).

(** [mLogStrings = logStrings] *)
Definition setLog (logStrings : list LogLine) : M unit :=
  modify (withLog logStrings).

(** [mLogStrings.append(line)] *)
Definition appendLog (line : LogLine) : M unit :=
  p <- this ;; setLog (append (mLogStrings p) line).

(** [mFailure++] *)
Definition incrFailure : M unit :=
  modify (fun p => withFailure (incr32 (mFailure p)) p).

(** [mIsProcessed = b] *)
Definition setIsProcessed (b : bool) : M unit :=
  modify (withIsProcessed b).

(** [mBackupFilePath = path] *)
Definition setBackupFilePath (path : string) : M unit :=
  modify (withBackupFilePath path).

(** [mInfos << cInfos] *)
Definition pushInfos (cInfos : list (option DkBatchInfo)) : M unit :=
  modify (fun p => withInfos (mInfos p ++ cInfos) p).

(** [return mFailure == 0;] *)
Definition returnNoFailure : M bool :=
  p <- this ;; ret (mFailure p =? 0).

(** [mProcessFunctions.empty()] *)
Definition chainEmpty (p : DkBatchProcess) : bool :=
  match mProcessFunctions p with [] => true | _ :: _ => false end.

(** ** The backup protocol *)

(** The path of the back-up of [filePathOut] for a token:
    [QFileInfo(buFile.absolutePath(),
               buFile.baseName() + uuid + "." + buFile.suffix())]. *)
Definition backupFilePath (filePathOut uuid : string) : string :=
  filePathIn (absolutePath filePathOut)
    (baseName filePathOut ++ uuid ++ "." ++ suffix filePathOut).

Definition prepareDeleteExisting : M bool :=
  p <- this ;;
  outExists <- QFileInfo_exists (mFilePathOut p) ;;
  if outExists && (mMode p =? mode_overwrite) then
    (* create unique back-up file name *)
    uuid <- fs createUuid ;;
    let buFile := backupFilePath (mFilePathOut p) uuid in
    (* check the uniqueness *)
    buExists <- QFileInfo_exists buFile ;;
    if buExists then
      appendLog (Tr "Error: back-up (%1) file already exists" [AStr buFile]) ;;
      ret false
    else
      renamed <- fs (QFile_rename (mFilePathOut p) buFile) ;;
      if negb renamed then
        appendLog
          (Tr "Error: could not rename existing file to %1" [AStr buFile]) ;;
        appendLog (ErrorString (mFilePathOut p)) ;;
        ret false
      else
        setBackupFilePath buFile ;;
        ret true
  else ret true.

Definition deleteOrRestoreExisting : M bool :=
  p <- this ;;
  outExists <- QFileInfo_exists (mFilePathOut p) ;;
  buExists <- QFileInfo_exists (mBackupFilePath p) ;;
  if outExists && negb (String.eqb (mBackupFilePath p) EmptyString)
     && buExists then
    removed <- fs (QFile_remove (mBackupFilePath p)) ;;
    if negb removed then
      appendLog (Tr "Error: could not delete existing file" []) ;;
      appendLog (ErrorString (mBackupFilePath p)) ;;
      ret false
    else ret true
  (* fall-back *)
  else if negb outExists then
    renamed <- fs (QFile_rename (mBackupFilePath p) (mFilePathOut p)) ;;
    if negb renamed then
      appendLog
        (Tr "Ui - a lot of things went wrong sorry, your original file can be found here: %1"
           [AStr (mBackupFilePath p)]) ;;
      appendLog (ErrorString (mBackupFilePath p)) ;;
      ret false
    else
      appendLog
        (Tr "I could not save to %1 so I restored the original file."
           [AStr (mFilePathOut p)]) ;;
      ret true
  else ret true.

(** ** Rename, copy, delete the original *)

Definition renameFile : M bool :=
  p <- this ;;
  outExists <- QFileInfo_exists (mFilePathOut p) ;;
  if outExists then
    appendLog
      (Tr "Error: could not rename file, the target file exists already." []) ;;
    ret false
  else
    renamed <- fs (QFile_rename (mFilePathIn p) (mFilePathOut p)) ;;
    if negb renamed then
      appendLog (Tr "Error: could not rename file" []) ;;
      appendLog (ErrorString (mFilePathIn p)) ;;
      ret false
    else
      appendLog
        (Tr "Renaming: %1 -> %2"
           [AStr (mFilePathIn p); AStr (mFilePathOut p)]) ;;
      ret true.

Definition copyFile : M bool :=
  p <- this ;;
  outExists <- QFileInfo_exists (mFilePathOut p) ;;
  cleared <-
    (if outExists && (mMode p =? mode_overwrite)
     then deleteOrRestoreExisting else ret true) ;;
  if negb cleared then ret false (* early break *)
  else
    copied <- fs (QFile_copy (mFilePathIn p) (mFilePathOut p)) ;;
    if negb copied then
      appendLog (Tr "Error: could not copy file" []) ;;
      appendLog (Tr "Input: %1" [AStr (mFilePathIn p)]) ;;
      appendLog (Tr "Output: %1" [AStr (mFilePathOut p)]) ;;
      appendLog (ErrorString (mFilePathIn p)) ;;
      ret false
    else
      appendLog
        (Tr "Copying: %1 -> %2"
           [AStr (mFilePathIn p); AStr (mFilePathOut p)]) ;;
      ret true.

Definition deleteOriginalFile : M bool :=
  p <- this ;;
  if String.eqb (mFilePathIn p) (mFilePathOut p) then ret true
  else if (mFailure p =? 0) && mDeleteOriginal p then
    removed <- fs (QFile_remove (mFilePathIn p)) ;;
    if removed then
      appendLog (Tr "%1 deleted." [AStr (mFilePathIn p)]) ;;
      ret true
    else
      incrFailure ;;
      appendLog (Tr "I could not delete %1" [AStr (mFilePathIn p)]) ;;
      ret false
  else if negb (mFailure p =? 0) then
    appendLog
      (Tr "I did not delete the original because I detected %1 failure(s)."
         [AInt (mFailure p)]) ;;
    ret true
  else ret true.

(** ** process *)

(** The loop of [process] over [mProcessFunctions]; [imgC] is the image
    container which all steps share and change in place. *)
Fixpoint runChain (chain : list (option DkAbstractBatch))
    (imgC : DkImageContainer) : M DkImageContainer :=
  match chain with
  | [] => ret imgC
  | None :: chain =>
      appendLog (Tr "Error: cannot process a NULL function." []) ;;
      runChain chain imgC (* continue *)
  | Some batch :: chain =>
      p <- this ;;
      let '(isOk, imgC, logStrings, cInfos) :=
        compute batch imgC (mLogStrings p) in
      setLog logStrings ;;
      (if negb isOk then
         appendLog (Tr "%1 failed" [AStr (name batch)]) ;;
         incrFailure
       else ret tt) ;;
      pushInfos cInfos ;;
      runChain chain imgC
  end.

(** The end of [process], after the loop: the backup of an existing
    output, the save, and what becomes of the backup. *)
Definition process_save (imgC : DkImageContainer) : M bool :=
  p <- this ;;
  (* report we could not back-up & break here *)
  prepared <- prepareDeleteExisting ;;
  if negb prepared then
    incrFailure ;;
    ret false
  else
    saved <- fs (saveImage imgC (mFilePathOut p) (mCompression p)) ;;
    (if saved then
       appendLog (Tr "%1 saved..." [AStr (mFilePathOut p)])
     else
       appendLog (Tr "Could not save: %1" [AStr (mFilePathOut p)]) ;;
       incrFailure) ;;
    finalized <- deleteOrRestoreExisting ;;
    if negb finalized then
      incrFailure ;;
      ret false
    else ret true.

Definition process : M bool :=
  p <- this ;;
  appendLog (Tr "processing %1" [AStr (mFilePathIn p)]) ;;
  loaded <- fs (loadImage (mFilePathIn p)) ;;
  match loaded with
  | None =>
      appendLog (Tr "Error while loading..." []) ;;
      incrFailure ;;
      ret false
  | Some imgC =>
      if isNull (image imgC) then
        appendLog (Tr "Error while loading..." []) ;;
        incrFailure ;;
        ret false
      else
        imgC <- runChain (mProcessFunctions p) imgC ;;
        process_save imgC
  end.

(** ** compute *)

Definition DkBatchProcess_compute : M bool :=
  setIsProcessed true ;;
  p <- this ;;
  inExists <- QFileInfo_exists (mFilePathIn p) ;;
  outExists <- QFileInfo_exists (mFilePathOut p) ;;
  (* check errors *)
  if outExists && (mMode p =? mode_skip_existing) then
    appendLog
      (Tr "%1 already exists -> skipping (check 'overwrite' if you want to overwrite the file)"
         [AStr (mFilePathOut p)]) ;;
    incrFailure ;;
    returnNoFailure
  else if negb inExists then
    appendLog (Tr "Error: input file does not exist" []) ;;
    appendLog (Tr "Input: %1" [AStr (mFilePathIn p)]) ;;
    incrFailure ;;
    returnNoFailure
  else if String.eqb (mFilePathIn p) (mFilePathOut p) && chainEmpty p then
    appendLog (Tr "Skipping: nothing to do here." []) ;;
    incrFailure ;;
    returnNoFailure
  (* do the work *)
  else if chainEmpty p && String.eqb (mFilePathIn p) (mFilePathOut p)
          && String.eqb (suffix (mFilePathIn p)) (suffix (mFilePathOut p))
  then (* rename? *)
    renamed <- renameFile ;;
    (if negb renamed then incrFailure else ret tt) ;;
    returnNoFailure
  else if chainEmpty p
          && String.eqb (suffix (mFilePathIn p)) (suffix (mFilePathOut p))
  then (* copy? *)
    copied <- copyFile ;;
    (if negb copied then incrFailure
     else deleteOriginalFile ;; ret tt) ;;
    returnNoFailure
  else
    process ;;
    returnNoFailure.

(** ** Descriptions used by the theorems *)

(** The members which only the setters assign. *)
Definition sameSetup (p p' : DkBatchProcess) : Prop :=
  mFilePathIn p' = mFilePathIn p ∧ mFilePathOut p' = mFilePathOut p
  ∧ mMode p' = mMode p ∧ mDeleteOriginal p' = mDeleteOriginal p
  ∧ mCompression p' = mCompression p
  ∧ mProcessFunctions p' = mProcessFunctions p.

(** The container and the item after one turn of the loop of [process]
    on the step [batch]. *)
Definition afterStep (batch : DkAbstractBatch) (imgC : DkImageContainer)
    (p : DkBatchProcess) : DkImageContainer * DkBatchProcess :=
  let '(isOk, imgC, logStrings, cInfos) :=
    compute batch imgC (mLogStrings p) in
  let p := withLog logStrings p in
  let p :=
    if isOk then p
    else withFailure (incr32 (mFailure p))
           (withLog (append (mLogStrings p)
                       (Tr "%1 failed" [AStr (name batch)])) p) in
  (imgC, withInfos (mInfos p ++ cInfos) p).

Definition processingLine (p : DkBatchProcess) : LogLine :=
  Tr "processing %1" [AStr (mFilePathIn p)].

Definition nullLine : LogLine :=
  Tr "Error: cannot process a NULL function." [].

Definition skippedLine (p : DkBatchProcess) : LogLine :=
  Tr "%1 already exists -> skipping (check 'overwrite' if you want to overwrite the file)"
     [AStr (mFilePathOut p)].

Definition restoredLine (p : DkBatchProcess) : LogLine :=
  Tr "I could not save to %1 so I restored the original file."
     [AStr (mFilePathOut p)].

Definition lastResortLine (p : DkBatchProcess) : LogLine :=
  Tr "Ui - a lot of things went wrong sorry, your original file can be found here: %1"
     [AStr (mBackupFilePath p)].

(** From [w] to [w'] the calls made are [evs]. *)
Definition calls (w w' : World) (evs : list FsEvent) : Prop :=
  trace w' = (trace w ++ evs)%list.

(** Every [remove] among [evs] is on a path of [P]. *)
Definition removesOnly (P : string → Prop) (evs : list FsEvent) : Prop :=
  ∀ path ok, In (EvRemove path ok) evs → P path.

(** A member function that ends on [return mFailure == 0]. *)
Definition ReturnsNoFailure (m : M bool) : Prop :=
  ∀ s, (m s).1 = negb (hasFailed (m s).2.1).

End BatchProcess.

(* ------------------------------------------------------------------ *)
(** * DkBatchProcessing: polling the results *)

Section BatchProcessing.

Context {enums : DkEnums} {qt : QtCore} {lib : ImageLib}.

Record DkBatchProcessing : Type := {
  mBatchItems : list DkBatchProcess;
  mResList : list Z
}.

(** The body of the second loop of [getCurrentResults], from index [idx]
    on and for [n] more indices.  [QList::at] asserts that the index is in
    range: the call has no result ([None]) if it is not. *)
Fixpoint getCurrentResults_loop (n : nat) (idx : nat)
    (items : list DkBatchProcess) (resList : list Z) : option (list Z) :=
  match n with
  | O => Some resList
  | S n =>
      match resList !! idx with
      | None => None
      | Some r =>
          if negb (r =? batch_item_not_computed) then
            getCurrentResults_loop n (S idx) items resList (* continue *)
          else
            match items !! idx with
            | None => None
            | Some item =>
                let resList :=
                  if wasProcessed item then
                    <[idx :=
                        if hasFailed item then batch_item_failed
                        else batch_item_succeeded]> resList
                  else resList in
                getCurrentResults_loop n (S idx) items resList
            end
      end
  end.

(** [getCurrentResults()]: the list returned and the runner afterwards. *)
Definition getCurrentResults (b : DkBatchProcessing)
  : option (list Z * DkBatchProcessing) :=
  let resList :=
    match mResList b with
    | [] =>
        replicate (length (mBatchItems b)) batch_item_not_computed
    | _ :: _ => mResList b
    end in
  match getCurrentResults_loop (length resList) 0 (mBatchItems b) resList with
  | Some resList =>
      Some (resList, {| mBatchItems := mBatchItems b; mResList := resList |})
  | None => None
  end.

(** A run of polls: before each call the workers have brought the items
    to the next of [snapshots]; the lists returned, call after call. *)
Fixpoint poll (snapshots : list (list DkBatchProcess)) (resList : list Z)
  : option (list (list Z)) :=
  match snapshots with
  | [] => Some []
  | items :: snapshots =>
      match getCurrentResults
              {| mBatchItems := items; mResList := resList |} with
      | Some (res, b) =>
          match poll snapshots (mResList b) with
          | Some rest => Some (res :: rest)
          | None => None
          end
      | None => None
      end
  end.

(** ** Descriptions used by the theorems *)

Definition validEntry (r : Z) : Prop :=
  r = batch_item_not_computed ∨ r = batch_item_succeeded
  ∨ r = batch_item_failed.

(** The classification derived from [wasProcessed()] and [hasFailed()]. *)
Definition classification (item : DkBatchProcess) : Z :=
  if wasProcessed item then
    if hasFailed item then batch_item_failed else batch_item_succeeded
  else batch_item_not_computed.

(** What a call makes of an entry: only an entry that is not computed
    is classified. *)
Definition updated (old : Z) (item : DkBatchProcess) : Z :=
  if old =? batch_item_not_computed then classification item else old.

(** The lists which a run of polls returns, entry by entry. *)
Fixpoint pollSpec (snapshots : list (list DkBatchProcess)) (resList : list Z)
  : list (list Z) :=
  match snapshots with
  | [] => []
  | items :: snapshots =>
      let res := zip_with updated resList items in
      res :: pollSpec snapshots res
  end.

End BatchProcessing.

(* ------------------------------------------------------------------ *)
(** * DkBatchConfig: the configuration of a run *)

(** The directories, for [QDir]: those that exist, and those which the
    environment lets [mkpath] create.  Parent directories are not kept
    track of. *)
Record Directories : Type := {
  existing : gset string;
  creatable : string → bool
}.

(** [QDir(path).exists()] *)
Definition QDir_exists (path : string) (d : Directories) : bool :=
  bool_decide (path ∈ existing d).

(** [QDir(path).mkpath(".")] *)
Definition QDir_mkpath (path : string) (d : Directories)
  : bool * Directories :=
  if QDir_exists path d then (true, d)
  else if creatable d path then
    (true, {| existing := {[ path ]} ∪ existing d; creatable := creatable d |})
  else (false, d).

Module DkBatchConfig.

Section Config.

Context {lib : ImageLib}.

Record t : Type := {
  mFileList : list string;
  mOutputDirPath : string;
  mFileNamePattern : string;
  mCompression : Z;
  mMode : Z;
  mDeleteOriginal : bool;
  mInputDirIsOutputDir : bool;
  mProcessFunctions : list (option DkAbstractBatch)
}.

End Config.

End DkBatchConfig.

Section Configuration.

Context {enums : DkEnums} {qt : QtCore} {lib : ImageLib}.

(** [DkBatchConfig::init()] *)
Definition DkBatchConfig_init (c : DkBatchConfig.t) : DkBatchConfig.t :=
  {| DkBatchConfig.mFileList := DkBatchConfig.mFileList c;
     DkBatchConfig.mOutputDirPath := DkBatchConfig.mOutputDirPath c;
     DkBatchConfig.mFileNamePattern := DkBatchConfig.mFileNamePattern c;
     DkBatchConfig.mCompression := -1;
     DkBatchConfig.mMode := mode_skip_existing;
     DkBatchConfig.mDeleteOriginal := DkBatchConfig.mDeleteOriginal c;
     DkBatchConfig.mInputDirIsOutputDir :=
       DkBatchConfig.mInputDirIsOutputDir c;
     DkBatchConfig.mProcessFunctions := DkBatchConfig.mProcessFunctions c |}.

(** [DkBatchConfig(fileList, outputDir, fileNamePattern)].  The members
    which the constructor does not assign are those of [blank], the object
    as DkProcess.h initialises it. *)
Definition DkBatchConfig_new (blank : DkBatchConfig.t)
    (fileList : list string) (outputDir fileNamePattern : string)
  : DkBatchConfig.t :=
  DkBatchConfig_init
    {| DkBatchConfig.mFileList := fileList;
       DkBatchConfig.mOutputDirPath := outputDir;
       DkBatchConfig.mFileNamePattern := fileNamePattern;
       DkBatchConfig.mCompression := DkBatchConfig.mCompression blank;
       DkBatchConfig.mMode := DkBatchConfig.mMode blank;
       DkBatchConfig.mDeleteOriginal := DkBatchConfig.mDeleteOriginal blank;
       DkBatchConfig.mInputDirIsOutputDir :=
         DkBatchConfig.mInputDirIsOutputDir blank;
       DkBatchConfig.mProcessFunctions :=
         DkBatchConfig.mProcessFunctions blank |}.

(** [DkBatchConfig::isOk()]: the answer and the directories afterwards. *)
Definition isOk (c : DkBatchConfig.t) (d : Directories)
  : bool * Directories :=
  if String.eqb (DkBatchConfig.mOutputDirPath c) EmptyString then (false, d)
  else
    let '(made, d) :=
      if negb (QDir_exists (DkBatchConfig.mOutputDirPath c) d)
      then QDir_mkpath (DkBatchConfig.mOutputDirPath c) d
      else (true, d) in
    if negb made then
      (false, d) (* output dir does not exist & I cannot create it *)
    else
      match DkBatchConfig.mFileList c with
      | [] => (false, d)
      | _ :: _ =>
          if String.eqb (DkBatchConfig.mFileNamePattern c) EmptyString
          then (false, d)
          else (true, d)
      end.

End Configuration.

(* ------------------------------------------------------------------ *)
(** * DkBatchProcessing: setting up the items and reporting on them *)

(** [QFileInfo::fileName] and the expansion of the file name pattern
    ([DkFileNameConverter], which is not part of DkProcess.cpp). *)
Class FileNames : Type := {
  QFileInfo_fileName : string → string;
  (** [DkFileNameConverter(fileName, pattern, idx).getConvertedFileName()] *)
  getConvertedFileName : string → string → Z → string
}.

(** A [QString] put together with [+]: literal text, and text that goes
    through [tr]. *)
Inductive Piece : Type :=
| Lit (text : string)
| Translated (source : string).

Section Reporting.

Context {enums : DkEnums} {qt : QtCore} {lib : ImageLib} {names : FileNames}.

(** ** The accessors of an item *)

Definition inputFile (p : DkBatchProcess) : string := mFilePathIn p.

Definition outputFile (p : DkBatchProcess) : string := mFilePathOut p.

Definition batchInfo (p : DkBatchProcess) : list (option DkBatchInfo) :=
  mInfos p.

(** ** init *)

(** The body of the loop of [DkBatchProcessing::init]: the item for the
    file at index [idx].
    Modelled from the spec: the getters of DkBatchConfig (DkProcess.h is
    not among the sources) return the members of the configuration. *)
Definition init_item (config : DkBatchConfig.t) (idx : nat) (file : string)
  : DkBatchProcess :=
  let outDir :=
    if DkBatchConfig.mInputDirIsOutputDir config then absolutePath file
    else DkBatchConfig.mOutputDirPath config in
  let converted :=
    getConvertedFileName (QFileInfo_fileName file)
      (DkBatchConfig.mFileNamePattern config) (Z.of_nat idx) in
  let cProcess := DkBatchProcess_new file (filePathIn outDir converted) in
  let cProcess := setMode (DkBatchConfig.mMode config) cProcess in
  let cProcess :=
    setDeleteOriginal (DkBatchConfig.mDeleteOriginal config) cProcess in
  let cProcess :=
    setProcessChain (DkBatchConfig.mProcessFunctions config) cProcess in
  setCompression (DkBatchConfig.mCompression config) cProcess.

(** The loop of [DkBatchProcessing::init] over the file list, from index
    [idx] on. *)
Fixpoint init_loop (config : DkBatchConfig.t) (fileList : list string)
    (idx : nat) (batchItems : list DkBatchProcess) : list DkBatchProcess :=
  match fileList with
  | [] => batchItems
  | file :: fileList =>
      let cProcess := init_item config idx file in
      init_loop config fileList (S idx) (batchItems ++ [cProcess])%list
  end.

(** [DkBatchProcessing::init()], on the runner whose [mBatchConfig] is
    [config]: the items are rebuilt, the result list is not touched. *)
Definition init (config : DkBatchConfig.t) (b : DkBatchProcessing)
  : DkBatchProcessing :=
  {| mBatchItems := init_loop config (DkBatchConfig.mFileList config) 0 [];
     mResList := mResList b |}.

(** [DkBatchProcessing::computeItem(item)] *)
Definition computeItem : M bool := DkBatchProcess_compute.

(** ** Counts and summaries *)

Definition getNumFailures (b : DkBatchProcessing) : Z :=
  fold_left
    (fun numFailures batch =>
       if hasFailed batch then incr32 numFailures else numFailures)
    (mBatchItems b) 0.

Definition getNumProcessed (b : DkBatchProcessing) : Z :=
  fold_left
    (fun numProcessed batch =>
       if wasProcessed batch then incr32 numProcessed else numProcessed)
    (mBatchItems b) 0.

(** [mBatchItems.size()], an [int]: a [QList] holds less than 2^31
    entries. *)
Definition getNumItems (b : DkBatchProcessing) : Z :=
  Z.of_nat (length (mBatchItems b)).

Definition tab : string := String "009"%char EmptyString.

Definition quote : string := String "034"%char EmptyString.

Definition getBatchSummary (batch : DkBatchProcess) : list Piece :=
  let res := [Lit (inputFile batch ++ tab)] in
  if negb (hasFailed batch) then
    (res ++ [Lit (" <span style=" ++ quote ++ " color:#00aa00;" ++ quote
                  ++ ">");
             Translated "[OK]"; Lit "</span>"])%list
  else
    (res ++ [Lit (" <span style=" ++ quote ++ " color:#aa0000;" ++ quote
                  ++ ">");
             Translated "[FAIL]"; Lit "</span>"])%list.

Definition getResultList (b : DkBatchProcessing) : list (list Piece) :=
  fold_left
    (fun results batch =>
       if wasProcessed batch then (results ++ [getBatchSummary batch])%list
       else results)
    (mBatchItems b) [].

(** ** Descriptions used by the theorems *)

(** The entry of the result list for the answer of [computeItem]. *)
Definition verdictEntry (ok : bool) : Z :=
  if ok then batch_item_succeeded else batch_item_failed.

End Reporting.

(* ------------------------------------------------------------------ *)
(** * DkPluginBatch: the step that runs plugins (WITH_PLUGINS) *)

(** The plugin host.  DkPluginManager, DkPluginContainer and the plugin
    interfaces are not part of DkProcess.cpp.  A plugin is handed the
    shared pointer to the container and answers with a shared pointer,
    which may be null, the one it was given or another one; what a call
    may change - the containers behind the pointers, the plugin itself -
    is the state [PluginState]. *)
Class PluginHost : Type := {
  (** a loaded plugin, behind a [QSharedPointer<DkPluginContainer>] that
      is not null *)
  DkPluginContainer : Type;
  (** a [QSharedPointer<DkImageContainer>] that is not null *)
  Pointer : Type;
  PluginState : Type;
  interface_basic : Z;
  interface_batch : Z;
  interfaces_distinct : interface_basic ≠ interface_batch;
  (** [QString::split(separator)] *)
  QString_split : string → string → list string;
  (** [DkPluginManager::instance().getPluginByName(name)] *)
  getPluginByName : string → option DkPluginContainer;
  actionNameToRunId : DkPluginContainer → string → string;
  pluginName : DkPluginContainer → string;
  (** [plugin()->interfaceType()], if [plugin()] is not null *)
  interfaceType : DkPluginContainer → option Z;
  (** [batchPlugin()] is not null *)
  hasBatchPlugin : DkPluginContainer → bool;
  (** [container->hasImage()] *)
  hasImage : Pointer → PluginState → bool;
  (** [plugin->runPlugin(runID, container)] *)
  runPlugin :
    DkPluginContainer → string → option Pointer → PluginState →
    option Pointer * PluginState;
  (** [bPlugin->runPlugin(runID, container, info)]: the result, [info]
      afterwards, and the state *)
  runBatchPlugin :
    DkPluginContainer → string → option Pointer → PluginState →
    option Pointer * option DkBatchInfo * PluginState;
  (** [plugin->preLoadPlugin()] *)
  preLoadPlugin : DkPluginContainer → PluginState → PluginState
}.

Section Plugins.

Context {host : PluginHost}.

Record DkPluginBatch : Type := {
  mPluginList : list string;
  mPlugins : list (option DkPluginContainer);
  mRunIDs : list string
}.

Definition DkPluginBatch_name : string := "[Plugin Batch]".

(** [setProperties(pluginList)] *)
Definition DkPluginBatch_setProperties (pluginList : list string)
    (s : DkPluginBatch) : DkPluginBatch :=
  {| mPluginList := pluginList; mPlugins := mPlugins s;
     mRunIDs := mRunIDs s |}.

Definition DkPluginBatch_isActive (s : DkPluginBatch) : bool :=
  negb (match mPluginList s with [] => true | _ :: _ => false end).

(** [loadPlugin(pluginString, plugin, runID)]: the reference parameters
    [plugin] and [runID], which the caller hands over null and empty. *)
Definition loadPlugin (pluginString : string)
  : option DkPluginContainer * string :=
  let uiSeparator := " | " in
  let ids := QString_split pluginString uiSeparator in
  match ids with
  | [name; action] =>
      match getPluginByName name with
      | Some plugin => (Some plugin, actionNameToRunId plugin action)
      | None => (None, EmptyString)
      end
  | _ => (* ids.size() != 2 *) (None, EmptyString)
  end.

(** The loop of [loadAllPlugins] over the plugin list. *)
Fixpoint loadAllPlugins_loop (pluginList : list string) (s : DkPluginBatch)
    (state : PluginState) : DkPluginBatch * PluginState :=
  match pluginList with
  | [] => (s, state)
  | cPluginString :: pluginList =>
      let '(pluginContainer, runID) := loadPlugin cPluginString in
      (* also add the empty ones... *)
      let s :=
        {| mPluginList := mPluginList s;
           mPlugins := (mPlugins s ++ [pluginContainer])%list;
           mRunIDs := (mRunIDs s ++ [runID])%list |} in
      let state :=
        match pluginContainer with
        | Some plugin =>
            if hasBatchPlugin plugin then preLoadPlugin plugin state
            else state
        | None => state
        end in
      loadAllPlugins_loop pluginList s state
  end.

Definition loadAllPlugins (s : DkPluginBatch) (state : PluginState)
  : DkPluginBatch * PluginState :=
  loadAllPlugins_loop (mPluginList s) s state.

Definition preLoad (s : DkPluginBatch) (state : PluginState)
  : DkPluginBatch * PluginState :=
  loadAllPlugins s state.

(** The loop of [DkPluginBatch::compute], from index [idx] on and for [n]
    more indices.  [container] is the parameter of [compute], a shared
    pointer passed by value; [mRunIDs[idx]] has no result if the index is
    out of range. *)
Fixpoint DkPluginBatch_loop (n idx : nat) (s : DkPluginBatch)
    (container : option Pointer) (logStrings : list LogLine)
    (batchInfos : list (option DkBatchInfo)) (state : PluginState)
  : option (option Pointer * list LogLine * list (option DkBatchInfo)
            * PluginState) :=
  match n with
  | O => Some (container, logStrings, batchInfos, state)
  | S n =>
      match mPlugins s !! idx, mRunIDs s !! idx with
      | Some pluginContainer, Some runID =>
          let '(container, logStrings, batchInfos, state) :=
            match pluginContainer with
            | Some plugin =>
                match interfaceType plugin with
                | Some type =>
                    if (type =? interface_basic) || (type =? interface_batch)
                    then
                      (* apply the plugin *)
                      let '(result, logStrings, batchInfos, state) :=
                        if type =? interface_basic then
                          let '(result, state) :=
                            runPlugin plugin runID container state in
                          (result, logStrings, batchInfos, state)
                        else if type =? interface_batch then
                          let '(result, info, logStrings, state) :=
                            if hasBatchPlugin plugin then
                              let '(result, info, state) :=
                                runBatchPlugin plugin runID container state in
                              (result, info, logStrings, state)
                            else
                              (None, None,
                               append logStrings
                                 (Tr "%1 Cannot cast batch plugin %2."
                                    [AStr DkPluginBatch_name;
                                     AStr (pluginName plugin)]),
                               state) in
                          (result, logStrings, (batchInfos ++ [info])%list,
                           state)
                        else (None, logStrings, batchInfos, state) in
                      match result with
                      | Some r =>
                          if hasImage r state
                          then (Some r, logStrings, batchInfos, state)
                          else
                            (container,
                             append logStrings
                               (Tr "%1 Cannot apply %2."
                                  [AStr DkPluginBatch_name;
                                   AStr (pluginName plugin)]),
                             batchInfos, state)
                      | None =>
                          (container,
                           append logStrings
                             (Tr "%1 Cannot apply %2."
                                [AStr DkPluginBatch_name;
                                 AStr (pluginName plugin)]),
                           batchInfos, state)
                      end
                    else
                      (container,
                       append logStrings
                         (Tr "%1 illegal plugin interface: %2"
                            [AStr DkPluginBatch_name;
                             AStr (pluginName plugin)]),
                       batchInfos, state)
                | None =>
                    (container,
                     append logStrings
                       (Tr "%1 illegal plugin interface: %2"
                          [AStr DkPluginBatch_name;
                           AStr (pluginName plugin)]),
                     batchInfos, state)
                end
            | None =>
                (container,
                 append logStrings
                   (Tr "%1 Cannot apply plugin because it is NULL."
                      [AStr DkPluginBatch_name]),
                 batchInfos, state)
            end in
          DkPluginBatch_loop n (S idx) s container logStrings batchInfos state
      | _, _ => None
      end
  end.

(** [DkPluginBatch::compute(container, logStrings, batchInfos)]: the
    verdict, the log, the infos and the state afterwards. *)
Definition DkPluginBatch_compute (s : DkPluginBatch)
    (container : option Pointer) (logStrings : list LogLine)
    (batchInfos : list (option DkBatchInfo)) (state : PluginState)
  : option (bool * list LogLine * list (option DkBatchInfo) * PluginState) :=
  if negb (DkPluginBatch_isActive s) then
    Some (true,
          append logStrings
            (Tr "%1 inactive -> skipping" [AStr DkPluginBatch_name]),
          batchInfos, state)
  else
    match DkPluginBatch_loop (length (mPlugins s)) 0 s container logStrings
            batchInfos state with
    | Some (container, logStrings, batchInfos, state) =>
        let ok :=
          match container with
          | Some c => hasImage c state
          | None => false
          end in
        if negb ok then
          Some (false,
                append logStrings
                  (Tr "%1 error, could not apply plugins."
                     [AStr DkPluginBatch_name]),
                batchInfos, state)
        else
          Some (true,
                append logStrings
                  (Tr "%1 plugins applied." [AStr DkPluginBatch_name]),
                batchInfos, state)
    | None => None
    end.

(** ** Descriptions used by the theorems *)

(** An entry of [mPlugins] whose plugin is run through the batch
    interface. *)
Definition runsAsBatch (entry : option DkPluginContainer) : bool :=
  match entry with
  | Some plugin =>
      match interfaceType plugin with
      | Some type => type =? interface_batch
      | None => false
      end
  | None => false
  end.

Definition nullPluginLine : LogLine :=
  Tr "%1 Cannot apply plugin because it is NULL." [AStr DkPluginBatch_name].

End Plugins.

(* ------------------------------------------------------------------ *)
(** * Assertions on member functions *)

Section Triples.

Context {enums : DkEnums} {qt : QtCore} {lib : ImageLib}.

(** From a state in [P], the member function [m] returns a value and
    leaves a state in [Q]. *)
Definition hoare {A : Type} (P : DkBatchProcess * World → Prop) (m : M A)
    (Q : A → DkBatchProcess * World → Prop) : Prop :=
  ∀ s, P s → Q (m s).1 (m s).2.

(** [m] keeps [I]. *)
Definition keeps {A : Type} (I : DkBatchProcess * World → Prop) (m : M A)
  : Prop :=
  hoare I m (fun _ => I).

(** The environment refuses none of the next [n] calls. *)
Definition cooperative (n : nat) (w : World) : bool :=
  forallb negb (take n (faults w)).

(** A step that only adds lines to the log it is given. *)
Definition OnlyAppends (batch : DkAbstractBatch) : Prop :=
  ∀ c logStrings, logStrings `prefix_of` (compute batch c logStrings).1.2.

(** An entry of the chain whose step only adds lines to the log. *)
Definition stepAppends (entry : option DkAbstractBatch) : Prop :=
  match entry with Some batch => OnlyAppends batch | None => True end.

(** What a member function makes of an item: the setup is kept; an item
    that is processed stays so; at most [k] failures are counted, as long
    as the counter stays within an [int]; and the log only grows, if the
    steps of the chain only add lines to it. *)
Definition advances (k : Z) (p p' : DkBatchProcess) : Prop :=
  sameSetup p p'
  ∧ (mIsProcessed p = true → mIsProcessed p' = true)
  ∧ (0 <= mFailure p → mFailure p + k <= max_int →
     mFailure p <= mFailure p' <= mFailure p + k)
  ∧ (Forall stepAppends (mProcessFunctions p) →
     mLogStrings p `prefix_of` mLogStrings p').

Definition moves {A : Type} (k : Z) (m : M A) : Prop :=
  ∀ p w, advances k p (m (p, w)).2.1.

(** The size which [prepareProperties] normalizes the size of the image
    to, in the modes that set a side. *)
Definition normalizedSize (s : DkResizeBatch) (imgSize : QSize.t) : QSize.t :=
  if rMode s =? mode_long_side then
    if QSize.width imgSize <? QSize.height imgSize
    then QSize.transpose imgSize else imgSize
  else if rMode s =? mode_short_side then
    if QSize.width imgSize >? QSize.height imgSize
    then QSize.transpose imgSize else imgSize
  else if rMode s =? mode_height then QSize.transpose imgSize
  else imgSize.

(** The container which [loadImage] makes of the data of a file. *)
Definition loaded (path : string) (d : FileData) : DkImageContainer :=
  {| cFilePath := path; cImage := decode d; cCropRect := storedCropRect d |}.

(** The item at the start of the chain of [process], when [compute] calls
    it. *)
Definition started (p : DkBatchProcess) : DkBatchProcess :=
  withLog (mLogStrings p ++ [processingLine p])%list (withIsProcessed true p).

End Triples.

(* ------------------------------------------------------------------ *)
(** * Stand-ins for the collaborators

    Executable instances of [DkEnums], [QtCore] and [ImageLib], on which the
    engine is run on concrete items: pictures are the terms of the
    operations applied to a decoded file. *)

Module Standin.

Definition enums : DkEnums.
Proof.
  refine {| mode_default := 0; mode_long_side := 1; mode_short_side := 2;
            mode_height := 4;
            prop_decrease_only := 1; prop_increase_only := 2;
            mode_overwrite := 0; mode_skip_existing := 1;
            batch_item_not_computed := 0; batch_item_succeeded := 1;
            batch_item_failed := 2 |}.
  all: by apply (bool_decide_unpack _).
Defined.

(** The text after the last [c] of [s], if [c] occurs. *)
Fixpoint afterLast (c : Ascii.ascii) (s : string) : option string :=
  match s with
  | EmptyString => None
  | String a s =>
      match afterLast c s with
      | Some r => Some r
      | None => if Ascii.eqb a c then Some s else None
      end
  end.

(** The text before the last [c] of [s], if [c] occurs. *)
Fixpoint beforeLast (c : Ascii.ascii) (s : string) : option string :=
  match s with
  | EmptyString => None
  | String a s =>
      match beforeLast c s with
      | Some r => Some (String a r)
      | None => if Ascii.eqb a c then Some EmptyString else None
      end
  end.

(** The text before the first [c] of [s]. *)
Fixpoint beforeFirst (c : Ascii.ascii) (s : string) : string :=
  match s with
  | EmptyString => EmptyString
  | String a s =>
      if Ascii.eqb a c then EmptyString else String a (beforeFirst c s)
  end.

Definition fileName (path : string) : string :=
  match afterLast "/"%char path with Some f => f | None => path end.

(** Round half away from zero. *)
Definition round (f : float) : Z :=
  match f with
  | S754_finite s m e =>
      let v :=
        if 0 <=? e then Zpos m * 2 ^ e
        else (2 * Zpos m + 2 ^ (- e)) / 2 ^ (1 - e) in
      if s then - v else v
  | _ => 0
  end.

Definition qt : QtCore :=
  {| absolutePath path :=
       match beforeLast "/"%char path with Some d => d | None => "." end;
     baseName path := beforeFirst "."%char (fileName path);
     suffix path :=
       match afterLast "."%char (fileName path) with
       | Some e => e
       | None => EmptyString
       end;
     filePathIn dir file := dir ++ "/" ++ file;
     qRound := round |}.

Inductive Picture : Type :=
| Null
| Decoded (name : string) (width height : Z)
| Rotated (angle : Z) (p : Picture)
| Mirrored (horizontal vertical : bool) (p : Picture)
| Cropped (rect : Z * Z) (p : Picture)
| Resized (size : Z * Z) (factor : float) (p : Picture).

Definition isNullPicture (p : Picture) : bool :=
  match p with Null => true | _ => false end.

(** The size of a picture; a resize to an invalid size (by a factor
    alone) is taken to keep the size. *)
Fixpoint sizeOf (p : Picture) : Z * Z :=
  match p with
  | Null => (0, 0)
  | Decoded _ w h => (w, h)
  | Rotated angle p =>
      if (angle =? 90) || (angle =? 270) then QSize.transpose (sizeOf p)
      else sizeOf p
  | Mirrored _ _ p => sizeOf p
  | Cropped rect _ => rect
  | Resized size _ p => if 0 <? fst size then size else sizeOf p
  end.

(** The bytes of a file: an encoded picture with its stored crop region,
    or something that is no picture. *)
Inductive Bytes : Type :=
| Encoded (p : Picture) (crop : Z * Z) (compression : Z)
| Garbage (text : string).

Definition lib : ImageLib :=
  {| QImage := Picture;
     DkRotatingRect := Z * Z;
     FileData := Bytes;
     isNull := isNullPicture;
     imageSize := sizeOf;
     transformed angle p := if isNullPicture p then Null else Rotated angle p;
     mirrored h v p := if isNullPicture p then Null else Mirrored h v p;
     resizeImage p size factor _ _ :=
       if isNullPicture p then Null else Resized size factor p;
     cropToImage p rect := if isNullPicture p then Null else Cropped rect p;
     rectIsEmpty rect := (fst rect <=? 0) || (snd rect <=? 0);
     decode d := match d with Encoded p _ _ => p | Garbage _ => Null end;
     storedCropRect d :=
       match d with Encoded _ crop _ => crop | Garbage _ => (0, 0) end;
     encode p _ compression := Encoded p (0, 0) compression |}.

(** A world with the given files, in which every call goes through. *)
Definition world (fs : list (string * Bytes)) : @World lib :=
  {| files := list_to_map fs; faults := []; uuids := ["{u1}"; "{u2}"];
     trace := [] |}.

(** The same world, with the decisions of the environment given. *)
Definition worldWith (fs : list (string * Bytes)) (decisions : list bool)
  : @World lib :=
  {| files := list_to_map fs; faults := decisions; uuids := ["{u1}"; "{u2}"];
     trace := [] |}.

(** The item which [DkBatchProcessing::init] sets up. *)
Definition item (filePathIn filePathOut : string) (mode : Z)
    (deleteOriginal : bool)
    (chain : list (option (@DkAbstractBatch lib)))
  : @DkBatchProcess lib :=
  setCompression (-1)
    (setProcessChain chain
       (setDeleteOriginal deleteOriginal
          (setMode mode
             (@DkBatchProcess_new enums lib filePathIn filePathOut)))).

Definition photo : Picture := Decoded "photo" 400 300.

Definition container (p : Picture) (crop : Z * Z) : @DkImageContainer lib :=
  @Build_DkImageContainer lib "/in/a.png" p crop.

(** A step that fails and leaves the container alone. *)
Definition brokenStep : @DkAbstractBatch lib :=
  @Build_DkAbstractBatch lib "[Broken]" true
    (fun c logStrings => (false, c, logStrings, [])).

Definition quarterTurn (crop : bool) : @DkBatchTransform :=
  {| mAngle := 90; mHorizontalFlip := false; mVerticalFlip := false;
     mCropFromMetadata := crop |}.

(** Long side to 200 px, never decreasing. *)
Definition longSide200 : @DkResizeBatch :=
  {| mScaleFactor := of_int 200; rMode := @mode_long_side enums;
     mProperty := @prop_increase_only enums; mIplMethod := 0;
     mCorrectGamma := false |}.

(** /in/a.png is a photo, /out/a.jpg exists already. *)
Definition twoFiles : list (string * Bytes) :=
  [("/in/a.png", Encoded photo (0, 0) 90); ("/out/a.jpg", Garbage "old")].

(** The same, and /out/a.png exists as well. *)
Definition threeFiles : list (string * Bytes) :=
  ("/out/a.png", Garbage "kept") :: twoFiles.

(** File names are kept as they are, whatever the pattern. *)
Definition names : FileNames :=
  {| QFileInfo_fileName := fileName;
     getConvertedFileName name _ _ := name |}.

(** Half the size, in the default mode, with a policy that forbids it. *)
Definition halfSize : @DkResizeBatch :=
  {| mScaleFactor := div one (of_int 2); rMode := @mode_default enums;
     mProperty := @prop_increase_only enums; mIplMethod := 0;
     mCorrectGamma := false |}.

(** A factor of 1 in the default mode: the step is not active. *)
Definition sameSize : @DkResizeBatch :=
  {| mScaleFactor := one; rMode := @mode_default enums;
     mProperty := @prop_decrease_only enums; mIplMethod := 0;
     mCorrectGamma := false |}.

(** Long side to 200 px, never increasing. *)
Definition shrinkTo200 : @DkResizeBatch :=
  {| mScaleFactor := of_int 200; rMode := @mode_long_side enums;
     mProperty := @prop_decrease_only enums; mIplMethod := 0;
     mCorrectGamma := false |}.

(** Two photos into /out, with a resize step. *)
Definition config : @DkBatchConfig.t lib :=
  {| DkBatchConfig.mFileList := ["/in/a.png"; "/in/b.png"];
     DkBatchConfig.mOutputDirPath := "/out";
     DkBatchConfig.mFileNamePattern := "<c:0>";
     DkBatchConfig.mCompression := 90;
     DkBatchConfig.mMode := @mode_overwrite enums;
     DkBatchConfig.mDeleteOriginal := false;
     DkBatchConfig.mInputDirIsOutputDir := false;
     DkBatchConfig.mProcessFunctions :=
       [Some (@resizeStep enums qt lib shrinkTo200)] |}.

(** No directory yet; every directory can be made. *)
Definition emptyDisk : Directories :=
  {| existing := ∅; creatable := fun _ => true |}.

(** The parts of [s] between the occurrences of [sep], for at most
    [fuel] occurrences. *)
Fixpoint splitString (fuel : nat) (sep s : string) : list string :=
  match fuel with
  | O => [s]
  | S fuel =>
      match String.index 0 sep s with
      | Some i =>
          String.substring 0 i s
          :: splitString fuel sep
               (String.substring (i + String.length sep)
                  (String.length s - i - String.length sep) s)
      | None => [s]
      end
  end.

(** Two plugins: Paint, with the basic interface, and Stats, with the
    batch interface.  Pointers are indices into a list of pictures;
    neither plugin changes a picture. *)
Definition host : PluginHost.
Proof.
  refine
    {| DkPluginContainer := string;
       Pointer := nat;
       PluginState := list Picture;
       interface_basic := 1;
       interface_batch := 2;
       QString_split s sep := splitString (String.length s) sep s;
       getPluginByName name :=
         if String.eqb name "Paint" || String.eqb name "Stats"
         then Some name else None;
       actionNameToRunId plugin action := plugin ++ ":" ++ action;
       pluginName plugin := plugin;
       interfaceType plugin :=
         if String.eqb plugin "Paint" then Some 1
         else if String.eqb plugin "Stats" then Some 2 else None;
       hasBatchPlugin plugin := String.eqb plugin "Stats";
       hasImage c state :=
         match state !! c with
         | Some p => negb (isNullPicture p)
         | None => false
         end;
       runPlugin _ _ c state := (c, state);
       runBatchPlugin _ runID c state :=
         (c, Some {| runID := runID; blob := "stats" |}, state);
       preLoadPlugin _ state := state |}.
  discriminate.
Defined.

(** A plugin step as [setProperties] leaves it, with one descriptor that
    resolves and one that does not. *)
Definition twoPlugins : @DkPluginBatch host :=
  {| mPluginList := ["Stats | count"; "Sepia"]; mPlugins := [];
     mRunIDs := [] |}.

(** A plugin step none of whose descriptors could be resolved. *)
Definition noPlugin : @DkPluginBatch host :=
  {| mPluginList := ["Sepia"]; mPlugins := [None];
     mRunIDs := [EmptyString] |}.

End Standin.

(* ------------------------------------------------------------------ *)
(** * Proof tools *)

(** Run the monad of the member functions up to the next call or test. *)
Ltac unfold_monad :=
  cbv beta iota zeta delta
    [returnNoFailure appendLog setLog incrFailure setIsProcessed
     setBackupFilePath pushInfos QFileInfo_exists fs modify this bind ret
     fst snd];
  cbn [negb andb orb].

(* ------------------------------------------------------------------ *)
(** * The steps *)

Section StepTheorems.

Context {enums : DkEnums} {qt : QtCore} {lib : ImageLib}.

Lemma setImage_image (c : DkImageContainer) : setImage c (image c) = c.
Proof. by destruct c. Qed.

(** In a mode whose target is a side, the factor of the specification is
    the one which [prepareProperties] computes. *)
Lemma specScaleFactor_computed (s : DkResizeBatch) (imgSize : QSize.t) :
  rMode s ≠ mode_default →
  computedScaleFactor s imgSize = Some (specScaleFactor s imgSize).
Proof.
  intros Hd. apply Z.eqb_neq in Hd.
  unfold computedScaleFactor, specScaleFactor, specNormalizedSize.
  by rewrite Hd.
Qed.

(** On the image: with a configured factor of exactly 1, or in a mode
    whose target is a side under a policy that forbids the direction of
    the change, [compute] answers [true], returns the image it was given
    and only adds lines to the log. *)
Lemma DkResizeBatch_compute_noop (s : DkResizeBatch) (img : QImage)
    (logStrings : list LogLine) :
  Float32.eqb (mScaleFactor s) one = true
  ∨ (rMode s ≠ mode_default ∧ specPolicyForbids s (imageSize img) = true) →
  ∃ lines,
    DkResizeBatch_compute s img logStrings =
      (true, img, (logStrings ++ lines)%list).
Proof.
  unfold DkResizeBatch_compute.
  destruct (Float32.eqb (mScaleFactor s) one); [unfold append; eauto|].
  intros [?|[Hd H]]; [done|]. apply Z.eqb_neq in Hd.
  revert H.
  unfold specPolicyForbids, specScaleFactor, specNormalizedSize,
    prepareProperties, append.
  rewrite Hd. simpl.
  set (sf := div _ _).
  intros H.
  destruct (gtb sf one) eqn:Hgt, (ltb sf one) eqn:Hlt,
    (mProperty s =? prop_decrease_only) eqn:Hp,
    (mProperty s =? prop_increase_only) eqn:Hi;
    simpl in *; try discriminate; rewrite <- ?app_assoc; eauto.
Qed.

(** Claim C6, amended: a resize step whose configured scale factor is
    exactly 1.0 is a no-op success in every mode, and so is one in a mode
    whose target is a side - every mode but the default one - whose policy
    is increase-only while the computed scale factor is below 1, or
    decrease-only while the computed scale factor is above 1: the step
    answers [true], the container is as it was, and the log only grows. *)
Theorem resize_is_noop (s : DkResizeBatch) (c : DkImageContainer)
    (logStrings : list LogLine) :
  Float32.eqb (mScaleFactor s) one = true
  ∨ (rMode s ≠ mode_default
     ∧ specPolicyForbids s (imageSize (image c)) = true) →
  ∃ lines,
    compute (resizeStep s) c logStrings =
      (true, c, (logStrings ++ lines)%list, []).
Proof.
  intros H. simpl.
  unfold DkAbstractBatch_compute3, DkAbstractBatch_compute2.
  destruct (DkResizeBatch_compute_noop s (image c) logStrings H)
    as [lines ->].
  rewrite setImage_image. eauto.
Qed.

(** The container which [DkBatchTransform::compute] leaves: the one it
    was given, cropped if the step crops from the meta data and the stored
    region is not empty.  The rotated and mirrored image is not in it. *)
Lemma DkBatchTransform_compute_container (t : DkBatchTransform)
    (c : DkImageContainer) (logStrings : list LogLine) :
  (DkBatchTransform_compute t c logStrings).1.2 =
    if mCropFromMetadata t && negb (rectIsEmpty (cropRect c))
    then cropImage c (cropRect c) else c.
Proof.
  unfold DkBatchTransform_compute, DkBatchTransform_isActive.
  destruct (mHorizontalFlip t), (mVerticalFlip t), (mAngle t =? 0),
    (mCropFromMetadata t), (rectIsEmpty (cropRect c)); cbn [negb andb orb];
    cbv zeta; first [done | by destruct (isNull _)].
Qed.

(** An active transform step fails exactly when the rotated and mirrored
    image is null. *)
Lemma DkBatchTransform_compute_verdict (t : DkBatchTransform)
    (c : DkImageContainer) (logStrings : list LogLine) :
  DkBatchTransform_isActive t = true →
  (DkBatchTransform_compute t c logStrings).1.1 =
    negb (isNull
            (transformImage t
               (image (if mCropFromMetadata t
                          && negb (rectIsEmpty (cropRect c))
                       then cropImage c (cropRect c) else c)))).
Proof.
  intros Hactive. unfold DkBatchTransform_compute. rewrite Hactive. simpl.
  destruct (mCropFromMetadata t), (rectIsEmpty (cropRect c)); simpl;
    by case_match.
Qed.

End StepTheorems.

(* ------------------------------------------------------------------ *)
(** * The item: file system, backup protocol, chain, compute *)

Section EngineTheorems.

Context {enums : DkEnums} {qt : QtCore} {lib : ImageLib}.

(** ** Numbers and files *)

(** Below [INT_MAX] the increment does not wrap. *)
Lemma incr32_small (z : Z) : 0 <= z < max_int → incr32 z = z + 1.
Proof.
  unfold incr32, wrap, max_int. intros H.
  rewrite Z.mod_small; lia.
Qed.

Lemma fileAt_Some (w : World) (path : string) (d : FileData) :
  fileAt w path = Some d
  ↔ path ≠ EmptyString ∧ files w !! path = Some d.
Proof.
  unfold fileAt. destruct (decide _) as [->|]; split; try easy.
Qed.

Lemma fileExists_true (w : World) (path : string) :
  fileExists w path = true ↔ ∃ d, fileAt w path = Some d.
Proof.
  unfold fileExists. destruct (fileAt w path); split; eauto; try easy.
  by intros [? ?].
Qed.

Lemma fileExists_false (w : World) (path : string) :
  fileExists w path = false ↔ fileAt w path = None.
Proof. unfold fileExists. by destruct (fileAt w path). Qed.

(** What a call leaves of the world. *)
Lemma fsCall_spec ev effect (w : World) :
  let '(ok, w') := fsCall ev effect w in
  faults w' = tail (faults w) ∧ uuids w' = uuids w
  ∧ trace w' = (trace w ++ [ev ok])%list
  ∧ (if ok then
       head (faults w) ≠ Some true ∧ effect w = Some (files w')
     else files w' = files w).
Proof.
  unfold fsCall. destruct (faults w) as [|[] ?]; simpl;
    try destruct (effect w); simpl; auto.
Qed.

Lemma createUuid_spec (w : World) :
  let '(u, w') := createUuid w in
  files w' = files w ∧ faults w' = faults w ∧ trace w' = trace w.
Proof. unfold createUuid. destruct (uuids w); simpl; auto. Qed.

(** [rename]: on success the file has moved to a path that was free. *)
Lemma QFile_rename_spec (src dst : string) (w : World) :
  let '(ok, w') := QFile_rename src dst w in
  trace w' = (trace w ++ [EvRename src dst ok])%list
  ∧ faults w' = tail (faults w) ∧ uuids w' = uuids w
  ∧ (if ok then
       ∃ d, fileAt w src = Some d ∧ dst ≠ EmptyString
            ∧ fileAt w dst = None
            ∧ files w' = <[dst := d]> (delete src (files w))
     else files w' = files w).
Proof.
  pose proof (fsCall_spec (EvRename src dst) (λ w,
    match fileAt w src with
    | Some d =>
        if decide (dst = EmptyString) then None
        else if fileExists w dst then None
        else Some (<[dst := d]> (delete src (files w)))
    | None => None
    end) w) as H.
  unfold QFile_rename. destruct (fsCall _ _ w) as [[] w']; [|tauto].
  destruct H as (? & ? & ? & _ & H). repeat split; auto.
  destruct (fileAt w src) as [d|]; [|done].
  destruct (decide (dst = EmptyString)); [done|].
  destruct (fileExists w dst) eqn:E; [done|].
  apply fileExists_false in E. exists d. by simplify_eq.
Qed.

(** [remove]: on success the file is gone. *)
Lemma QFile_remove_spec (path : string) (w : World) :
  let '(ok, w') := QFile_remove path w in
  trace w' = (trace w ++ [EvRemove path ok])%list
  ∧ faults w' = tail (faults w) ∧ uuids w' = uuids w
  ∧ (if ok then
       fileExists w path = true ∧ files w' = delete path (files w)
     else files w' = files w).
Proof.
  pose proof (fsCall_spec (EvRemove path) (λ w,
    match fileAt w path with
    | Some _ => Some (delete path (files w))
    | None => None
    end) w) as H.
  unfold QFile_remove. destruct (fsCall _ _ w) as [[] w']; [|tauto].
  destruct H as (? & ? & ? & _ & H). repeat split; auto.
  - unfold fileExists. by destruct (fileAt w path).
  - destruct (fileAt w path); by simplify_eq.
Qed.

(** [saveImage]: on success the encoded image is at the path; on failure
    the files are as before. *)
Lemma saveImage_spec (c : DkImageContainer) (path : string)
    (compression : Z) (w : World) :
  let '(ok, w') := saveImage c path compression w in
  trace w' = (trace w ++ [EvSave path (image c) compression ok])%list
  ∧ faults w' = tail (faults w) ∧ uuids w' = uuids w
  ∧ (if ok then
       path ≠ EmptyString
       ∧ files w' = <[path := encode (image c) path compression]> (files w)
     else files w' = files w).
Proof.
  pose proof (fsCall_spec (EvSave path (image c) compression) (λ w,
    if isNull (image c) then None
    else if decide (path = EmptyString) then None
    else Some (<[path := encode (image c) path compression]> (files w))) w)
    as H.
  unfold saveImage. destruct (fsCall _ _ w) as [[] w']; [|tauto].
  destruct H as (? & ? & ? & _ & H). repeat split; auto.
  - destruct (isNull (image c)); [done|]. by destruct (decide _).
  - destruct (isNull (image c)); [done|]. destruct (decide _); by simplify_eq.
Qed.

Lemma fileAt_files (w w' : World) (path : string) :
  files w' = files w → fileAt w' path = fileAt w path.
Proof. unfold fileAt. by intros ->. Qed.

Lemma fileExists_files (w w' : World) (path : string) :
  files w' = files w → fileExists w' path = fileExists w path.
Proof. unfold fileExists, fileAt. by intros ->. Qed.

(** A test between two member functions. *)
Lemma if_M {A : Type} (b : bool) (m1 m2 : M A) (s : DkBatchProcess * World) :
  (if b then m1 else m2) s = if b then m1 s else m2 s.
Proof. by destruct b. Qed.

(** ** The backup protocol *)

(** [prepareDeleteExisting], case by case: nothing to do; the backup
    name is taken; the output is renamed aside; the rename fails. *)
Lemma prepareDeleteExisting_spec (p : DkBatchProcess) (w : World) :
  let '(r, (p1, w1)) := prepareDeleteExisting (p, w) in
  let b := backupFilePath (mFilePathOut p) (createUuid w).1 in
  if fileExists w (mFilePathOut p) && (mMode p =? mode_overwrite) then
    if fileExists w b then
      r = false ∧ files w1 = files w ∧ trace w1 = trace w
      ∧ ∃ lines, p1 = withLog (mLogStrings p ++ lines)%list p
    else if r then
      p1 = withBackupFilePath b p
      ∧ trace w1 = (trace w ++ [EvRename (mFilePathOut p) b true])%list
      ∧ ∃ d, fileAt w (mFilePathOut p) = Some d ∧ b ≠ EmptyString
             ∧ files w1 = <[b := d]> (delete (mFilePathOut p) (files w))
    else
      files w1 = files w
      ∧ trace w1 = (trace w ++ [EvRename (mFilePathOut p) b false])%list
      ∧ ∃ lines, p1 = withLog (mLogStrings p ++ lines)%list p
  else r = true ∧ p1 = p ∧ w1 = w.
Proof.
  unfold prepareDeleteExisting. unfold_monad. rewrite if_M.
  destruct (fileExists w (mFilePathOut p) && (mMode p =? mode_overwrite));
    [|by unfold_monad]. unfold_monad.
  pose proof (createUuid_spec w) as Hu.
  destruct (createUuid w) as [uuid wu]. destruct Hu as (Hf & Hfa & Htr).
  cbn [fst]. set (b := backupFilePath _ _). rewrite if_M.
  rewrite (fileExists_files _ _ _ Hf).
  destruct (fileExists w b) eqn:Hb; unfold_monad.
  { unfold append. eauto. }
  pose proof (QFile_rename_spec (mFilePathOut p) b wu) as Hr.
  destruct (QFile_rename _ _ wu) as [ok w1]. rewrite if_M.
  destruct Hr as (Ht & _ & _ & Hr). rewrite Htr in Ht.
  destruct ok; unfold_monad.
  - destruct Hr as (d & Hd & Hne & _ & Hfs).
    rewrite (fileAt_files _ _ _ Hf) in Hd. rewrite Hf in Hfs. eauto 10.
  - rewrite Hr, Hf. unfold append, withLog. simpl.
    rewrite <- app_assoc. eauto.
Qed.

(** [deleteOrRestoreExisting], case by case: the backup is removed; the
    backup is renamed back; nothing to do. *)
Lemma deleteOrRestoreExisting_spec (p : DkBatchProcess) (w : World) :
  let '(r, (p', w')) := deleteOrRestoreExisting (p, w) in
  let b := mBackupFilePath p in
  let out := mFilePathOut p in
  if fileExists w out && negb (String.eqb b EmptyString) && fileExists w b
  then
    trace w' = (trace w ++ [EvRemove b r])%list
    ∧ (if r then files w' = delete b (files w) ∧ p' = p
       else files w' = files w
            ∧ p' = withLog (mLogStrings p ++
                     [Tr "Error: could not delete existing file" [];
                      ErrorString b])%list p)
  else if negb (fileExists w out) then
    trace w' = (trace w ++ [EvRename b out r])%list
    ∧ (if r then
         ∃ d, fileAt w b = Some d
              ∧ files w' = <[out := d]> (delete b (files w))
              ∧ p' = withLog (mLogStrings p ++ [restoredLine p])%list p
       else files w' = files w
            ∧ p' = withLog (mLogStrings p ++
                     [lastResortLine p; ErrorString b])%list p)
  else r = true ∧ p' = p ∧ w' = w.
Proof.
  unfold deleteOrRestoreExisting. unfold_monad. rewrite if_M.
  destruct (fileExists w (mFilePathOut p)) eqn:Hout; cbn [andb negb].
  - destruct (negb (String.eqb (mBackupFilePath p) EmptyString));
      cbn [andb]; [|done].
    destruct (fileExists w (mBackupFilePath p)) eqn:Hb; [|done].
    unfold_monad.
    pose proof (QFile_remove_spec (mBackupFilePath p) w) as Hr.
    destruct (QFile_remove _ w) as [ok w']. rewrite if_M.
    destruct Hr as (Ht & _ & _ & Hr).
    destruct ok; unfold_monad; unfold append, withLog; simpl;
      rewrite <- ?app_assoc; simpl; intuition.
  - unfold_monad.
    pose proof (QFile_rename_spec (mBackupFilePath p) (mFilePathOut p) w)
      as Hr.
    destruct (QFile_rename _ _ w) as [ok w']. rewrite if_M.
    destruct Hr as (Ht & _ & _ & Hr).
    destruct ok; unfold_monad; unfold append, restoredLine, lastResortLine,
      withLog; simpl; rewrite <- ?app_assoc; simpl.
    + destruct Hr as (d & ? & ? & ? & ?). eauto 10.
    + auto.
Qed.




(** ** The chain *)

Lemma sameSetup_refl p : sameSetup p p.
Proof. by repeat split. Qed.

Lemma sameSetup_trans p p' p'' :
  sameSetup p p' → sameSetup p' p'' → sameSetup p p''.
Proof. unfold sameSetup. intuition congruence. Qed.

(** One turn of the loop on a step. *)
Lemma runChain_cons_Some batch chain imgC p w :
  runChain (Some batch :: chain) imgC (p, w) =
    let '(imgC', p') := afterStep batch imgC p in
    runChain chain imgC' (p', w).
Proof.
  cbn [runChain]. unfold afterStep. unfold_monad.
  destruct (compute batch imgC (mLogStrings p)) as [[[isOk imgC'] l] cInfos].
  unfold_monad. rewrite if_M. by destruct isOk.
Qed.

(** One turn of the loop on a null entry. *)
Lemma runChain_cons_None chain imgC p w :
  runChain (None :: chain) imgC (p, w) =
    runChain chain imgC (withLog (mLogStrings p ++ [nullLine])%list p, w).
Proof. done. Qed.

(** The loop makes no call into the file system and leaves the setup and
    the backup path of the item alone. *)
Lemma runChain_frame chain :
  ∀ imgC p w,
  let '(imgC', (p', w')) := runChain chain imgC (p, w) in
  w' = w ∧ sameSetup p p' ∧ mBackupFilePath p' = mBackupFilePath p
  ∧ mIsProcessed p' = mIsProcessed p.
Proof.
  induction chain as [|[batch|] chain IH]; intros imgC p w.
  - cbn. auto using sameSetup_refl.
  - rewrite runChain_cons_Some.
    destruct (afterStep batch imgC p) as [imgC1 p1] eqn:E.
    specialize (IH imgC1 p1 w).
    destruct (runChain chain imgC1 (p1, w)) as [imgC' [p' w']].
    assert (H : sameSetup p p1 ∧ mBackupFilePath p1 = mBackupFilePath p
                ∧ mIsProcessed p1 = mIsProcessed p).
    { unfold afterStep in E.
      destruct (compute batch imgC (mLogStrings p)) as [[[[] ?] ?] ?];
        simplify_eq; by repeat split. }
    destruct IH as (-> & Hs & Hb & Hp), H as (Hs1 & Hb1 & Hp1).
    split; [done|]. split; [by eapply sameSetup_trans|].
    split; congruence.
  - rewrite runChain_cons_None.
    specialize (IH imgC (withLog (mLogStrings p ++ [nullLine])%list p) w).
    destruct (runChain chain imgC _) as [imgC' [p' w']].
    destruct IH as (-> & Hs & Hb & Hp).
    split; [done|]. split; [|by split].
    eapply sameSetup_trans; [|done]. by repeat split.
Qed.

(** The loop over a chain in two parts. *)
Lemma runChain_app pre post :
  ∀ imgC s,
  runChain (pre ++ post) imgC s =
    let '(imgC1, s1) := runChain pre imgC s in runChain post imgC1 s1.
Proof.
  induction pre as [|[batch|] pre IH]; intros imgC [p w].
  - done.
  - cbn [app]. rewrite !runChain_cons_Some.
    destruct (afterStep batch imgC p). apply IH.
  - cbn [app]. rewrite !runChain_cons_None. apply IH.
Qed.

(** A chain of null entries only adds its lines to the log. *)
Lemma runChain_nulls (n : nat) :
  ∀ imgC p w,
  runChain (replicate n None) imgC (p, w) =
    (imgC, (withLog (mLogStrings p ++ replicate n nullLine)%list p, w)).
Proof.
  induction n as [|n IH]; intros imgC p w.
  - cbn. rewrite app_nil_r. by destruct p.
  - cbn [replicate]. rewrite runChain_cons_None, IH. simpl.
    by rewrite <- app_assoc.
Qed.

(** ** process *)

(** [loadImage] changes no file. *)
Lemma loadImage_spec (path : string) (w : World) :
  let '(loaded, w') := loadImage path w in
  files w' = files w
  ∧ trace w' =
      (trace w
       ++ [EvLoad path
             match loaded with Some _ => true | None => false end])%list.
Proof.
  unfold loadImage.
  pose proof (fsCall_spec (EvLoad path) (λ w,
    match fileAt w path with
    | Some _ => Some (files w)
    | None => None
    end) w) as H.
  destruct (fsCall _ _ w) as [ok w'].
  destruct H as (_ & _ & Ht & H).
  destruct (fileAt w path) as [d|] eqn:Hd; destruct ok; cbn.
  - destruct H as [_ H]. by simplify_eq.
  - done.
  - by destruct H.
  - done.
Qed.

(** [process] on an image that loads: the chain, then the save. *)
Lemma process_loaded (p : DkBatchProcess) (w w1 : World)
    (imgC : DkImageContainer) :
  loadImage (mFilePathIn p) w = (Some imgC, w1) →
  isNull (image imgC) = false →
  process (p, w) =
    let '(imgF, s1) :=
      runChain (mProcessFunctions p) imgC
        (withLog (mLogStrings p ++ [processingLine p])%list p, w1) in
    process_save imgF s1.
Proof.
  intros Hload Hnull. unfold process. unfold_monad.
  cbn [mFilePathIn withLog]. rewrite Hload. unfold_monad.
  by rewrite Hnull.
Qed.

(** After the chain: the save is attempted unless the backup could not be
    prepared. *)
Lemma process_save_attempt (imgF : DkImageContainer) (p : DkBatchProcess)
    (w : World) :
  let '(prepared, (p2, w2)) := prepareDeleteExisting (p, w) in
  let '(r, (p', w')) := process_save imgF (p, w) in
  if prepared then
    ∃ saved evs,
      trace w' =
        (trace w2
         ++ EvSave (mFilePathOut p) (image imgF) (mCompression p) saved
            :: evs)%list
  else
    r = false ∧ w' = w2 ∧ p' = withFailure (incr32 (mFailure p2)) p2.
Proof.
  unfold process_save. unfold_monad.
  destruct (prepareDeleteExisting (p, w)) as [prepared [p2 w2]].
  rewrite if_M. destruct prepared; unfold_monad; [|done].
  pose proof (saveImage_spec imgF (mFilePathOut p) (mCompression p) w2) as H2.
  destruct (saveImage imgF _ _ w2) as [saved w3].
  destruct H2 as (Ht2 & _). rewrite if_M.
  destruct saved; unfold_monad.
  all: match goal with
       | |- context [deleteOrRestoreExisting (?q, ?v)] =>
           pose proof (deleteOrRestoreExisting_spec q v) as H3;
           destruct (deleteOrRestoreExisting (q, v)) as [r [p' w']]
       end.
  all: rewrite if_M; cbv zeta in H3.
  all: assert (∃ evs, trace w' = (trace w3 ++ evs)%list) as [evs Hevs];
    [ repeat case_match; destruct_and?; simplify_eq;
      eauto using app_nil_r
    | destruct r; unfold_monad; eexists _, evs;
      by rewrite Hevs, Ht2, <- app_assoc ].
Qed.

(** [prepareDeleteExisting] counts no failure and only renames. *)
Lemma prepareDeleteExisting_frame (p : DkBatchProcess) (w : World) :
  let '(r, (p1, w1)) := prepareDeleteExisting (p, w) in
  sameSetup p p1 ∧ mFailure p1 = mFailure p
  ∧ ∃ evs, trace w1 = (trace w ++ evs)%list
           ∧ ∀ ev, In ev evs → ∃ src dst ok, ev = EvRename src dst ok.
Proof.
  pose proof (prepareDeleteExisting_spec p w) as H.
  destruct (prepareDeleteExisting (p, w)) as [r [p1 w1]]. cbv zeta in H.
  destruct (_ && _).
  - destruct (fileExists w _).
    + destruct H as (_ & _ & Ht & lines & ->).
      split; [by repeat split|]. split; [done|].
      exists []. rewrite app_nil_r. split; [done|]. by intros ? [].
    + destruct r.
      * destruct H as (-> & Ht & _).
        split; [by repeat split|]. split; [done|].
        eexists [_]. split; [done|]. intros ev [<-|[]]. eauto.
      * destruct H as (_ & Ht & lines & ->).
        split; [by repeat split|]. split; [done|].
        eexists [_]. split; [done|]. intros ev [<-|[]]. eauto.
  - destruct H as (_ & -> & ->).
    split; [by repeat split|]. split; [done|].
    exists []. rewrite app_nil_r. split; [done|]. by intros ? [].
Qed.

(** ** The chain never aborts *)

(** Claim C5, amended: on an image that loads, every step of the chain
    is invoked, in order, on the container which the steps before it
    left, whether they failed or not; a step that fails adds one to the
    failure counter and the steps after it still run.  After the whole
    chain the save of the container is attempted with the output path and
    the compression of the item, unless [prepareDeleteExisting] fails:
    then [process] counts one more failure and returns without a save. *)
Theorem process_runs_whole_chain (p : DkBatchProcess) (w w1 : World)
    (imgC : DkImageContainer) :
  loadImage (mFilePathIn p) w = (Some imgC, w1) →
  isNull (image imgC) = false →
  let p0 := withLog (mLogStrings p ++ [processingLine p])%list p in
  (∀ pre batch post,
     mProcessFunctions p = (pre ++ Some batch :: post)%list →
     let '(imgC1, (p1, _)) := runChain pre imgC (p0, w1) in
     let '(isOk, imgC2, _, _) := compute batch imgC1 (mLogStrings p1) in
     ∃ p2,
       runChain (mProcessFunctions p) imgC (p0, w1) =
         runChain post imgC2 (p2, w1)
       ∧ mFailure p2 = if isOk then mFailure p1 else incr32 (mFailure p1))
  ∧ (let '(imgF, s1) := runChain (mProcessFunctions p) imgC (p0, w1) in
     let '(prepared, (p2, w2)) := prepareDeleteExisting s1 in
     let '(r, (p', w')) := process (p, w) in
     if prepared then
       ∃ saved,
         In (EvSave (mFilePathOut p) (image imgF) (mCompression p) saved)
            (trace w')
     else
       r = false ∧ w' = w2 ∧ mFailure p' = incr32 (mFailure p2)
       ∧ ∀ path img k ok,
           In (EvSave path img k ok) (trace w') →
           In (EvSave path img k ok) (trace w)).
Proof.
  intros Hload Hnull p0. split.
  - intros pre batch post ->. rewrite runChain_app.
    pose proof (runChain_frame pre imgC p0 w1) as Hf.
    destruct (runChain pre imgC (p0, w1)) as [imgC1 [p1 w1']].
    destruct Hf as (-> & _).
    rewrite runChain_cons_Some. unfold afterStep.
    destruct (compute batch imgC1 (mLogStrings p1))
      as [[[isOk imgC2] logStrings] cInfos].
    eexists. split; [done|]. by destruct isOk.
  - rewrite (process_loaded p w w1 imgC Hload Hnull). fold p0.
    pose proof (runChain_frame (mProcessFunctions p) imgC p0 w1) as Hf.
    destruct (runChain _ imgC (p0, w1)) as [imgF [p1 w1']].
    destruct Hf as (-> & (_ & Hout & _ & _ & Hk & _) & _).
    pose proof (process_save_attempt imgF p1 w1) as Hs.
    pose proof (prepareDeleteExisting_frame p1 w1) as Hp.
    destruct (prepareDeleteExisting (p1, w1)) as [prepared [p2 w2]].
    destruct (process_save imgF (p1, w1)) as [r [p' w']].
    destruct prepared.
    + destruct Hs as (saved & evs & Ht). exists saved.
      rewrite Ht, Hout, Hk. cbn. apply in_app_iff. right. by left.
    + destruct Hs as (-> & -> & ->). split; [done|]. split; [done|].
      split; [done|].
      destruct Hp as (_ & _ & evs & Ht & Hev).
      pose proof (loadImage_spec (mFilePathIn p) w) as Hl.
      rewrite Hload in Hl. destruct Hl as [_ Hl].
      intros path img k ok Hin. rewrite Ht, Hl in Hin.
      apply in_app_iff in Hin as [Hin|Hin].
      * apply in_app_iff in Hin as [|[|[]]]; [done|done].
      * by destruct (Hev _ Hin) as (? & ? & ? & ?).
Qed.

(** Claim C10, amended: a null entry of the chain is logged and skipped:
    the steps after it run on the container and with the failure counter
    which the steps before it left.  With a chain of null entries only, on
    an image that loads, [process] is the end of [process] on the loaded
    container and on a failure counter which the chain has not touched:
    the save is attempted unless [prepareDeleteExisting] fails, in which
    case [process] returns with one failure more than it started with. *)
Theorem null_steps_are_skipped :
  (∀ pre post imgC s,
     let '(imgC1, (p1, w1)) := runChain pre imgC s in
     runChain (pre ++ None :: post) imgC s =
       runChain post imgC1
         (withLog (mLogStrings p1 ++ [nullLine])%list p1, w1))
  ∧ (∀ (p : DkBatchProcess) (w w1 : World) (imgC : DkImageContainer)
       (n : nat),
       mProcessFunctions p = replicate n None →
       loadImage (mFilePathIn p) w = (Some imgC, w1) →
       isNull (image imgC) = false →
       let pN :=
         withLog (mLogStrings p
                  ++ processingLine p :: replicate n nullLine)%list p in
       process (p, w) = process_save imgC (pN, w1)
       ∧ mFailure pN = mFailure p
       ∧ let '(prepared, (p2, w2)) := prepareDeleteExisting (pN, w1) in
         let '(r, (p', w')) := process (p, w) in
         if prepared then
           ∃ saved,
             In (EvSave (mFilePathOut p) (image imgC) (mCompression p) saved)
                (trace w')
         else
           r = false ∧ w' = w2 ∧ mFailure p' = incr32 (mFailure p)).
Proof.
  split.
  - intros pre post imgC s. rewrite runChain_app.
    destruct (runChain pre imgC s) as [imgC1 [p1 w1]].
    by rewrite runChain_cons_None.
  - intros p w w1 imgC n Hchain Hload Hnull pN.
    assert (E : process (p, w) = process_save imgC (pN, w1)).
    { rewrite (process_loaded p w w1 imgC Hload Hnull), Hchain.
      rewrite runChain_nulls. subst pN. simpl.
      by rewrite <- app_assoc. }
    split; [done|]. split; [done|]. rewrite E.
    pose proof (process_save_attempt imgC pN w1) as Hs.
    pose proof (prepareDeleteExisting_frame pN w1) as Hp.
    destruct (prepareDeleteExisting (pN, w1)) as [prepared [p2 w2]].
    destruct (process_save imgC (pN, w1)) as [r [p' w']].
    destruct prepared.
    + destruct Hs as (saved & evs & Ht). exists saved.
      rewrite Ht. cbn. apply in_app_iff. right. by left.
    + destruct Hs as (-> & -> & ->). destruct Hp as (_ & Hf & _).
      split; [done|]. split; [done|]. cbn. by rewrite Hf.
Qed.

(** ** Which files are removed *)

Lemma calls_trans w w1 w2 evs1 evs2 :
  calls w w1 evs1 → calls w1 w2 evs2 → calls w w2 (evs1 ++ evs2).
Proof. unfold calls. intros H1 H2. by rewrite H2, H1, app_assoc. Qed.

Lemma removesOnly_app P evs1 evs2 :
  removesOnly P evs1 → removesOnly P evs2 → removesOnly P (evs1 ++ evs2).
Proof.
  intros H1 H2 path ok Hin. apply in_app_iff in Hin as [|]; eauto.
Qed.

Lemma removesOnly_nil P : removesOnly P [].
Proof. by intros ? ? []. Qed.

Lemma removesOnly_mono (P Q : string → Prop) evs :
  (∀ path, P path → Q path) → removesOnly P evs → removesOnly Q evs.
Proof. intros H H1 path ok Hin. eauto. Qed.

(** [deleteOrRestoreExisting] removes at most the backup, and only if the
    item has one. *)
Lemma deleteOrRestoreExisting_removes (p : DkBatchProcess) (w : World) :
  let '(r, (p', w')) := deleteOrRestoreExisting (p, w) in
  sameSetup p p' ∧ mFailure p' = mFailure p
  ∧ mBackupFilePath p' = mBackupFilePath p
  ∧ ∃ evs, calls w w' evs
      ∧ removesOnly
          (λ path, path = mBackupFilePath p ∧ path ≠ EmptyString) evs.
Proof.
  pose proof (deleteOrRestoreExisting_spec p w) as H.
  destruct (deleteOrRestoreExisting (p, w)) as [r [p' w']]. cbv zeta in H.
  destruct (fileExists w (mFilePathOut p)); cbn [andb negb] in H.
  - destruct (String.eqb (mBackupFilePath p) EmptyString) eqn:E;
      cbn [andb negb] in H.
    + destruct H as (_ & -> & ->). split; [apply sameSetup_refl|].
      split; [done|]. split; [done|]. exists [].
      split; [unfold calls; by rewrite app_nil_r|apply removesOnly_nil].
    + apply String.eqb_neq in E.
      destruct (fileExists w (mBackupFilePath p)).
      * destruct H as [Ht H].
        assert (sameSetup p p' ∧ mFailure p' = mFailure p
                ∧ mBackupFilePath p' = mBackupFilePath p) as (? & ? & ?).
        { destruct r; destruct H as [_ ->]; by repeat split. }
        split; [done|]. split; [done|]. split; [done|].
        eexists [_]. split; [done|].
        intros path ok [Hin|[]]. by simplify_eq.
      * destruct H as (_ & -> & ->). split; [apply sameSetup_refl|].
        split; [done|]. split; [done|]. exists [].
        split; [unfold calls; by rewrite app_nil_r|apply removesOnly_nil].
  - destruct H as [Ht H].
    assert (sameSetup p p' ∧ mFailure p' = mFailure p
            ∧ mBackupFilePath p' = mBackupFilePath p) as (? & ? & ?).
    { destruct r; [destruct H as (? & _ & _ & ->)|destruct H as [_ ->]];
        by repeat split. }
    split; [done|]. split; [done|]. split; [done|].
    eexists [_]. split; [done|]. by intros path ok [Hin|[]].
Qed.

(** A backup path which [prepareDeleteExisting] assigns was free. *)
Lemma prepareDeleteExisting_backup (p : DkBatchProcess) (w : World) :
  let '(r, (p1, w1)) := prepareDeleteExisting (p, w) in
  mBackupFilePath p1 = mBackupFilePath p
  ∨ fileExists w (mBackupFilePath p1) = false.
Proof.
  pose proof (prepareDeleteExisting_spec p w) as H.
  destruct (prepareDeleteExisting (p, w)) as [r [p1 w1]]. cbv zeta in H.
  destruct (_ && _).
  - destruct (fileExists w _) eqn:E.
    + destruct H as (_ & _ & _ & lines & ->). by left.
    + destruct r.
      * destruct H as (-> & _). by right.
      * destruct H as (_ & _ & lines & ->). by left.
  - destruct H as (_ & -> & _). by left.
Qed.

Lemma saveImage_calls (c : DkImageContainer) path k (w : World) :
  let '(ok, w') := saveImage c path k w in
  calls w w' [EvSave path (image c) k ok].
Proof.
  pose proof (saveImage_spec c path k w) as H.
  destruct (saveImage c path k w) as [ok w']. by destruct H.
Qed.

(** The end of [process] on an item without backup removes only at
    paths that were free when it started. *)
Lemma process_save_removes (imgF : DkImageContainer) (p : DkBatchProcess)
    (w : World) :
  mBackupFilePath p = EmptyString →
  let '(r, (p', w')) := process_save imgF (p, w) in
  ∃ evs, calls w w' evs
    ∧ removesOnly (λ path, fileExists w path = false) evs.
Proof.
  intros Hb. unfold process_save. unfold_monad.
  pose proof (prepareDeleteExisting_frame p w) as Hf.
  pose proof (prepareDeleteExisting_backup p w) as Hbu.
  destruct (prepareDeleteExisting (p, w)) as [prepared [p1 w1]].
  destruct Hf as (_ & _ & evs1 & Ht1 & Hev1).
  assert (R1 : removesOnly (λ path, fileExists w path = false) evs1).
  { intros path ok Hin. by destruct (Hev1 _ Hin) as (? & ? & ? & ?). }
  rewrite if_M. destruct prepared; unfold_monad; [|eauto].
  pose proof (saveImage_calls imgF (mFilePathOut p) (mCompression p) w1)
    as Ht2.
  destruct (saveImage imgF _ _ w1) as [saved w2]. rewrite if_M.
  destruct saved; unfold_monad.
  all: match goal with
       | |- context [deleteOrRestoreExisting (?q, ?v)] =>
           pose proof (deleteOrRestoreExisting_removes q v) as H3;
           destruct (deleteOrRestoreExisting (q, v)) as [r [p' w']]
       end.
  all: destruct H3 as (_ & _ & _ & evs3 & Ht3 & R3); cbn in R3.
  all: rewrite if_M; destruct r; unfold_monad.
  all: eexists; split;
    [eapply calls_trans; [exact Ht1|eapply calls_trans; [exact Ht2|exact Ht3]]
    |].
  all: apply removesOnly_app; [done|].
  all: apply removesOnly_app; [by intros ? ? [|[]]|].
  all: eapply removesOnly_mono; [|done].
  all: intros path [-> Hne]; destruct Hbu as [Hbu|Hbu]; [|done].
  all: by rewrite Hbu, Hb in Hne.
Qed.

Lemma calls_refl (w : World) : calls w w [].
Proof. unfold calls. by rewrite app_nil_r. Qed.

(** [process] does not remove the input file. *)
Lemma process_removes (p : DkBatchProcess) (w : World) :
  fileExists w (mFilePathIn p) = true →
  mBackupFilePath p = EmptyString →
  let '(r, (p', w')) := process (p, w) in
  ∃ evs, calls w w' evs ∧ removesOnly (λ path, path ≠ mFilePathIn p) evs.
Proof.
  intros Hin Hb. unfold process. unfold_monad. cbn [mFilePathIn withLog].
  pose proof (loadImage_spec (mFilePathIn p) w) as Hl.
  destruct (loadImage (mFilePathIn p) w) as [[imgC|] w1];
    destruct Hl as [Hf Hl]; unfold_monad.
  2: { eexists [_]. split; [done|]. by intros ? ? [|[]]. }
  rewrite if_M. destruct (isNull (image imgC)); unfold_monad.
  { eexists [_]. split; [done|]. by intros ? ? [|[]]. }
  set (p0 := withLog _ p).
  pose proof (runChain_frame (mProcessFunctions p0) imgC p0 w1) as Hc.
  change (mProcessFunctions p) with (mProcessFunctions p0).
  destruct (runChain _ imgC (p0, w1)) as [imgF [p1 w1']].
  destruct Hc as (-> & _ & Hb1 & _).
  pose proof (process_save_removes imgF p1 w1) as Hs.
  destruct (process_save imgF (p1, w1)) as [r [p' w']].
  destruct Hs as (evs & Ht & R); [by rewrite Hb1|].
  eexists. split; [eapply calls_trans; [exact Hl|exact Ht]|].
  apply removesOnly_app; [by intros ? ? [|[]]|].
  eapply removesOnly_mono; [|done].
  intros path Hp ->. rewrite (fileExists_files _ _ _ Hf) in Hp. congruence.
Qed.

Lemma QFile_copy_calls (src dst : string) (w : World) :
  let '(ok, w') := QFile_copy src dst w in calls w w' [EvCopy src dst ok].
Proof.
  unfold QFile_copy.
  match goal with
  | |- context [fsCall ?ev ?eff w] =>
      pose proof (fsCall_spec ev eff w) as H;
      destruct (fsCall ev eff w) as [ok w']
  end.
  by destruct H as (_ & _ & H & _).
Qed.

(** [copyFile] on an item without backup removes nothing and counts no
    failure. *)
Lemma copyFile_removes (p : DkBatchProcess) (w : World) :
  mBackupFilePath p = EmptyString →
  let '(r, (p', w')) := copyFile (p, w) in
  sameSetup p p' ∧ mFailure p' = mFailure p
  ∧ ∃ evs, calls w w' evs ∧ removesOnly (λ _, False) evs.
Proof.
  intros Hb. unfold copyFile. unfold_monad. rewrite if_M.
  assert (H1 :
    let '(cleared, (p1, w1)) :=
      (if fileExists w (mFilePathOut p) && (mMode p =? mode_overwrite)
       then deleteOrRestoreExisting (p, w) else (true, (p, w))) in
    sameSetup p p1 ∧ mFailure p1 = mFailure p
    ∧ ∃ evs, calls w w1 evs ∧ removesOnly (λ _, False) evs).
  { destruct (_ && _).
    - pose proof (deleteOrRestoreExisting_removes p w) as H.
      destruct (deleteOrRestoreExisting (p, w)) as [r [p1 w1]].
      destruct H as (? & ? & _ & evs & ? & R).
      split; [done|]. split; [done|]. exists evs. split; [done|].
      eapply removesOnly_mono; [|done]. intros path [-> ?]. by rewrite Hb in *.
    - split; [apply sameSetup_refl|]. split; [done|].
      exists []. split; [apply calls_refl|apply removesOnly_nil]. }
  destruct (if _ && _ then _ else _) as [cleared [p1 w1]].
  destruct H1 as (Hs1 & Hf1 & evs1 & Ht1 & R1).
  rewrite if_M. destruct cleared; unfold_monad; [|eauto 10].
  pose proof (QFile_copy_calls (mFilePathIn p) (mFilePathOut p) w1) as Hc.
  destruct (QFile_copy _ _ w1) as [copied w2]. rewrite if_M.
  destruct copied; unfold_monad.
  all: split; [eapply sameSetup_trans; [done|by repeat split]|].
  all: split; [done|].
  all: eexists; split; [eapply calls_trans; [exact Ht1|exact Hc]|].
  all: apply removesOnly_app; [done|]; by intros ? ? [|[]].
Qed.

(** [deleteOriginalFile] makes one call at most: the removal of the
    input file. *)
Lemma deleteOriginalFile_spec (p : DkBatchProcess) (w : World) :
  let '(r, (p', w')) := deleteOriginalFile (p, w) in
  if String.eqb (mFilePathIn p) (mFilePathOut p) then w' = w
  else if (mFailure p =? 0) && mDeleteOriginal p then
    ∃ ok, calls w w' [EvRemove (mFilePathIn p) ok]
  else w' = w.
Proof.
  unfold deleteOriginalFile. unfold_monad. rewrite if_M.
  destruct (String.eqb _ _); unfold_monad; [done|].
  rewrite if_M. destruct (_ && _); unfold_monad.
  - pose proof (QFile_remove_spec (mFilePathIn p) w) as H.
    destruct (QFile_remove _ w) as [ok w']. rewrite if_M.
    destruct H as (H & _). destruct ok; unfold_monad; eauto.
  - rewrite if_M. by destruct (negb _); unfold_monad.
Qed.

(** Claim C9: [deleteOriginalFile] touches the file system only if the
    delete-original flag is set, the input path differs from the output
    path and the failure counter is zero when it is called; after a
    recorded failure it leaves the world as it is.  And [compute], on an
    item that has no backup yet, asks for the removal of the input file
    only under the same three conditions, the counter being the one
    compute() started with: no failure is counted between the start and
    the removal. *)
Theorem original_deleted_only_on_request (p : DkBatchProcess) (w : World) :
  (let '(_, (_, w')) := deleteOriginalFile (p, w) in
   (w' ≠ w →
      mDeleteOriginal p = true ∧ mFilePathIn p ≠ mFilePathOut p
      ∧ mFailure p = 0)
   ∧ (mFailure p ≠ 0 → w' = w))
  ∧ (mBackupFilePath p = EmptyString →
     let '(_, (_, w')) := DkBatchProcess_compute (p, w) in
     ∀ ok,
       In (EvRemove (mFilePathIn p) ok) (trace w') →
       In (EvRemove (mFilePathIn p) ok) (trace w)
       ∨ (mDeleteOriginal p = true ∧ mFilePathIn p ≠ mFilePathOut p
          ∧ mFailure p = 0)).
Proof.
  split.
  - pose proof (deleteOriginalFile_spec p w) as H.
    destruct (deleteOriginalFile (p, w)) as [r [p' w']].
    destruct (String.eqb _ _) eqn:E; [by split|].
    apply String.eqb_neq in E.
    destruct (mFailure p =? 0) eqn:Ef; cbn [andb] in H.
    + apply Z.eqb_eq in Ef. destruct (mDeleteOriginal p); by split.
    + split; [done|]. by intros _.
  - intros Hb. unfold DkBatchProcess_compute. unfold_monad.
    set (q := withIsProcessed true p).
    change (mFilePathIn p) with (mFilePathIn q).
    change (mFilePathOut p) with (mFilePathOut q).
    change (mMode p) with (mMode q).
    change (mDeleteOriginal p) with (mDeleteOriginal q).
    change (mFailure p) with (mFailure q).
    assert (Hbq : mBackupFilePath q = EmptyString) by done.
    clearbody q. clear p Hb.
    rewrite if_M.
    destruct (fileExists w (mFilePathOut q) && _); unfold_monad; [auto|].
    rewrite if_M.
    destruct (fileExists w (mFilePathIn q)) eqn:Hin; unfold_monad; [|auto].
    rewrite if_M.
    destruct (String.eqb (mFilePathIn q) (mFilePathOut q)) eqn:Hio;
      destruct (chainEmpty q) eqn:Hchain; unfold_monad; cbn [andb].
    + auto.
    + (* in place, with steps *)
      pose proof (process_removes q w Hin Hbq) as H.
      destruct (process (q, w)) as [r [p' w']]. unfold_monad.
      destruct H as (evs & Ht & R). intros ok Hok. left.
      rewrite Ht in Hok. apply in_app_iff in Hok as [|Hok]; [done|].
      by destruct (R _ _ Hok).
    + (* no steps *)
      rewrite if_M.
      destruct (String.eqb (suffix _) (suffix _)); unfold_monad.
      * pose proof (copyFile_removes q w Hbq) as H.
        destruct (copyFile (q, w)) as [copied [p1 w1]].
        destruct H as (Hs & Hf & evs & Ht & R).
        rewrite if_M. destruct copied; unfold_monad.
        -- pose proof (deleteOriginalFile_spec p1 w1) as Hd.
           destruct (deleteOriginalFile (p1, w1)) as [r [p2 w2]].
           unfold_monad.
           destruct Hs as (Hi & Ho & _ & Hdel & _).
           rewrite Hi, Ho, Hio, Hf, Hdel in Hd.
           intros ok Hok.
           assert (In (EvRemove (mFilePathIn q) ok) (trace w1)
                   → In (EvRemove (mFilePathIn q) ok) (trace w)) as Hw1.
           { rewrite Ht. intros [|Hx]%in_app_iff; [done|].
             by destruct (R _ _ Hx). }
           destruct (mFailure q =? 0) eqn:Ef; cbn [andb] in Hd.
           ++ destruct (mDeleteOriginal q); [|subst; auto].
              right. apply Z.eqb_eq in Ef. apply String.eqb_neq in Hio.
              done.
           ++ subst. auto.
        -- intros ok Hok. left. rewrite Ht in Hok.
           apply in_app_iff in Hok as [|Hok]; [done|].
           by destruct (R _ _ Hok).
      * pose proof (process_removes q w Hin Hbq) as H.
        destruct (process (q, w)) as [r [p' w']]. unfold_monad.
        destruct H as (evs & Ht & R). intros ok Hok. left.
        rewrite Ht in Hok. apply in_app_iff in Hok as [|Hok]; [done|].
        by destruct (R _ _ Hok).
    + pose proof (process_removes q w Hin Hbq) as H.
      destruct (process (q, w)) as [r [p' w']]. unfold_monad.
      destruct H as (evs & Ht & R). intros ok Hok. left.
      rewrite Ht in Hok. apply in_app_iff in Hok as [|Hok]; [done|].
      by destruct (R _ _ Hok).
Qed.

(** ** compute *)

(** Claim C1: if the output file exists and the mode is skip-existing,
    compute() appends one line to the log, adds one to the failure
    counter and returns [false] with the world as it was: no call into
    the file system is made and no file changes, the output included.
    Afterwards hasFailed() and wasProcessed() are true. *)
Theorem compute_skips_existing (p : DkBatchProcess) (w : World) :
  fileExists w (mFilePathOut p) = true →
  mMode p = mode_skip_existing →
  0 <= mFailure p < max_int →
  ∃ p',
    DkBatchProcess_compute (p, w) = (false, (p', w))
    ∧ mLogStrings p' = (mLogStrings p ++ [skippedLine p])%list
    ∧ mFailure p' = mFailure p + 1
    ∧ hasFailed p' = true
    ∧ wasProcessed p' = true.
Proof.
  intros Hout Hmode Hf.
  unfold DkBatchProcess_compute. unfold_monad.
  cbn [mFilePathIn mFilePathOut mMode withIsProcessed].
  rewrite Hout, Hmode, Z.eqb_refl. unfold_monad.
  cbn [mFailure withFailure withLog withIsProcessed].
  rewrite (incr32_small _ Hf).
  eexists. split.
  - f_equal. apply Z.eqb_neq. lia.
  - unfold hasFailed, wasProcessed. cbn. repeat split.
    apply negb_true_iff, Z.eqb_neq. lia.
Qed.

Lemma returnNoFailure_ok : ReturnsNoFailure returnNoFailure.
Proof.
  intros [p w]. unfold hasFailed. unfold_monad.
  by rewrite negb_involutive.
Qed.

Lemma bind_ok {A : Type} (m : M A) (k : A → M bool) :
  (∀ a, ReturnsNoFailure (k a)) → ReturnsNoFailure (bind m k).
Proof. intros H s. unfold bind. destruct (m s) as [a s']. apply H. Qed.

Lemma if_ok (b : bool) (m1 m2 : M bool) :
  ReturnsNoFailure m1 → ReturnsNoFailure m2 →
  ReturnsNoFailure (if b then m1 else m2).
Proof. by destruct b. Qed.

(** Claim C8: whatever the item and the world, the boolean which
    compute() returns is the negation of hasFailed() on the item as
    compute() leaves it. *)
Theorem compute_returns_no_failure (p : DkBatchProcess) (w : World) :
  let '(r, (p', _)) := DkBatchProcess_compute (p, w) in
  r = negb (hasFailed p').
Proof.
  assert (H : ReturnsNoFailure DkBatchProcess_compute).
  { unfold DkBatchProcess_compute.
    repeat first
      [ apply returnNoFailure_ok
      | apply if_ok
      | apply bind_ok; intros ? ]. }
  specialize (H (p, w)).
  destruct (DkBatchProcess_compute (p, w)) as [r [p' w']]. exact H.
Qed.

(** Claim C4, amended: for every item with input == output and no steps
    configured, compute() is a no-op that adds one to the failure counter
    and stops, whatever the extensions, the mode and the files: the world
    is as it was, so no rename is attempted. *)
Theorem compute_same_path_no_steps (p : DkBatchProcess) (w : World) :
  mFilePathIn p = mFilePathOut p →
  mProcessFunctions p = [] →
  let '(r, (p', w')) := DkBatchProcess_compute (p, w) in
  w' = w
  ∧ mFailure p' = incr32 (mFailure p)
  ∧ r = negb (hasFailed p')
  ∧ wasProcessed p' = true.
Proof.
  intros Hio Hchain.
  unfold DkBatchProcess_compute, chainEmpty, hasFailed. unfold_monad.
  cbn [mFilePathIn mFilePathOut mMode mProcessFunctions withIsProcessed].
  rewrite Hio, Hchain, String.eqb_refl.
  destruct (fileExists w (mFilePathOut p)) eqn:Hout; cbn [andb negb].
  - destruct (mMode p =? mode_skip_existing); unfold_monad;
      rewrite negb_involutive; auto.
  - unfold_monad. rewrite negb_involutive; auto.
Qed.

End EngineTheorems.

(* ------------------------------------------------------------------ *)
(** * Polling the results *)

Section PollingTheorems.

Context {enums : DkEnums} {qt : QtCore} {lib : ImageLib}.

(** The loop of [getCurrentResults], from index [idx] on: the entries
    before [idx] stay, the others are updated from their items. *)
Lemma getCurrentResults_loop_spec (n : nat) :
  ∀ (idx : nat) (items : list DkBatchProcess) (resList : list Z),
  (idx + n)%nat = length resList →
  length resList = length items →
  getCurrentResults_loop n idx items resList =
    Some (take idx resList
          ++ zip_with updated (drop idx resList) (drop idx items))%list.
Proof.
  induction n as [|n IH]; intros idx items resList Hn Hlen; simpl.
  - rewrite !drop_ge by lia. simpl. by rewrite app_nil_r, take_ge by lia.
  - destruct (lookup_lt_is_Some_2 resList idx) as [r Hr]; [lia|].
    destruct (lookup_lt_is_Some_2 items idx) as [item Hitem]; [lia|].
    rewrite Hr, (drop_S _ _ _ Hr), (drop_S _ _ _ Hitem). simpl.
    assert (Hu : updated r item =
                 if r =? batch_item_not_computed
                 then classification item else r) by done.
    destruct (r =? batch_item_not_computed) eqn:Hnc; simpl.
    + rewrite Hitem, Hu. unfold classification.
      destruct (wasProcessed item).
      * rewrite IH by (rewrite ?length_insert; lia).
        rewrite take_S_r
          with (x := if hasFailed item then batch_item_failed
                     else batch_item_succeeded)
          by (apply list_lookup_insert_eq; lia).
        rewrite take_insert_ge by lia.
        rewrite drop_insert_lt by lia.
        by rewrite <- app_assoc.
      * rewrite IH by lia.
        rewrite (take_S_r _ _ _ Hr), <- app_assoc. simpl.
        apply Z.eqb_eq in Hnc. by subst.
    + rewrite IH by lia.
      by rewrite (take_S_r _ _ _ Hr), <- app_assoc, Hu.
Qed.

(** A call returns the entries updated from the items, as long as there
    is an item for every entry. *)
Lemma getCurrentResults_spec (b : DkBatchProcessing) :
  mResList b = [] ∨ length (mResList b) = length (mBatchItems b) →
  let resList :=
    match mResList b with
    | [] => replicate (length (mBatchItems b)) batch_item_not_computed
    | _ :: _ => mResList b
    end in
  getCurrentResults b =
    Some (zip_with updated resList (mBatchItems b),
          {| mBatchItems := mBatchItems b;
             mResList := zip_with updated resList (mBatchItems b) |}).
Proof.
  intros H. unfold getCurrentResults. cbv zeta.
  set (resList := match mResList b with [] => _ | _ => _ end).
  assert (Hlen : length resList = length (mBatchItems b)).
  { subst resList. destruct (mResList b) eqn:E.
    - by rewrite length_replicate.
    - destruct H as [H|H]; [done|]. done. }
  by rewrite getCurrentResults_loop_spec by (simpl; lia).
Qed.

Lemma updated_valid (old : Z) (item : DkBatchProcess) :
  validEntry old → validEntry (updated old item).
Proof.
  unfold updated, classification, validEntry.
  repeat case_match; tauto.
Qed.

Lemma updated_classified (old : Z) (item : DkBatchProcess) :
  old ≠ batch_item_not_computed → updated old item = old.
Proof.
  unfold updated. intros H. apply Z.eqb_neq in H. by rewrite H.
Qed.

Lemma updated_not_computed (item : DkBatchProcess) :
  updated batch_item_not_computed item = classification item.
Proof. unfold updated. by rewrite Z.eqb_refl. Qed.

(** A run of polls against the description [pollSpec]. *)
Lemma poll_spec (n : nat) (snapshots : list (list DkBatchProcess)) :
  ∀ resList : list Z,
  Forall (λ items, length items = n) snapshots →
  length resList = n →
  poll snapshots resList = Some (pollSpec snapshots resList).
Proof.
  induction snapshots as [|items snapshots IH]; intros resList Hs Hr;
    simpl; [done|].
  apply Forall_cons in Hs as [Hitems Hs].
  rewrite getCurrentResults_spec by (simpl; right; lia). simpl.
  assert (E : match resList with
              | [] => replicate (length items) batch_item_not_computed
              | _ :: _ => resList
              end = resList).
  { destruct resList; [|done]. simpl in Hr.
    rewrite <- Hr in Hitems. by rewrite Hitems. }
  rewrite E, IH; [done|done|].
  rewrite length_zip_with. lia.
Qed.

Lemma poll_fresh (n : nat) (snapshots : list (list DkBatchProcess)) :
  Forall (λ items, length items = n) snapshots →
  poll snapshots [] =
    Some (pollSpec snapshots (replicate n batch_item_not_computed)).
Proof.
  intros Hs. destruct snapshots as [|items snapshots]; [done|].
  pose proof Hs as Hs'. apply Forall_cons in Hs' as [Hitems Hs'].
  simpl. rewrite getCurrentResults_spec by (by left). simpl.
  rewrite Hitems, (poll_spec n); [done|done|].
  rewrite length_zip_with, length_replicate. lia.
Qed.

Lemma pollSpec_length snapshots resList :
  length (pollSpec snapshots resList) = length snapshots.
Proof.
  revert resList.
  induction snapshots as [|items snapshots IH]; intros; simpl; [done|].
  by rewrite IH.
Qed.

Lemma pollSpec_valid (n : nat) (snapshots : list (list DkBatchProcess)) :
  ∀ (resList : list Z) (k : nat) (res : list Z),
  Forall (λ items, length items = n) snapshots →
  length resList = n → Forall validEntry resList →
  pollSpec snapshots resList !! k = Some res →
  length res = n ∧ Forall validEntry res.
Proof.
  induction snapshots as [|items snapshots IH];
    intros resList k res Hs Hlen Hv Hk; simpl in Hk; [done|].
  apply Forall_cons in Hs as [Hitems Hs].
  assert (length (zip_with updated resList items) = n
          ∧ Forall validEntry (zip_with updated resList items)) as [H1 H2].
  { split; [rewrite length_zip_with; lia|].
    apply Forall_lookup. intros i x Hx.
    apply lookup_zip_with_Some in Hx as (old & item & -> & Hold & _).
    apply updated_valid. by eapply Forall_lookup_1. }
  destruct k as [|k]; simpl in Hk; [by simplify_eq|]. eauto.
Qed.

(** An entry that is classified stays what it is in every later list. *)
Lemma pollSpec_stable (snapshots : list (list DkBatchProcess)) :
  ∀ (resList : list Z) (k : nat) (res : list Z) (idx : nat) (r : Z),
  Forall (λ items, length items = length resList) snapshots →
  pollSpec snapshots resList !! k = Some res →
  resList !! idx = Some r → r ≠ batch_item_not_computed →
  res !! idx = Some r.
Proof.
  induction snapshots as [|items snapshots IH];
    intros resList k res idx r Hs Hk Hr Hnc; simpl in Hk; [done|].
  apply Forall_cons in Hs as [Hitems Hs].
  assert (H1 : zip_with updated resList items !! idx = Some r).
  { destruct (lookup_lt_is_Some_2 items idx) as [item Hitem].
    { apply lookup_lt_Some in Hr. lia. }
    apply lookup_zip_with_Some. exists r, item.
    by rewrite updated_classified. }
  destruct k as [|k]; simpl in Hk; [by simplify_eq|].
  eapply IH; [|done..].
  by rewrite length_zip_with, Hitems, Nat.min_id.
Qed.

Lemma pollSpec_drop (snapshots : list (list DkBatchProcess)) :
  ∀ (resList : list Z) (k : nat) (res : list Z),
  pollSpec snapshots resList !! k = Some res →
  drop (S k) (pollSpec snapshots resList) =
    pollSpec (drop (S k) snapshots) res.
Proof.
  induction snapshots as [|items snapshots IH]; intros resList k res Hk;
    simpl in Hk; [done|].
  destruct k as [|k]; simpl in Hk.
  - by simplify_eq.
  - simpl. by apply IH.
Qed.

(** Claim C7: over a run of calls to getCurrentResults() on a runner
    whose number of items stays [n], starting with the empty result list
    of a new runner: every call returns a list of [n] entries, each of
    them not-computed, succeeded or failed; an entry that is succeeded or
    failed in one list is the same in the list of every later call; the
    first call classifies every item from wasProcessed() and hasFailed(),
    and from one call to the next an entry that was not computed becomes
    the classification of its item as the later call finds it. *)
Theorem results_never_overwritten (n : nat)
    (snapshots : list (list DkBatchProcess)) :
  Forall (λ items, length items = n) snapshots →
  ∃ results,
    poll snapshots [] = Some results
    ∧ length results = length snapshots
    ∧ (∀ k res, results !! k = Some res →
         length res = n ∧ Forall validEntry res)
    ∧ (∀ k k' res res' idx r,
         (k ≤ k')%nat →
         results !! k = Some res → results !! k' = Some res' →
         res !! idx = Some r → r ≠ batch_item_not_computed →
         res' !! idx = Some r)
    ∧ (∀ res items idx,
         results !! 0%nat = Some res → snapshots !! 0%nat = Some items →
         res !! idx = classification <$> items !! idx)
    ∧ (∀ k res res' items idx,
         results !! k = Some res → results !! S k = Some res' →
         snapshots !! S k = Some items →
         res !! idx = Some batch_item_not_computed →
         ∃ item, items !! idx = Some item
                 ∧ res' !! idx = Some (classification item)).
Proof.
  intros Hs. eexists. split; [by apply poll_fresh|].
  set (res0 := replicate n batch_item_not_computed).
  assert (Hlen0 : length res0 = n) by apply length_replicate.
  assert (Hv0 : Forall validEntry res0).
  { apply Forall_replicate. by left. }
  split; [apply pollSpec_length|].
  split; [intros k res; by apply pollSpec_valid|].
  split.
  - intros k k' res res' idx r Hle Hk Hk' Hr Hnc.
    destruct (decide (k = k')) as [->|Hne]; [by simplify_eq|].
    pose proof (pollSpec_drop _ _ _ _ Hk) as Hd.
    destruct (pollSpec_valid n _ _ _ _ Hs Hlen0 Hv0 Hk) as [Hlen _].
    eapply (pollSpec_stable (drop (S k) snapshots) res (k' - S k));
      [| |done..].
    + rewrite Hlen. by apply Forall_drop.
    + rewrite <- Hd, lookup_drop.
      by replace (S k + (k' - S k))%nat with k' by lia.
  - split.
    { intros res items idx Hres Hitems.
    destruct snapshots as [|items' rest]; [done|]. simpl in *. simplify_eq.
    apply Forall_cons in Hs as [Hlen _].
    rewrite lookup_zip_with. subst res0.
    destruct (items !! idx) as [item|] eqn:Hitem.
      - rewrite lookup_replicate_2
          by (apply lookup_lt_Some in Hitem; lia).
        simpl. by rewrite updated_not_computed.
      - by destruct (replicate n batch_item_not_computed !! idx). }
    intros k res res' items idx Hk Hk' Hitems Hr.
    pose proof (pollSpec_drop _ _ _ _ Hk) as Hd.
    destruct (pollSpec_valid n _ _ _ _ Hs Hlen0 Hv0 Hk) as [Hlen _].
    assert (H0 : drop (S k) (pollSpec snapshots res0) !! 0%nat = Some res').
    { by rewrite lookup_drop, Nat.add_0_r. }
    rewrite Hd in H0.
    assert (Hs0 : drop (S k) snapshots !! 0%nat = Some items).
    { by rewrite lookup_drop, Nat.add_0_r. }
    destruct (drop (S k) snapshots) as [|items' rest]; [done|].
    simpl in *. simplify_eq.
    assert (Hitems' : length items = length res).
    { rewrite Hlen. eapply Forall_lookup_1 in Hs; [|done]. done. }
    destruct (lookup_lt_is_Some_2 items idx) as [item Hitem].
    { apply lookup_lt_Some in Hr. lia. }
    exists item. split; [done|].
    apply lookup_zip_with_Some. eexists _, item.
    by rewrite updated_not_computed.
Qed.

End PollingTheorems.

(* ------------------------------------------------------------------ *)
(** * Further properties of the steps *)

Section StepProperties.

Context {enums : DkEnums} {qt : QtCore} {lib : ImageLib}.

Local Open Scope list_scope.

(** Property X1: a resize step that is not active - isActive() answers [false] -
    is in the default mode with a factor of exactly 1, and its compute()
    ignores the image: it answers [true], leaves the container as it is
    and adds the one line that says so to the log. *)
Theorem resize_inactive_is_ignored (s : DkResizeBatch)
    (c : DkImageContainer) (logStrings : list LogLine) :
  isActive (resizeStep s) = false →
  rMode s = mode_default
  ∧ compute (resizeStep s) c logStrings =
      (true, c,
       (logStrings
        ++ [Tr "%1 scale factor is 1 -> ignoring" [AStr DkResizeBatch_name]])%list,
       []).
Proof.
  cbn [isActive resizeStep compute].
  unfold DkResizeBatch_isActive, DkAbstractBatch_compute3,
    DkAbstractBatch_compute2, DkResizeBatch_compute.
  destruct (rMode s =? mode_default) eqn:Hm; cbn [negb]; [|done].
  destruct (Float32.eqb (mScaleFactor s) one); cbn [negb]; [|done].
  intros _. apply Z.eqb_eq in Hm. split; [done|].
  by rewrite setImage_image.
Qed.

(** Property X2: in the default mode with a factor other than 1,
    DkResizeBatch::compute does not consult the policy (increase only,
    decrease only): it hands the image to resizeImage with the invalid
    size [QSize()] and the configured factor, fails exactly if the result
    is null, and otherwise returns the result. *)
Theorem resize_default_mode_ignores_policy (s : DkResizeBatch)
    (img : QImage) (logStrings : list LogLine) :
  rMode s = mode_default →
  Float32.eqb (mScaleFactor s) one = false →
  DkResizeBatch_compute s img logStrings =
    let tmpImg :=
      resizeImage img QSize.default (mScaleFactor s) (mIplMethod s)
        (mCorrectGamma s) in
    if isNull tmpImg then
      (false, img,
       (logStrings
        ++ [Tr "%1 could not resize image." [AStr DkResizeBatch_name]])%list)
    else
      (true, tmpImg,
       (logStrings
        ++ [Tr "%1 image resized, scale factor: %2%"
              [AStr DkResizeBatch_name;
               AFloat (mul (mScaleFactor s) hundred)]])%list).
Proof.
  intros Hm Hf. unfold DkResizeBatch_compute, prepareProperties.
  by rewrite Hf, Hm, Z.eqb_refl.
Qed.

Lemma DkResizeBatch_compute_cases (s : DkResizeBatch) (img : QImage)
    (logStrings : list LogLine) :
  let '(isOk, img', logStrings') := DkResizeBatch_compute s img logStrings in
  (∃ lines, logStrings' = (logStrings ++ lines)%list
            ∧ (1 ≤ length lines ≤ 2)%nat)
  ∧ (if isOk then img' = img ∨ isNull img' = false
     else img' = img
          ∧ logStrings' =
              (logStrings
               ++ [Tr "%1 could not resize image."
                     [AStr DkResizeBatch_name]])%list).
Proof.
  unfold DkResizeBatch_compute.
  destruct (Float32.eqb (mScaleFactor s) one).
  { split; [|by left]. eexists [_]. split; [done|simpl; lia]. }
  assert (H : let '(prepared, _, _, l) :=
                prepareProperties s (imageSize img) QSize.default one
                  logStrings in
              if prepared then l = logStrings
              else ∃ line, l = (logStrings ++ [line])%list).
  { unfold prepareProperties, append.
    repeat case_match; simplify_eq; eauto. }
  destruct (prepareProperties _ _ _ _ _) as [[[prepared size] sf] l].
  destruct prepared.
  - subst l. destruct (isNull (resizeImage _ _ _ _ _)) eqn:Hn.
    + split; [|done]. eexists [_]. split; [done|simpl; lia].
    + split; [|by right]. unfold append.
      destruct (rMode s =? mode_default);
        (eexists [_]; split; [done|simpl; lia]).
  - destruct H as [line ->]. split; [|by left].
    unfold append. rewrite <- app_assoc. eexists [_; _].
    split; [done|simpl; lia].
Qed.

(** Property X3: whatever the step and the container, the resize step behind
    the interface of DkAbstractBatch pushes no infos, keeps the path and
    the crop region of the container and adds one or two lines to the log;
    if it fails, the container is as it was and the one line added says
    that the image could not be resized; and a container whose image is
    not null never ends up with a null image. *)
Theorem resize_keeps_image_valid (s : DkResizeBatch) (c : DkImageContainer)
    (logStrings : list LogLine) :
  let '(isOk, c', logStrings', cInfos) :=
    compute (resizeStep s) c logStrings in
  cInfos = []
  ∧ cFilePath c' = cFilePath c ∧ cropRect c' = cropRect c
  ∧ (∃ lines, logStrings' = (logStrings ++ lines)%list
              ∧ (1 ≤ length lines ≤ 2)%nat)
  ∧ (isOk = false →
       c' = c
       ∧ logStrings' =
           (logStrings
            ++ [Tr "%1 could not resize image."
                  [AStr DkResizeBatch_name]])%list)
  ∧ (isNull (image c) = false → isNull (image c') = false).
Proof.
  cbn [compute resizeStep].
  unfold DkAbstractBatch_compute3, DkAbstractBatch_compute2.
  pose proof (DkResizeBatch_compute_cases s (image c) logStrings) as H.
  destruct (DkResizeBatch_compute s (image c) logStrings)
    as [[isOk img'] logStrings'].
  destruct H as [Hl H]. destruct isOk.
  - repeat split; try done. intros Hn. cbn. by destruct H as [->|].
  - destruct H as [-> ->]. repeat split; try done.
Qed.

Lemma prepareProperties_resizes (s : DkResizeBatch) (imgSize size0 size : QSize.t)
    (sf0 sf : float) (logStrings logStrings' : list LogLine) :
  rMode s ≠ mode_default →
  prepareProperties s imgSize size0 sf0 logStrings
    = (true, size, sf, logStrings') →
  let n := normalizedSize s imgSize in
  let sfc := div (mScaleFactor s) (of_int (QSize.width n)) in
  let size1 :=
    (qRound (mScaleFactor s), qRound (mul sfc (of_int (QSize.height n)))) in
  sf = sf0 ∧ logStrings' = logStrings
  ∧ size = (if QSize.neqb n imgSize then QSize.transpose size1 else size1)
  ∧ computedScaleFactor s imgSize = Some sfc
  ∧ (gtb sfc one && (mProperty s =? prop_decrease_only)) = false
  ∧ (ltb sfc one && (mProperty s =? prop_increase_only)) = false
  ∧ Float32.eqb sfc one = false.
Proof.
  intros Hd H. cbv zeta. apply Z.eqb_neq in Hd.
  unfold prepareProperties in H. unfold computedScaleFactor.
  rewrite Hd in *. fold (normalizedSize s imgSize) in *.
  set (n := normalizedSize s imgSize) in *.
  set (sfc := div _ _) in *.
  destruct (gtb sfc one && _); [done|].
  destruct (ltb sfc one && _); [done|].
  destruct (Float32.eqb sfc one); [done|].
  injection H as <- <- <-. repeat split.
Qed.

(** Property X4: when prepareProperties asks for a resize in a mode that sets a
    side, the side which the mode selects gets the rounded target length
    and the other side the rounded product of the computed factor and its
    length: the long side, the short side, or the height - except that on
    a square image the height mode puts the target on the width.  The
    scale factor handed back is the one handed in, and the log is
    untouched. *)
Theorem resize_target_side (s : DkResizeBatch) (imgSize size0 size : QSize.t)
    (sf0 sf : float) (logStrings logStrings' : list LogLine) :
  rMode s ≠ mode_default →
  prepareProperties s imgSize size0 sf0 logStrings
    = (true, size, sf, logStrings') →
  let w := QSize.width imgSize in
  let h := QSize.height imgSize in
  let target := qRound (mScaleFactor s) in
  let other (side rest : Z) :=
    qRound (mul (div (mScaleFactor s) (of_int side)) (of_int rest)) in
  sf = sf0 ∧ logStrings' = logStrings
  ∧ (rMode s = mode_long_side →
       size = if w <? h then (other h w, target) else (target, other w h))
  ∧ (rMode s = mode_short_side →
       size = if w >? h then (other h w, target) else (target, other w h))
  ∧ (rMode s = mode_height →
       size = if w =? h then (target, other h w) else (other h w, target))
  ∧ (rMode s ≠ mode_long_side → rMode s ≠ mode_short_side →
     rMode s ≠ mode_height → size = (target, other w h)).
Proof.
  intros Hd H. cbv zeta.
  destruct (prepareProperties_resizes _ _ _ _ _ _ _ _ Hd H)
    as (-> & -> & -> & _).
  pose proof resize_modes_distinct as Hmodes.
  apply NoDup_cons in Hmodes as [_ Hmodes].
  apply NoDup_cons in Hmodes as [Hn2 Hmodes].
  apply NoDup_cons in Hmodes as [Hn3 _].
  apply not_elem_of_cons in Hn2 as [Hls Hn2].
  apply not_elem_of_cons in Hn2 as [Hlh _].
  apply not_elem_of_cons in Hn3 as [Hsh _].
  destruct imgSize as [w h].
  unfold normalizedSize, QSize.neqb, QSize.transpose, QSize.width,
    QSize.height. cbn [fst snd].
  split; [done|]. split; [done|].
  split; [|split; [|split]].
  - intros ->. rewrite Z.eqb_refl.
    destruct (w <? h) eqn:E; cbn [fst snd].
    + apply Z.ltb_lt in E.
      replace (h =? w) with false by (symmetry; apply Z.eqb_neq; lia).
      done.
    + by rewrite !Z.eqb_refl.
  - intros ->. apply Z.eqb_neq in Hls. rewrite Z.eqb_sym in Hls.
    rewrite Hls, Z.eqb_refl.
    destruct (w >? h) eqn:E; cbn [fst snd].
    + apply Z.gtb_lt in E.
      replace (h =? w) with false by (symmetry; apply Z.eqb_neq; lia).
      done.
    + by rewrite !Z.eqb_refl.
  - intros ->. apply Z.eqb_neq in Hlh, Hsh.
    rewrite Z.eqb_sym in Hlh. rewrite Z.eqb_sym in Hsh.
    rewrite Hlh, Hsh, Z.eqb_refl. cbn [fst snd].
    rewrite (Z.eqb_sym h w).
    destruct (w =? h) eqn:E; cbn [andb negb]; [|done].
    apply Z.eqb_eq in E. by subst.
  - intros H1 H2 H3. apply Z.eqb_neq in H1, H2, H3.
    rewrite H1, H2, H3. cbn [fst snd]. by rewrite !Z.eqb_refl.
Qed.

(** Property X5: if the resize step changes the image of the container in a
    mode that sets a side, then the computed factor is not exactly 1, it is
    not above 1 under the decrease-only policy and not below 1 under the
    increase-only policy. *)
Theorem resize_respects_policy (s : DkResizeBatch) (c : DkImageContainer)
    (logStrings : list LogLine) (sfc : float) :
  computedScaleFactor s (imageSize (image c)) = Some sfc →
  image (compute (resizeStep s) c logStrings).1.1.2 ≠ image c →
  Float32.eqb sfc one = false
  ∧ (mProperty s = prop_decrease_only → gtb sfc one = false)
  ∧ (mProperty s = prop_increase_only → ltb sfc one = false).
Proof.
  intros Hc Hchanged.
  assert (Hd : rMode s ≠ mode_default).
  { intros E. unfold computedScaleFactor in Hc.
    by rewrite E, Z.eqb_refl in Hc. }
  cbn [compute resizeStep] in Hchanged.
  unfold DkAbstractBatch_compute3, DkAbstractBatch_compute2,
    DkResizeBatch_compute in Hchanged.
  destruct (Float32.eqb (mScaleFactor s) one).
  { by rewrite setImage_image in Hchanged. }
  destruct (prepareProperties s (imageSize (image c)) QSize.default one
              logStrings) as [[[prepared size] sf] l] eqn:Hp.
  destruct prepared; [|by rewrite setImage_image in Hchanged].
  destruct (prepareProperties_resizes _ _ _ _ _ _ _ _ Hd Hp)
    as (_ & _ & _ & Hc' & Hg & Hl & He).
  rewrite Hc in Hc'. injection Hc' as ->.
  split; [done|]. split.
  - intros E. rewrite E, Z.eqb_refl, andb_true_r in Hg. done.
  - intros E. rewrite E, Z.eqb_refl, andb_true_r in Hl. done.
Qed.

(** Property X6: whatever the transform step and the container, the container
    after compute() is the one before, cropped to the stored region if the
    step crops from the meta data and the region is not empty - never the
    rotated or mirrored image, and the crop stays also when the step fails;
    an active step fails exactly if the rotated and mirrored image is null,
    an inactive one succeeds; no infos are pushed and exactly one line is
    added to the log. *)
Theorem transform_step_outcome (t : DkBatchTransform) (c : DkImageContainer)
    (logStrings : list LogLine) :
  let '(isOk, c', logStrings', cInfos) :=
    compute (transformStep t) c logStrings in
  c' = (if mCropFromMetadata t && negb (rectIsEmpty (cropRect c))
        then cropImage c (cropRect c) else c)
  ∧ isOk = negb (isActive (transformStep t))
           || negb (isNull (transformImage t (image c')))
  ∧ cInfos = []
  ∧ ∃ line, logStrings' = (logStrings ++ [line])%list.
Proof.
  cbn [compute transformStep isActive]. unfold DkAbstractBatch_compute3.
  pose proof (DkBatchTransform_compute_container t c logStrings) as Hc.
  unfold DkBatchTransform_compute in *.
  destruct (DkBatchTransform_isActive t) eqn:Ha; cbn [negb orb] in *.
  - set (c' := if mCropFromMetadata t then _ else c) in *.
    destruct (isNull (transformImage t (image c'))) eqn:Hn;
      cbn [negb fst snd] in *; subst c'.
    + rewrite Hc in Hn. rewrite Hc, Hn. unfold append. eauto.
    + rewrite Hc in Hn. rewrite Hc, Hn. unfold append.
      destruct (rectIsEmpty (cropRect c) && mCropFromMetadata t); eauto.
  - cbn [fst snd] in Hc. unfold append. rewrite <- Hc. eauto.
Qed.

Lemma resizeStep_appends (s : DkResizeBatch) : OnlyAppends (resizeStep s).
Proof.
  intros c l. cbn [compute resizeStep].
  unfold DkAbstractBatch_compute3, DkAbstractBatch_compute2.
  pose proof (DkResizeBatch_compute_cases s (image c) l) as H.
  destruct (DkResizeBatch_compute s (image c) l) as [[isOk img'] l'].
  destruct H as [(lines & -> & _) _].
  destruct isOk; by apply prefix_app_r.
Qed.

Lemma transformStep_appends (t : DkBatchTransform) :
  OnlyAppends (transformStep t).
Proof.
  intros c l. cbn [compute transformStep].
  unfold DkAbstractBatch_compute3, DkBatchTransform_compute, append.
  repeat case_match; cbn [fst snd]; by apply prefix_app_r.
Qed.

End StepProperties.

(* ------------------------------------------------------------------ *)
(** * Further properties of the item *)

Section ItemProperties.

Context {enums : DkEnums} {qt : QtCore} {lib : ImageLib}.

Local Open Scope list_scope.

(** [copy]: on success the data of the source is at a path that was
    free, and the source is as it was. *)
Lemma QFile_copy_spec (src dst : string) (w : World) :
  let '(ok, w') := QFile_copy src dst w in
  trace w' = trace w ++ [EvCopy src dst ok]
  ∧ faults w' = tail (faults w) ∧ uuids w' = uuids w
  ∧ (if ok then
       ∃ d, fileAt w src = Some d ∧ dst ≠ EmptyString
            ∧ fileAt w dst = None
            ∧ files w' = <[dst := d]> (files w)
     else files w' = files w).
Proof.
  unfold QFile_copy.
  match goal with
  | |- context [fsCall ?ev ?eff w] =>
      pose proof (fsCall_spec ev eff w) as H;
      destruct (fsCall ev eff w) as [[] w']
  end; [|tauto].
  cbv beta in H. destruct H as (? & ? & ? & _ & H). repeat split; auto.
  destruct (fileAt w src) as [d|]; [|done].
  destruct (decide (dst = EmptyString)); [done|].
  destruct (fileExists w dst) eqn:E; [done|].
  apply fileExists_false in E. exists d. by simplify_eq.
Qed.

(** A call goes through if the environment does not refuse it and its
    effect is defined. *)
Lemma fsCall_cooperative ev effect (w : World) (fs : gmap string FileData)
    (n : nat) :
  cooperative (S n) w = true → effect w = Some fs →
  ∃ w', fsCall ev effect w = (true, w')
        ∧ files w' = fs ∧ trace w' = trace w ++ [ev true]
        ∧ uuids w' = uuids w ∧ cooperative n w' = true.
Proof.
  unfold cooperative, fsCall. intros Hc He.
  destruct (faults w) as [|f l]; cbn in *.
  - rewrite He. eexists. split; [done|]. cbn. by rewrite take_nil.
  - apply andb_true_iff in Hc as [Hf Hc]. apply negb_true_iff in Hf.
    subst f. rewrite He. eexists. split; [done|]. cbn. done.
Qed.

Lemma fsCall_refused ev effect (w : World) :
  effect w = None →
  ∃ w', fsCall ev effect w = (false, w')
        ∧ files w' = files w ∧ trace w' = trace w ++ [ev false]
        ∧ uuids w' = uuids w.
Proof.
  unfold fsCall. intros He.
  destruct (faults w) as [|[] l]; cbn; rewrite ?He; eauto.
Qed.

(** [copy] does not overwrite. *)
Lemma QFile_copy_refused (src dst : string) (w : World) :
  fileExists w dst = true →
  ∃ w', QFile_copy src dst w = (false, w')
        ∧ files w' = files w
        ∧ trace w' = trace w ++ [EvCopy src dst false].
Proof.
  intros H. unfold QFile_copy.
  edestruct (fsCall_refused (EvCopy src dst)) as (w' & -> & ? & ? & _);
    [|eauto].
  cbv beta. rewrite H. destruct (fileAt w src); [|done].
  by destruct (decide _).
Qed.

(** Property X7: if the input file does not exist - and the item is not skipped
    for an existing output first - compute() logs two lines, adds one to
    the failure counter and returns [false] with the world as it was. *)
Theorem compute_missing_input (p : DkBatchProcess) (w : World) :
  fileExists w (mFilePathIn p) = false →
  fileExists w (mFilePathOut p) && (mMode p =? mode_skip_existing) = false →
  0 <= mFailure p < max_int →
  ∃ p',
    DkBatchProcess_compute (p, w) = (false, (p', w))
    ∧ mLogStrings p' =
        mLogStrings p
        ++ [Tr "Error: input file does not exist" [];
            Tr "Input: %1" [AStr (mFilePathIn p)]]
    ∧ mFailure p' = mFailure p + 1
    ∧ wasProcessed p' = true
    ∧ sameSetup p p'.
Proof.
  intros Hin Hout Hf.
  unfold DkBatchProcess_compute. unfold_monad.
  cbn [mFilePathIn mFilePathOut mMode withIsProcessed].
  rewrite Hout, Hin. unfold_monad.
  cbn [mFailure withFailure withLog withIsProcessed].
  rewrite (incr32_small _ Hf).
  eexists. split.
  - f_equal. apply Z.eqb_neq. lia.
  - unfold wasProcessed, append. cbn. rewrite <- app_assoc.
    repeat split.
Qed.

(** Property X8: if the input cannot be loaded, or loads as a null image,
    process() returns [false] after the one attempt to load: no file has
    changed, the chain has not run, the log has the line of process() and
    the line of the error, and the failure counter is incremented once. *)
Theorem process_load_failure (p : DkBatchProcess) (w : World) :
  match (loadImage (mFilePathIn p) w).1 with
  | Some imgC => isNull (image imgC) = true
  | None => True
  end →
  let '(r, (p', w')) := process (p, w) in
  r = false
  ∧ files w' = files w
  ∧ (∃ ok, trace w' = trace w ++ [EvLoad (mFilePathIn p) ok])
  ∧ p' = withFailure (incr32 (mFailure p))
           (withLog (mLogStrings p
                     ++ [processingLine p; Tr "Error while loading..." []])
              p).
Proof.
  intros H. unfold process. unfold_monad. cbn [mFilePathIn withLog].
  pose proof (loadImage_spec (mFilePathIn p) w) as Hl.
  destruct (loadImage (mFilePathIn p) w) as [[imgC|] w1];
    destruct Hl as [Hf Hl]; cbn [fst] in H; unfold_monad.
  - rewrite H. unfold_monad. unfold append, processingLine. cbn.
    rewrite <- app_assoc. eauto.
  - unfold append, processingLine. cbn. rewrite <- app_assoc. eauto.
Qed.

(** Property X9: renameFile() never overwrites: if the output exists it
    returns [false] without a call into the file system; if it returns
    [true] the data of the input is at the output path and the input path
    is free; if it returns [false] no file has changed.  It always adds
    lines to the log and changes nothing else of the item. *)
Theorem renameFile_moves_or_nothing (p : DkBatchProcess) (w : World) :
  let '(r, (p', w')) := renameFile (p, w) in
  (fileExists w (mFilePathOut p) = true → r = false ∧ w' = w)
  ∧ (r = true →
       ∃ d, fileAt w (mFilePathIn p) = Some d
            ∧ files w' =
                <[mFilePathOut p := d]> (delete (mFilePathIn p) (files w))
            ∧ fileAt w' (mFilePathOut p) = Some d
            ∧ fileAt w' (mFilePathIn p) = None)
  ∧ (r = false → files w' = files w)
  ∧ (∃ lines, p' = withLog (mLogStrings p ++ lines) p ∧ lines ≠ []).
Proof.
  unfold renameFile. unfold_monad. rewrite if_M.
  destruct (fileExists w (mFilePathOut p)) eqn:Hout; unfold_monad.
  { unfold append. repeat split; try done. eexists [_]. done. }
  pose proof (QFile_rename_spec (mFilePathIn p) (mFilePathOut p) w) as Hr.
  destruct (QFile_rename _ _ w) as [ok w']. rewrite if_M.
  destruct Hr as (_ & _ & _ & Hr).
  destruct ok; unfold_monad; unfold append; cbn.
  - destruct Hr as (d & Hd & Hne & Hfree & Hf).
    split; [done|]. split; [|split; [done|by eexists [_]]].
    intros _. exists d. split; [done|]. split; [done|].
    assert (mFilePathIn p ≠ mFilePathOut p) by congruence.
    split.
    + apply fileAt_Some. split; [done|]. by rewrite Hf, lookup_insert_eq.
    + unfold fileAt. destruct (decide _); [done|].
      by rewrite Hf, lookup_insert_ne, lookup_delete_eq.
  - split; [done|]. split; [done|]. split; [done|].
    rewrite <- app_assoc. by eexists [_; _].
Qed.

(** With the output in place and no backup, there is nothing to delete
    and nothing to restore. *)
Lemma deleteOrRestoreExisting_idle (p : DkBatchProcess) (w : World) :
  mBackupFilePath p = EmptyString →
  fileExists w (mFilePathOut p) = true →
  deleteOrRestoreExisting (p, w) = (true, (p, w)).
Proof.
  intros Hb Hout.
  pose proof (deleteOrRestoreExisting_spec p w) as H.
  destruct (deleteOrRestoreExisting (p, w)) as [r [p' w']]. cbv zeta in H.
  rewrite Hb, Hout in H. cbn in H. by destruct H as (-> & -> & ->).
Qed.

(** [copyFile] on an item without backup is the call of [copy], and lines
    in the log. *)
Lemma copyFile_outcome (p : DkBatchProcess) (w : World) :
  mBackupFilePath p = EmptyString →
  let '(r, (p', w')) := copyFile (p, w) in
  (r, w') = QFile_copy (mFilePathIn p) (mFilePathOut p) w
  ∧ ∃ lines, p' = withLog (mLogStrings p ++ lines) p ∧ lines ≠ [].
Proof.
  intros Hb. unfold copyFile. unfold_monad. rewrite if_M.
  assert (H1 :
    (if fileExists w (mFilePathOut p) && (mMode p =? mode_overwrite)
     then deleteOrRestoreExisting (p, w) else (true, (p, w)))
    = (true, (p, w))).
  { destruct (fileExists w (mFilePathOut p)) eqn:Hout; [|done].
    destruct (mMode p =? mode_overwrite); [|done].
    by apply deleteOrRestoreExisting_idle. }
  rewrite H1. unfold_monad.
  destruct (QFile_copy _ _ w) as [copied w']. rewrite if_M.
  destruct copied; unfold_monad; unfold append; cbn.
  - split; [done|]. by eexists [_].
  - split; [done|]. rewrite <- !app_assoc. by eexists [_; _; _; _].
Qed.

(** Property X10: on an item without backup, copyFile() never overwrites: if
    the output exists - in overwrite mode as well - the copy is attempted,
    refused, and no file changes; if it returns [true] the output path was
    free and now holds the data of the input, which is still in place; if
    it returns [false] no file has changed. *)
Theorem copyFile_copies_or_nothing (p : DkBatchProcess) (w : World) :
  mBackupFilePath p = EmptyString →
  let '(r, (p', w')) := copyFile (p, w) in
  (fileExists w (mFilePathOut p) = true →
     r = false ∧ files w' = files w
     ∧ trace w' =
         trace w ++ [EvCopy (mFilePathIn p) (mFilePathOut p) false])
  ∧ (r = true →
       ∃ d, fileAt w (mFilePathIn p) = Some d
            ∧ fileAt w (mFilePathOut p) = None
            ∧ files w' = <[mFilePathOut p := d]> (files w)
            ∧ fileAt w' (mFilePathIn p) = Some d
            ∧ fileAt w' (mFilePathOut p) = Some d)
  ∧ (r = false → files w' = files w)
  ∧ (∃ lines, p' = withLog (mLogStrings p ++ lines) p ∧ lines ≠ []).
Proof.
  intros Hb. pose proof (copyFile_outcome p w Hb) as H.
  pose proof (QFile_copy_spec (mFilePathIn p) (mFilePathOut p) w) as Hc.
  destruct (copyFile (p, w)) as [r [p' w']]. destruct H as [H Hl].
  rewrite <- H in Hc. destruct Hc as (Ht & _ & _ & Hc).
  split; [|split; [|split; [|done]]].
  - intros He. destruct r; [|done].
    destruct Hc as (d & _ & _ & Hfree & _).
    apply fileExists_false in Hfree. congruence.
  - intros ->. destruct Hc as (d & Hd & Hne & Hfree & Hf).
    assert (Hio : mFilePathIn p ≠ mFilePathOut p) by congruence.
    exists d. split; [done|]. split; [done|]. split; [done|].
    apply fileAt_Some in Hd as [Hn Hd].
    split; apply fileAt_Some; (split; [done|]).
    + by rewrite Hf, lookup_insert_ne.
    + by rewrite Hf, lookup_insert_eq.
  - by intros ->.
Qed.

(** Property X11: a plain copy (no steps, same suffix, input and output
    different) onto an output that exists fails in every mode, overwrite
    included: compute() returns [false], counts one failure and leaves
    every file as it was; outside the skip-existing mode the one call made
    is the copy that is refused. *)
Theorem compute_copy_never_overwrites (p : DkBatchProcess) (w : World) :
  mBackupFilePath p = EmptyString →
  mProcessFunctions p = [] →
  suffix (mFilePathIn p) = suffix (mFilePathOut p) →
  mFilePathIn p ≠ mFilePathOut p →
  fileExists w (mFilePathIn p) = true →
  fileExists w (mFilePathOut p) = true →
  0 <= mFailure p < max_int →
  let '(r, (p', w')) := DkBatchProcess_compute (p, w) in
  r = false ∧ files w' = files w ∧ hasFailed p' = true
  ∧ mFailure p' = mFailure p + 1
  ∧ trace w' =
      trace w ++ (if mMode p =? mode_skip_existing then []
                  else [EvCopy (mFilePathIn p) (mFilePathOut p) false]).
Proof.
  intros Hb Hchain Hsuf Hio Hin Hout Hf.
  unfold DkBatchProcess_compute, chainEmpty. unfold_monad.
  cbn [mFilePathIn mFilePathOut mMode mProcessFunctions withIsProcessed].
  rewrite Hin, Hout, Hchain, Hsuf. cbn [andb negb].
  apply String.eqb_neq in Hio. rewrite Hio, String.eqb_refl. cbn [andb].
  assert (Hnz : (mFailure p + 1 =? 0) = false) by (apply Z.eqb_neq; lia).
  destruct (mMode p =? mode_skip_existing); unfold_monad.
  { unfold hasFailed.
    cbn [mFailure withFailure withLog withIsProcessed trace files].
    by rewrite (incr32_small _ Hf), Hnz, app_nil_r. }
  set (q := withIsProcessed true p).
  pose proof (copyFile_outcome q w Hb) as Hc.
  destruct (QFile_copy_refused (mFilePathIn p) (mFilePathOut p) w Hout)
    as (w1' & Hcall & Hfs & Ht).
  destruct (copyFile (q, w)) as [copied [p1 w1]].
  destruct Hc as (Hc & lines & -> & _).
  change (mFilePathIn q) with (mFilePathIn p) in Hc.
  change (mFilePathOut q) with (mFilePathOut p) in Hc.
  rewrite Hcall in Hc. injection Hc as -> ->.
  unfold_monad. unfold hasFailed.
  cbn [mFailure withFailure withLog withIsProcessed q].
  by rewrite (incr32_small _ Hf), Hnz.
Qed.

Lemma QFile_copy_cooperative (src dst : string) (w : World) (d : FileData)
    (n : nat) :
  cooperative (S n) w = true → fileAt w src = Some d →
  dst ≠ EmptyString → fileAt w dst = None →
  ∃ w', QFile_copy src dst w = (true, w')
        ∧ files w' = <[dst := d]> (files w)
        ∧ trace w' = trace w ++ [EvCopy src dst true]
        ∧ uuids w' = uuids w ∧ cooperative n w' = true.
Proof.
  intros Hc Hs Hd Hfree. apply fsCall_cooperative; [done|].
  rewrite Hs. destruct (decide _); [done|].
  apply fileExists_false in Hfree. by rewrite Hfree.
Qed.

Lemma QFile_remove_cooperative (path : string) (w : World) (d : FileData)
    (n : nat) :
  cooperative (S n) w = true → fileAt w path = Some d →
  ∃ w', QFile_remove path w = (true, w')
        ∧ files w' = delete path (files w)
        ∧ trace w' = trace w ++ [EvRemove path true]
        ∧ uuids w' = uuids w ∧ cooperative n w' = true.
Proof.
  intros Hc Hs. apply fsCall_cooperative; [done|]. by rewrite Hs.
Qed.

Lemma loadImage_cooperative (path : string) (w : World) (d : FileData)
    (n : nat) :
  cooperative (S n) w = true → fileAt w path = Some d →
  ∃ w', loadImage path w = (Some (loaded path d), w')
        ∧ files w' = files w
        ∧ trace w' = trace w ++ [EvLoad path true]
        ∧ uuids w' = uuids w ∧ cooperative n w' = true.
Proof.
  intros Hc Hs. unfold loadImage.
  edestruct (fsCall_cooperative (EvLoad path)) as (w' & -> & H); [done| |].
  { cbv beta. by rewrite Hs. }
  rewrite Hs. eauto.
Qed.

Lemma saveImage_cooperative (c : DkImageContainer) (path : string)
    (compression : Z) (w : World) (n : nat) :
  cooperative (S n) w = true → isNull (image c) = false →
  path ≠ EmptyString →
  ∃ w', saveImage c path compression w = (true, w')
        ∧ files w' = <[path := encode (image c) path compression]> (files w)
        ∧ trace w' = trace w ++ [EvSave path (image c) compression true]
        ∧ uuids w' = uuids w ∧ cooperative n w' = true.
Proof.
  intros Hc Hn Hp. apply fsCall_cooperative; [done|].
  rewrite Hn. by destruct (decide _).
Qed.

(** Property X12: a plain copy to a free output path, on an item that has not
    failed and with an environment that refuses nothing, succeeds: with
    delete-original the files afterwards are those before with the data of
    the input moved to the output path, by one copy and one remove; without
    it the data is at both paths, by one copy. *)
Theorem compute_copy_with_delete_moves (p : DkBatchProcess) (w : World)
    (d : FileData) :
  mBackupFilePath p = EmptyString →
  mProcessFunctions p = [] →
  suffix (mFilePathIn p) = suffix (mFilePathOut p) →
  fileAt w (mFilePathIn p) = Some d →
  fileAt w (mFilePathOut p) = None →
  mFilePathOut p ≠ EmptyString →
  mFailure p = 0 →
  cooperative 2 w = true →
  let '(r, (p', w')) := DkBatchProcess_compute (p, w) in
  r = true ∧ hasFailed p' = false
  ∧ if mDeleteOriginal p then
      files w' =
        delete (mFilePathIn p) (<[mFilePathOut p := d]> (files w))
      ∧ trace w' =
          trace w ++ [EvCopy (mFilePathIn p) (mFilePathOut p) true;
                      EvRemove (mFilePathIn p) true]
    else
      files w' = <[mFilePathOut p := d]> (files w)
      ∧ trace w' =
          trace w ++ [EvCopy (mFilePathIn p) (mFilePathOut p) true].
Proof.
  intros Hb Hchain Hsuf Hin Hout Hne Hf Hc.
  assert (Hio : mFilePathIn p ≠ mFilePathOut p) by congruence.
  unfold DkBatchProcess_compute, chainEmpty. unfold_monad.
  cbn [mFilePathIn mFilePathOut mMode mProcessFunctions withIsProcessed].
  assert (Ein : fileExists w (mFilePathIn p) = true)
    by (apply fileExists_true; eauto).
  assert (Eout : fileExists w (mFilePathOut p) = false)
    by (by apply fileExists_false).
  rewrite Ein, Eout, Hchain, Hsuf. cbn [andb negb].
  apply String.eqb_neq in Hio. rewrite Hio, String.eqb_refl. cbn [andb].
  unfold_monad.
  set (q := withIsProcessed true p).
  unfold copyFile. unfold_monad.
  cbn [mFilePathIn mFilePathOut mMode q withIsProcessed].
  rewrite Eout. cbn [andb]. unfold_monad.
  destruct (QFile_copy_cooperative _ _ w d 1 Hc Hin Hne Hout)
    as (w1 & -> & Hf1 & Ht1 & _ & Hc1).
  unfold_monad. unfold deleteOriginalFile. unfold_monad.
  cbn [mFilePathIn mFilePathOut mFailure mDeleteOriginal withLog q
       withIsProcessed].
  rewrite Hio, Hf. cbn [Z.eqb andb negb].
  destruct (mDeleteOriginal p); unfold_monad.
  - assert (Hin1 : fileAt w1 (mFilePathIn p) = Some d).
    { apply fileAt_Some in Hin as [? Hin]. apply fileAt_Some.
      split; [done|]. rewrite Hf1, lookup_insert_ne; [done|].
      apply String.eqb_neq in Hio. congruence. }
    destruct (QFile_remove_cooperative _ w1 d 0 Hc1 Hin1)
      as (w2 & -> & Hf2 & Ht2 & _).
    unfold_monad. unfold hasFailed.
    cbn [mFailure withLog q withIsProcessed]. rewrite Hf. cbn [Z.eqb negb].
    rewrite Hf2, Hf1, Ht2, Ht1, <- app_assoc. done.
  - unfold hasFailed. cbn [mFailure withLog q withIsProcessed].
    rewrite Hf. done.
Qed.

(** Property X13: when the save fails on an item without backup whose output
    did not exist, the end of process() counts two failures - the save and
    the restore of a backup that was never made - changes no file, and
    logs the last-resort line with an empty path. *)
Theorem failed_save_without_output (imgC : DkImageContainer)
    (p : DkBatchProcess) (w : World) :
  mBackupFilePath p = EmptyString →
  fileExists w (mFilePathOut p) = false →
  (saveImage imgC (mFilePathOut p) (mCompression p) w).1 = false →
  0 <= mFailure p < max_int - 1 →
  let '(r, (p', w')) := process_save imgC (p, w) in
  r = false
  ∧ mFailure p' = mFailure p + 2
  ∧ files w' = files w
  ∧ mLogStrings p' =
      mLogStrings p
      ++ [Tr "Could not save: %1" [AStr (mFilePathOut p)];
          Tr "Ui - a lot of things went wrong sorry, your original file can be found here: %1"
            [AStr EmptyString];
          ErrorString EmptyString]
  ∧ trace w' =
      trace w
      ++ [EvSave (mFilePathOut p) (image imgC) (mCompression p) false;
          EvRename EmptyString (mFilePathOut p) false].
Proof.
  intros Hb Hout Hsave Hf.
  unfold process_save. unfold_monad.
  pose proof (prepareDeleteExisting_spec p w) as H1.
  destruct (prepareDeleteExisting (p, w)) as [prepared [p1 w1]].
  cbv zeta in H1. rewrite Hout in H1. cbn [andb] in H1.
  destruct H1 as (-> & -> & ->). unfold_monad.
  pose proof (saveImage_spec imgC (mFilePathOut p) (mCompression p) w) as H2.
  destruct (saveImage imgC _ _ w) as [saved w2]. cbn [fst] in Hsave.
  subst saved. destruct H2 as (Ht2 & _ & _ & Hf2). unfold_monad.
  set (q := withFailure _ _).
  pose proof (deleteOrRestoreExisting_spec q w2) as H3.
  destruct (deleteOrRestoreExisting (q, w2)) as [r [p' w']].
  cbv zeta in H3.
  assert (Hq : mBackupFilePath q = EmptyString ∧ mFilePathOut q = mFilePathOut p)
    by (by subst q).
  destruct Hq as [Hqb Hqo]. rewrite Hqb, Hqo in H3.
  rewrite (fileExists_files _ _ _ Hf2), Hout in H3. cbn [andb negb] in H3.
  destruct H3 as [Ht3 H3].
  assert (r = false) as ->.
  { destruct r; [|done]. destruct H3 as (d & Hd & _).
    unfold fileAt in Hd. by destruct (decide _). }
  destruct H3 as [Hf3 ->]. unfold_monad.
  split; [done|].
  cbn [mFailure withFailure withLog mLogStrings q].
  rewrite !incr32_small by (rewrite ?incr32_small; lia).
  split; [lia|]. split; [congruence|].
  unfold append, lastResortLine.
  cbn [mBackupFilePath withFailure withLog q]. rewrite Hb, <- !app_assoc.
  split; [done|].
  by rewrite Ht3, Ht2, <- app_assoc.
Qed.

(** Property X14: on an input that loads, with a free output path, a route
    through process() (steps, or a change of suffix) and an environment
    that refuses nothing: if the image which the chain leaves is not null,
    compute() saves its encoding at the output path - the files are those
    before plus this one, by one load and one save, so the input stays
    even with delete-original - and returns whether the chain left the
    failure counter at zero. *)
Theorem compute_saves_chain_result (p pF : DkBatchProcess) (w wF : World)
    (d : FileData) (imgF : DkImageContainer) :
  mBackupFilePath p = EmptyString →
  fileAt w (mFilePathIn p) = Some d →
  isNull (decode d) = false →
  fileAt w (mFilePathOut p) = None →
  mFilePathOut p ≠ EmptyString →
  chainEmpty p
  && String.eqb (suffix (mFilePathIn p)) (suffix (mFilePathOut p)) = false →
  cooperative 2 w = true →
  runChain (mProcessFunctions p) (loaded (mFilePathIn p) d)
    (started p, (loadImage (mFilePathIn p) w).2) = (imgF, (pF, wF)) →
  isNull (image imgF) = false →
  let new := encode (image imgF) (mFilePathOut p) (mCompression p) in
  ∃ w',
    DkBatchProcess_compute (p, w) =
      (mFailure pF =? 0,
       (withLog
          (mLogStrings pF ++ [Tr "%1 saved..." [AStr (mFilePathOut p)]]) pF,
        w'))
    ∧ files w' = <[mFilePathOut p := new]> (files w)
    ∧ trace w' =
        trace w
        ++ [EvLoad (mFilePathIn p) true;
            EvSave (mFilePathOut p) (image imgF) (mCompression p) true].
Proof.
  intros Hb Hin Hdec Hout Hne Hroute Hc Hchain HnF new.
  assert (Hio : mFilePathIn p ≠ mFilePathOut p) by congruence.
  assert (Ein : fileExists w (mFilePathIn p) = true)
    by (apply fileExists_true; eauto).
  assert (Eout : fileExists w (mFilePathOut p) = false)
    by (by apply fileExists_false).
  destruct (loadImage_cooperative _ w d 1 Hc Hin)
    as (w1 & Hload & Hf1 & Ht1 & _ & Hc1).
  rewrite Hload in Hchain. cbn [snd] in Hchain.
  pose proof (runChain_frame (mProcessFunctions p)
                (loaded (mFilePathIn p) d) (started p) w1) as Hfr.
  rewrite Hchain in Hfr.
  destruct Hfr as (-> & (_ & HoF & _ & _ & HkF & _) & HbF & _).
  change (mFilePathOut (started p)) with (mFilePathOut p) in HoF.
  change (mCompression (started p)) with (mCompression p) in HkF.
  change (mBackupFilePath (started p)) with (mBackupFilePath p) in HbF.
  unfold DkBatchProcess_compute. unfold_monad.
  cbn [mFilePathIn mFilePathOut mMode withIsProcessed].
  rewrite Ein, Eout. cbn [andb negb].
  apply String.eqb_neq in Hio. rewrite Hio. cbn [andb].
  replace (chainEmpty (withIsProcessed true p)) with (chainEmpty p) by done.
  rewrite andb_false_r, Hroute. cbn [andb]. unfold_monad.
  set (q := withIsProcessed true p).
  assert (Hproc : process (q, w) =
            (true, (withLog (mLogStrings pF
                             ++ [Tr "%1 saved..." [AStr (mFilePathOut p)]])
                      pF,
                    (saveImage imgF (mFilePathOut p) (mCompression p) w1).2))).
  { rewrite (process_loaded q w w1 (loaded (mFilePathIn p) d)); [|done..].
    change (withLog _ q) with (started p).
    change (mProcessFunctions q) with (mProcessFunctions p).
    rewrite Hchain. unfold process_save. unfold_monad.
    pose proof (prepareDeleteExisting_spec pF w1) as H1.
    destruct (prepareDeleteExisting (pF, w1)) as [prepared [p1 w1']].
    cbv zeta in H1. rewrite HoF, (fileExists_files _ _ _ Hf1), Eout in H1.
    cbn [andb] in H1. destruct H1 as (-> & -> & ->). unfold_monad.
    rewrite HoF, HkF.
    destruct (saveImage_cooperative imgF (mFilePathOut p) (mCompression p)
                w1 0 Hc1 HnF Hne) as (w2 & Hs & Hf2 & _).
    rewrite Hs. unfold_monad. cbn [snd].
    rewrite deleteOrRestoreExisting_idle;
      [done|cbn [mBackupFilePath withLog]; congruence|].
    cbn [mFilePathOut withLog]. rewrite HoF.
    apply fileExists_true. eexists. apply fileAt_Some. split; [done|].
    by rewrite Hf2, lookup_insert_eq. }
  rewrite Hproc. unfold_monad.
  destruct (saveImage_cooperative imgF (mFilePathOut p) (mCompression p)
              w1 0 Hc1 HnF Hne) as (w2 & Hs & Hf2 & Ht2 & _).
  rewrite Hs. cbn [snd mFailure withLog].
  eexists. split; [done|]. split; [by rewrite Hf2, Hf1|].
  by rewrite Ht2, Ht1, <- app_assoc.
Qed.

Lemma fileAt_insert_ne (w w' : World) (path key : string) (d : FileData) :
  files w' = <[key := d]> (files w) → path ≠ key →
  fileAt w' path = fileAt w path.
Proof.
  intros Hf Hne. unfold fileAt. destruct (decide _); [done|].
  by rewrite Hf, lookup_insert_ne.
Qed.

Lemma fileAt_delete_ne (w w' : World) (path key : string) :
  files w' = delete key (files w) → path ≠ key →
  fileAt w' path = fileAt w path.
Proof.
  intros Hf Hne. unfold fileAt. destruct (decide _); [done|].
  by rewrite Hf, lookup_delete_ne.
Qed.

Lemma fileAt_move_ne (w w' : World) (path src dst : string) (d : FileData) :
  files w' = <[dst := d]> (delete src (files w)) →
  path ≠ src → path ≠ dst →
  fileAt w' path = fileAt w path.
Proof.
  intros Hf H1 H2. unfold fileAt. destruct (decide _); [done|].
  by rewrite Hf, lookup_insert_ne, lookup_delete_ne.
Qed.

(** [prepareDeleteExisting] changes the files at the output path and at
    the path of the backup only, and at the latter only if it was free. *)
Lemma prepareDeleteExisting_touches (p : DkBatchProcess) (w : World) :
  let b := backupFilePath (mFilePathOut p) (createUuid w).1 in
  let '(_, (p1, w1)) := prepareDeleteExisting (p, w) in
  (mBackupFilePath p1 = mBackupFilePath p
   ∨ mBackupFilePath p1 = b ∧ fileAt w b = None)
  ∧ mFilePathOut p1 = mFilePathOut p
  ∧ ∀ path, path ≠ mFilePathOut p →
            path ≠ b ∨ fileAt w path ≠ None →
            fileAt w1 path = fileAt w path.
Proof.
  pose proof (prepareDeleteExisting_spec p w) as H. cbv zeta.
  destruct (prepareDeleteExisting (p, w)) as [r [p1 w1]]. cbv zeta in H.
  set (b := backupFilePath _ _) in *.
  destruct (_ && _).
  - destruct (fileExists w b) eqn:Hb.
    + destruct H as (_ & Hf & _ & lines & ->).
      split; [by left|]. split; [done|]. intros. by apply fileAt_files.
    + apply fileExists_false in Hb. destruct r.
      * destruct H as (-> & _ & d & _ & _ & Hf).
        split; [by right|]. split; [done|].
        intros path Ho [Hp|Hp].
        -- by eapply fileAt_move_ne.
        -- eapply fileAt_move_ne; [done|done|]. congruence.
      * destruct H as (Hf & _ & lines & ->).
        split; [by left|]. split; [done|]. intros. by apply fileAt_files.
  - destruct H as (_ & -> & ->). split; [by left|]. done.
Qed.

(** [deleteOrRestoreExisting] changes the files at the output path and
    at the path of the backup only. *)
Lemma deleteOrRestoreExisting_touches (p : DkBatchProcess) (w : World) :
  let '(_, (p', w')) := deleteOrRestoreExisting (p, w) in
  ∀ path, path ≠ mFilePathOut p → path ≠ mBackupFilePath p →
          fileAt w' path = fileAt w path.
Proof.
  pose proof (deleteOrRestoreExisting_spec p w) as H.
  destruct (deleteOrRestoreExisting (p, w)) as [r [p' w']]. cbv zeta in H.
  intros path Ho Hb.
  destruct (_ && _ && _).
  - destruct H as [_ H]. destruct r.
    + destruct H as [Hf _]. by eapply fileAt_delete_ne.
    + destruct H as [Hf _]. by apply fileAt_files.
  - destruct (negb _).
    + destruct H as [_ H]. destruct r.
      * destruct H as (d & _ & Hf & _). by eapply fileAt_move_ne.
      * destruct H as [Hf _]. by apply fileAt_files.
    + by destruct H as (_ & _ & ->).
Qed.

Lemma saveImage_touches (c : DkImageContainer) (out : string) (k : Z)
    (w : World) (path : string) :
  path ≠ out → fileAt (saveImage c out k w).2 path = fileAt w path.
Proof.
  intros Hne. pose proof (saveImage_spec c out k w) as H.
  destruct (saveImage c out k w) as [[] w']; cbn [snd];
    destruct H as (_ & _ & _ & H).
  - destruct H as [_ H]. by eapply fileAt_insert_ne.
  - by apply fileAt_files.
Qed.

(** The end of [process] on an item without backup. *)
Lemma process_save_touches (imgC : DkImageContainer) (p : DkBatchProcess)
    (w : World) (path : string) :
  mBackupFilePath p = EmptyString →
  path ≠ mFilePathOut p →
  path ≠ backupFilePath (mFilePathOut p) (createUuid w).1
  ∨ fileAt w path ≠ None →
  fileAt (process_save imgC (p, w)).2.2 path = fileAt w path.
Proof.
  intros Hb Ho Hp. unfold process_save. unfold_monad.
  pose proof (prepareDeleteExisting_touches p w) as H1. cbv zeta in H1.
  destruct (prepareDeleteExisting (p, w)) as [prepared [p1 w1]].
  destruct H1 as (Hb1 & Ho1 & H1). specialize (H1 path Ho Hp).
  rewrite if_M. destruct prepared; unfold_monad; [|done].
  pose proof (saveImage_touches imgC (mFilePathOut p) (mCompression p) w1
                path Ho) as H2.
  destruct (saveImage imgC _ _ w1) as [saved w2]. cbn [snd] in H2.
  assert (Hpb : path = EmptyString ∨ path ≠ mBackupFilePath p1).
  { destruct (decide (path = EmptyString)) as [|Hne]; [by left|right].
    destruct Hb1 as [->|[-> Hfree]]; [by rewrite Hb|].
    destruct Hp as [Hp|Hp]; [done|]. congruence. }
  rewrite if_M. destruct saved; unfold_monad.
  all: match goal with
       | |- context [deleteOrRestoreExisting (?q, ?v)] =>
           pose proof (deleteOrRestoreExisting_touches q v) as H3;
           destruct (deleteOrRestoreExisting (q, v)) as [r [p' w']]
       end.
  all: rewrite if_M; destruct r; unfold_monad.
  all: rewrite <- H1, <- H2.
  all: destruct Hpb as [->|Hpb]; [by unfold fileAt|].
  all: apply H3; cbn; congruence.
Qed.

Lemma loadImage_uuids (path : string) (w : World) :
  uuids (loadImage path w).2 = uuids w ∧ files (loadImage path w).2 = files w.
Proof.
  pose proof (loadImage_spec path w) as Hl. unfold loadImage in *.
  match goal with
  | |- context [fsCall ?ev ?eff w] =>
      pose proof (fsCall_spec ev eff w) as H;
      destruct (fsCall ev eff w) as [ok w']
  end.
  destruct H as (_ & Hu & _).
  destruct (fileAt w path); [destruct ok|]; cbn [snd] in *; by destruct Hl.
Qed.

Lemma createUuid_uuids (w w' : World) :
  uuids w' = uuids w → (createUuid w').1 = (createUuid w).1.
Proof. unfold createUuid. intros ->. by destruct (uuids w). Qed.

(** [process] on an item without backup. *)
Lemma process_touches (p : DkBatchProcess) (w : World) (path : string) :
  mBackupFilePath p = EmptyString →
  path ≠ mFilePathOut p →
  path ≠ backupFilePath (mFilePathOut p) (createUuid w).1
  ∨ fileAt w path ≠ None →
  fileAt (process (p, w)).2.2 path = fileAt w path.
Proof.
  intros Hb Ho Hp. unfold process. unfold_monad. cbn [mFilePathIn withLog].
  destruct (loadImage_uuids (mFilePathIn p) w) as [Hu Hf].
  destruct (loadImage (mFilePathIn p) w) as [[imgC|] w1]; cbn [snd] in *;
    unfold_monad; [|by apply fileAt_files].
  rewrite if_M. destruct (isNull (image imgC)); unfold_monad;
    [by apply fileAt_files|].
  set (p0 := withLog _ p).
  pose proof (runChain_frame (mProcessFunctions p) imgC p0 w1) as Hc.
  destruct (runChain _ imgC (p0, w1)) as [imgF [p1 w1']].
  destruct Hc as (-> & (_ & Ho1 & _) & Hb1 & _).
  rewrite <- (fileAt_files w w1 path Hf).
  apply process_save_touches.
  - by rewrite Hb1.
  - by rewrite Ho1.
  - rewrite Ho1, (createUuid_uuids _ _ Hu), (fileAt_files w w1 path Hf).
    done.
Qed.

Lemma QFile_copy_touches (src dst : string) (w : World) (path : string) :
  path ≠ dst → fileAt (QFile_copy src dst w).2 path = fileAt w path.
Proof.
  intros Hne. pose proof (QFile_copy_spec src dst w) as H.
  destruct (QFile_copy src dst w) as [[] w']; cbn [snd];
    destruct H as (_ & _ & _ & H).
  - destruct H as (d & _ & _ & _ & H). by eapply fileAt_insert_ne.
  - by apply fileAt_files.
Qed.

(** [deleteOriginalFile] changes the file at the input path only, and
    none without the flag. *)
Lemma deleteOriginalFile_touches (p : DkBatchProcess) (w : World)
    (path : string) :
  path ≠ mFilePathIn p ∨ mDeleteOriginal p = false →
  fileAt (deleteOriginalFile (p, w)).2.2 path = fileAt w path.
Proof.
  intros Hp. unfold deleteOriginalFile. unfold_monad. rewrite if_M.
  destruct (String.eqb _ _); unfold_monad; [done|].
  rewrite if_M. destruct (mFailure p =? 0); cbn [andb negb].
  - destruct (mDeleteOriginal p) eqn:Hd; unfold_monad; [|done].
    destruct Hp as [Hp|]; [|done].
    pose proof (QFile_remove_spec (mFilePathIn p) w) as H.
    destruct (QFile_remove _ w) as [ok w']. rewrite if_M.
    destruct H as (_ & _ & _ & H). destruct ok; unfold_monad.
    + destruct H as [_ H]. by eapply fileAt_delete_ne.
    + by apply fileAt_files.
  - by unfold_monad.
Qed.

(** The files which [compute] may change, on an item without backup: the
    one at the output path; the one at the path of the backup, if that
    path was free; and, in a plain copy that is to delete its original,
    the input file. *)
Lemma compute_touches (p : DkBatchProcess) (w : World) (path : string) :
  mBackupFilePath p = EmptyString →
  path ≠ mFilePathOut p →
  path ≠ backupFilePath (mFilePathOut p) (createUuid w).1
  ∨ fileAt w path ≠ None →
  path ≠ mFilePathIn p ∨ mDeleteOriginal p = false
  ∨ chainEmpty p
    && String.eqb (suffix (mFilePathIn p)) (suffix (mFilePathOut p)) = false →
  fileAt (DkBatchProcess_compute (p, w)).2.2 path = fileAt w path.
Proof.
  intros Hb Ho Hp Hin. unfold DkBatchProcess_compute. unfold_monad.
  set (q := withIsProcessed true p).
  change (mFilePathIn p) with (mFilePathIn q) in *.
  change (mFilePathOut p) with (mFilePathOut q) in *.
  change (mMode p) with (mMode q).
  change (mDeleteOriginal p) with (mDeleteOriginal q) in *.
  change (chainEmpty p) with (chainEmpty q) in *.
  assert (Hbq : mBackupFilePath q = EmptyString) by done.
  clearbody q. clear p Hb.
  rewrite if_M.
  destruct (fileExists w (mFilePathOut q) && _); unfold_monad; [done|].
  rewrite if_M.
  destruct (fileExists w (mFilePathIn q)) eqn:Ein; unfold_monad; [|done].
  rewrite if_M.
  destruct (String.eqb (mFilePathIn q) (mFilePathOut q)) eqn:Hio;
    cbn [andb].
  - destruct (chainEmpty q) eqn:Hchain; unfold_monad; [done|]. cbn [andb].
    pose proof (process_touches q w path Hbq Ho Hp) as H.
    destruct (process (q, w)) as [r [p' w']]. by unfold_monad.
  - rewrite andb_false_r. cbn [andb]. rewrite if_M.
    destruct (chainEmpty q && _) eqn:Hroute; unfold_monad.
    + pose proof (copyFile_outcome q w Hbq) as H.
      pose proof (QFile_copy_touches (mFilePathIn q) (mFilePathOut q) w path Ho)
        as Hc.
      destruct (copyFile (q, w)) as [copied [p1 w1]].
      destruct H as (H & lines & -> & _). rewrite <- H in Hc. cbn [snd] in Hc.
      rewrite if_M. destruct copied; unfold_monad; [|done].
      set (p1 := withLog _ q).
      pose proof (deleteOriginalFile_touches p1 w1 path) as Hd.
      destruct (deleteOriginalFile (p1, w1)) as [r [p2 w2]]. unfold_monad.
      cbn [snd] in Hd. rewrite <- Hc. apply Hd.
      destruct Hin as [Hin|[Hin|Hin]]; [by left|by right|done].
    + pose proof (process_touches q w path Hbq Ho Hp) as H.
      destruct (process (q, w)) as [r [p' w']]. by unfold_monad.
Qed.

(** Property X15: on an item without backup, compute() changes no file
    other than those at the input path, at the output path and at the path
    of the backup - and the latter only if it was free: every other path
    holds afterwards what it held before. *)
Theorem compute_changes_only_its_files (p : DkBatchProcess) (w : World)
    (path : string) :
  mBackupFilePath p = EmptyString →
  path ≠ mFilePathOut p →
  path ≠ mFilePathIn p →
  path ≠ backupFilePath (mFilePathOut p) (createUuid w).1
  ∨ fileAt w path ≠ None →
  let '(_, (_, w')) := DkBatchProcess_compute (p, w) in
  fileAt w' path = fileAt w path.
Proof.
  intros Hb Ho Hi Hp.
  pose proof (compute_touches p w path Hb Ho Hp (or_introl Hi)) as H.
  by destruct (DkBatchProcess_compute (p, w)) as [r [p' w']].
Qed.

(** Property X16: on an item without backup whose input and output
    differ, compute() leaves the input file as it is unless delete-original
    is set and the item is a plain copy (no steps, same suffix): an item
    that goes through process() keeps its original, whatever the flag. *)
Theorem compute_keeps_original_unless_copied (p : DkBatchProcess)
    (w : World) :
  mBackupFilePath p = EmptyString →
  mFilePathIn p ≠ mFilePathOut p →
  mDeleteOriginal p = false
  ∨ mProcessFunctions p ≠ []
  ∨ suffix (mFilePathIn p) ≠ suffix (mFilePathOut p) →
  let '(_, (_, w')) := DkBatchProcess_compute (p, w) in
  fileAt w' (mFilePathIn p) = fileAt w (mFilePathIn p).
Proof.
  intros Hb Hio Hkeep.
  destruct (fileAt w (mFilePathIn p)) as [d|] eqn:Hin.
  - pose proof (compute_touches p w (mFilePathIn p) Hb Hio) as H.
    rewrite Hin in H.
    destruct (DkBatchProcess_compute (p, w)) as [r [p' w']]. cbn [snd] in H.
    apply H; [by right|]. right.
    destruct Hkeep as [Hk|[Hk|Hk]]; [by left|right..].
    + unfold chainEmpty. by destruct (mProcessFunctions p).
    + apply String.eqb_neq in Hk. rewrite Hk. apply andb_false_r.
  - (* no input: compute stops before any call *)
    apply fileExists_false in Hin.
    unfold DkBatchProcess_compute. unfold_monad.
    cbn [mFilePathIn mFilePathOut mMode withIsProcessed].
    rewrite Hin. rewrite if_M.
    destruct (_ && _); unfold_monad; by apply fileExists_false in Hin.
Qed.

Lemma advances_refl (k : Z) (p : DkBatchProcess) : 0 <= k → advances k p p.
Proof.
  intros Hk. split; [apply sameSetup_refl|]. split; [done|].
  split; [lia|done].
Qed.

Lemma advances_trans (k1 k2 : Z) (p p1 p2 : DkBatchProcess) :
  0 <= k1 → 0 <= k2 →
  advances k1 p p1 → advances k2 p1 p2 → advances (k1 + k2) p p2.
Proof.
  intros Hk1 Hk2 (Hs1 & Hp1 & Hf1 & Hl1) (Hs2 & Hp2 & Hf2 & Hl2).
  split; [by eapply sameSetup_trans|]. split; [auto|]. split.
  - intros H0 Hmax. specialize (Hf1 H0). specialize (Hf1 ltac:(lia)).
    specialize (Hf2 ltac:(lia)). specialize (Hf2 ltac:(lia)). lia.
  - intros Hc. etrans; [by apply Hl1|]. apply Hl2.
    destruct Hs1 as (_ & _ & _ & _ & _ & ->). done.
Qed.

Lemma advances_mono (k k' : Z) (p p' : DkBatchProcess) :
  k <= k' → advances k p p' → advances k' p p'.
Proof.
  intros Hk (Hs & Hp & Hf & Hl). split; [done|]. split; [done|].
  split; [|done]. intros H0 Hmax.
  specialize (Hf H0). specialize (Hf ltac:(lia)). lia.
Qed.

Lemma moves_mono {A : Type} (k k' : Z) (m : M A) :
  k <= k' → moves k m → moves k' m.
Proof. intros Hk H p w. eapply advances_mono; [done|apply H]. Qed.

Lemma moves_bind {A B : Type} (k1 k2 : Z) (m : M A) (k : A → M B) :
  0 <= k1 → 0 <= k2 →
  moves k1 m → (∀ a, moves k2 (k a)) → moves (k1 + k2) (bind m k).
Proof.
  intros Hk1 Hk2 Hm Hk p w. unfold bind. specialize (Hm p w).
  destruct (m (p, w)) as [a [p1 w1]]. cbn [fst snd] in *.
  eapply advances_trans; [done|done|done|apply Hk].
Qed.

Lemma moves_bind0 {A B : Type} (k2 : Z) (m : M A) (k : A → M B) :
  0 <= k2 → moves 0 m → (∀ a, moves k2 (k a)) → moves k2 (bind m k).
Proof.
  intros. replace k2 with (0 + k2) by lia. by apply moves_bind.
Qed.

Lemma moves_if {A : Type} (k : Z) (b : bool) (m1 m2 : M A) :
  moves k m1 → moves k m2 → moves k (if b then m1 else m2).
Proof. by destruct b. Qed.

Lemma moves_ret {A : Type} (k : Z) (a : A) : 0 <= k → moves k (ret a).
Proof. intros Hk p w. by apply advances_refl. Qed.

Lemma moves_this (k : Z) : 0 <= k → moves k this.
Proof. intros Hk p w. by apply advances_refl. Qed.

Lemma moves_exists (k : Z) (path : string) :
  0 <= k → moves k (QFileInfo_exists path).
Proof. intros Hk p w. by apply advances_refl. Qed.

Lemma moves_fs {A : Type} (k : Z) (call : World → A * World) :
  0 <= k → moves k (fs call).
Proof.
  intros Hk p w. unfold fs. cbn [snd fst]. destruct (call w).
  by apply advances_refl.
Qed.

Lemma moves_appendLog (k : Z) (line : LogLine) :
  0 <= k → moves k (appendLog line).
Proof.
  intros Hk p w. unfold_monad. split; [by repeat split|]. split; [done|].
  split; [cbn; lia|]. intros _. by apply prefix_app_r.
Qed.

Lemma moves_setBackupFilePath (k : Z) (path : string) :
  0 <= k → moves k (setBackupFilePath path).
Proof.
  intros Hk p w. unfold_monad. split; [by repeat split|]. split; [done|].
  split; [cbn; lia|done].
Qed.

Lemma moves_setIsProcessed (k : Z) : 0 <= k → moves k (setIsProcessed true).
Proof.
  intros Hk p w. unfold_monad. split; [by repeat split|]. split; [done|].
  split; [cbn; lia|done].
Qed.

Lemma moves_incrFailure (k : Z) : 1 <= k → moves k incrFailure.
Proof.
  intros Hk p w. unfold_monad. split; [by repeat split|]. split; [done|].
  split; [|done]. intros H0 Hmax. cbn [mFailure withFailure].
  rewrite incr32_small by lia. lia.
Qed.

Lemma moves_returnNoFailure (k : Z) : 0 <= k → moves k returnNoFailure.
Proof. intros Hk p w. by apply advances_refl. Qed.

Lemma moves_bind_incr {B : Type} (k2 : Z) (k : unit → M B) :
  1 <= k2 → (∀ a, moves (k2 - 1) (k a)) → moves k2 (bind incrFailure k).
Proof.
  intros. replace k2 with (1 + (k2 - 1)) by lia.
  apply moves_bind; [lia|lia|by apply moves_incrFailure|done].
Qed.

Ltac moves_step :=
  first
    [ apply moves_ret; lia
    | apply moves_this; lia
    | apply moves_exists; lia
    | apply moves_fs; lia
    | apply moves_appendLog; lia
    | apply moves_setBackupFilePath; lia
    | apply moves_returnNoFailure; lia
    | apply moves_incrFailure; lia
    | apply moves_if
    | apply moves_bind_incr; [lia|intros ?]
    | apply moves_bind0; [lia| |intros ?] ].

Lemma moves_prepareDeleteExisting : moves 0 prepareDeleteExisting.
Proof. unfold prepareDeleteExisting. repeat moves_step. Qed.

Lemma moves_deleteOrRestoreExisting : moves 0 deleteOrRestoreExisting.
Proof. unfold deleteOrRestoreExisting. repeat moves_step. Qed.

Lemma moves_renameFile : moves 0 renameFile.
Proof. unfold renameFile. repeat moves_step. Qed.

Lemma moves_copyFile : moves 0 copyFile.
Proof.
  unfold copyFile. repeat moves_step.
  all: try apply moves_deleteOrRestoreExisting.
Qed.

Lemma moves_deleteOriginalFile : moves 1 deleteOriginalFile.
Proof.
  unfold deleteOriginalFile. repeat moves_step.
Qed.

(** One turn of the loop of [process]. *)
Lemma afterStep_advances (batch : DkAbstractBatch) (imgC : DkImageContainer)
    (p : DkBatchProcess) :
  (Forall stepAppends (mProcessFunctions p) → OnlyAppends batch) →
  advances 1 p (afterStep batch imgC p).2.
Proof.
  intros Ha. unfold afterStep.
  pose proof (λ H, Ha H imgC (mLogStrings p)) as Hl.
  destruct (compute batch imgC (mLogStrings p))
    as [[[isOk imgC'] l] cInfos]. cbn [fst snd] in *.
  destruct isOk; cbn [snd].
  - split; [by repeat split|]. split; [done|]. split; [cbn; lia|done].
  - split; [by repeat split|]. split; [done|]. split.
    + intros H0 Hmax. cbn. rewrite incr32_small by lia. lia.
    + intros Hc. cbn. unfold append. etrans; [by apply Hl|].
      by apply prefix_app_r.
Qed.

Lemma runChain_advances (chain : list (option DkAbstractBatch)) :
  ∀ (imgC : DkImageContainer) (p : DkBatchProcess) (w : World),
  (Forall stepAppends (mProcessFunctions p) → Forall stepAppends chain) →
  advances (Z.of_nat (length chain)) p (runChain chain imgC (p, w)).2.1.
Proof.
  induction chain as [|[batch|] chain IH]; intros imgC p w Ha.
  - by apply advances_refl.
  - rewrite runChain_cons_Some.
    pose proof (afterStep_advances batch imgC p) as H1.
    destruct (afterStep batch imgC p) as [imgC1 p1]. cbn [snd] in H1.
    replace (Z.of_nat (length (Some batch :: chain)))
      with (1 + Z.of_nat (length chain))
      by (rewrite length_cons, Nat2Z.inj_succ; lia).
    eapply advances_trans; [lia|lia| |].
    + apply H1. intros Hc. specialize (Ha Hc).
      by apply Forall_cons in Ha as [? _].
    + apply IH. intros Hc.
      destruct H1 as [(_ & _ & _ & _ & _ & Hsame) _].
      { intros Hc'. specialize (Ha Hc').
        by apply Forall_cons in Ha as [? _]. }
      rewrite Hsame in Hc. specialize (Ha Hc).
      by apply Forall_cons in Ha as [_ ?].
  - rewrite runChain_cons_None.
    apply (advances_mono (0 + Z.of_nat (length chain)));
      [rewrite length_cons; lia|].
    apply (advances_trans 0 _ p (withLog (mLogStrings p ++ [nullLine]) p));
      [lia|lia| |].
    + split; [by repeat split|]. split; [done|]. split; [cbn; lia|].
      intros _. by apply prefix_app_r.
    + apply IH. cbn. intros Hc. specialize (Ha Hc).
      by apply Forall_cons in Ha as [_ ?].
Qed.

Lemma moves_process_save (imgC : DkImageContainer) :
  moves 2 (process_save imgC).
Proof.
  unfold process_save.
  apply moves_bind0; [lia|apply moves_this; lia|intros p].
  apply moves_bind0; [lia|apply moves_prepareDeleteExisting|intros prepared].
  apply moves_if; [repeat moves_step|].
  apply moves_bind0; [lia|apply moves_fs; lia|intros saved].
  apply (moves_mono (1 + 1)); [lia|].
  apply moves_bind; [lia|lia| |intros _].
  - apply moves_if; repeat moves_step.
  - apply moves_bind0;
      [lia|apply moves_deleteOrRestoreExisting|intros finalized].
    repeat moves_step.
Qed.

Lemma process_advances (p : DkBatchProcess) (w : World) :
  advances (Z.of_nat (length (mProcessFunctions p)) + 2) p
    (process (p, w)).2.1.
Proof.
  pose proof (Nat2Z.is_nonneg (length (mProcessFunctions p))) as Hlen.
  unfold process. unfold_monad. cbn [mFilePathIn withLog].
  set (p0 := withLog _ p).
  assert (H0 : advances 0 p p0).
  { split; [by repeat split|]. split; [done|]. split; [cbn; lia|].
    intros _. by apply prefix_app_r. }
  assert (Hfail : moves 1 (bind (appendLog (Tr "Error while loading..." []))
                             (λ _, bind incrFailure (λ _, ret false)))).
  { repeat moves_step. }
  destruct (loadImage (mFilePathIn p) w) as [[imgC|] w1]; unfold_monad.
  - rewrite if_M. destruct (isNull (image imgC)); unfold_monad.
    + apply (advances_mono (0 + 1)); [lia|].
      apply (advances_trans 0 1 p p0); [lia|lia|done|].
      apply (Hfail p0 w1).
    + replace (Z.of_nat (length (mProcessFunctions p)) + 2)
        with (0 + (Z.of_nat (length (mProcessFunctions p)) + 2)) by lia.
      eapply advances_trans; [lia|lia|done|].
      pose proof (runChain_advances (mProcessFunctions p) imgC p0 w1) as H1.
      destruct (runChain (mProcessFunctions p) imgC (p0, w1))
        as [imgF [p1 w1']]. cbn [fst snd] in H1.
      eapply advances_trans; [lia|lia|by apply H1|].
      apply moves_process_save.
  - apply (advances_mono (0 + 1)); [lia|].
    apply (advances_trans 0 1 p p0); [lia|lia|done|].
    apply (Hfail p0 w1).
Qed.

Lemma compute_advances (p : DkBatchProcess) (w : World) :
  let p' := (DkBatchProcess_compute (p, w)).2.1 in
  advances (Z.of_nat (length (mProcessFunctions p)) + 2) p p'
  ∧ mIsProcessed p' = true.
Proof.
  pose proof (Nat2Z.is_nonneg (length (mProcessFunctions p))) as Hlen.
  set (K := Z.of_nat (length (mProcessFunctions p)) + 2).
  assert (Hrest : ∀ (m : M bool),
            advances K (withIsProcessed true p)
              (m (withIsProcessed true p, w)).2.1 →
            advances K p (m (withIsProcessed true p, w)).2.1
            ∧ mIsProcessed (m (withIsProcessed true p, w)).2.1 = true).
  { intros m H. split.
    - replace K with (0 + K) by lia.
      eapply advances_trans; [lia|lia| |done].
      apply (moves_setIsProcessed 0 ltac:(lia) p w).
    - by apply H. }
  unfold DkBatchProcess_compute. cbv zeta.
  change ((bind (setIsProcessed true) ?k) (p, w))
    with (k tt (withIsProcessed true p, w)).
  apply Hrest. set (q := withIsProcessed true p).
  change (bind this ?k (q, w)) with (k q (q, w)). cbv beta.
  change (bind (QFileInfo_exists ?a) ?k (q, w))
    with (k (fileExists w a) (q, w)). cbv beta.
  change (bind (QFileInfo_exists ?a) ?k (q, w))
    with (k (fileExists w a) (q, w)). cbv beta.
  assert (Hskip : ∀ l1,
            moves K (bind (appendLog l1)
                       (λ _, bind incrFailure (λ _, returnNoFailure)))).
  { intros. subst K. repeat moves_step. }
  repeat (rewrite if_M; case_match).
  - apply (Hskip _ q w).
  - assert (Hm : ∀ l1 l2,
              moves K (bind (appendLog l1) (λ _, bind (appendLog l2)
                         (λ _, bind incrFailure (λ _, returnNoFailure))))).
    { intros. subst K. repeat moves_step. }
    apply (Hm _ _ q w).
  - apply (Hskip _ q w).
  - assert (Hm : moves K (bind renameFile (λ renamed,
                           bind (if negb renamed then incrFailure else ret tt)
                             (λ _, returnNoFailure)))).
    { subst K. apply moves_bind0; [lia|apply moves_renameFile|intros r].
      apply (moves_mono (1 + (Z.of_nat (length (mProcessFunctions p)) + 1)));
        [lia|].
      apply moves_bind; [lia|lia| |intros _; repeat moves_step].
      apply moves_if; repeat moves_step. }
    apply (Hm q w).
  - assert (Hm : moves K (bind copyFile (λ copied,
                           bind (if negb copied then incrFailure
                                 else bind deleteOriginalFile (λ _, ret tt))
                             (λ _, returnNoFailure)))).
    { subst K. apply moves_bind0; [lia|apply moves_copyFile|intros r].
      apply (moves_mono (1 + (Z.of_nat (length (mProcessFunctions p)) + 1)));
        [lia|].
      apply moves_bind; [lia|lia| |intros _; repeat moves_step].
      apply moves_if; [repeat moves_step|].
      apply (moves_mono (1 + 0)); [lia|].
      apply moves_bind; [lia|lia|apply moves_deleteOriginalFile|intros ?].
      repeat moves_step. }
    apply (Hm q w).
  - change (bind process ?k (q, w))
      with (let '(a, s') := process (q, w) in k a s').
    pose proof (process_advances q w) as Hp.
    destruct (process (q, w)) as [r [p1 w1]]. cbn [fst snd] in Hp.
    replace K with (K + 0) by lia.
    eapply advances_trans; [lia|lia|exact Hp|].
    apply (moves_returnNoFailure 0 ltac:(lia)).
Qed.

Lemma compute_ReturnsNoFailure : ReturnsNoFailure DkBatchProcess_compute.
Proof.
  unfold DkBatchProcess_compute.
  repeat first
    [ apply returnNoFailure_ok
    | apply if_ok
    | apply bind_ok; intros ? ].
Qed.

(** Property X17: after compute() the item is processed, whatever happened,
    and its setup - paths, mode, flags, compression, chain - is as it
    was. *)
Theorem compute_marks_processed (p : DkBatchProcess) (w : World) :
  let '(_, (p', _)) := DkBatchProcess_compute (p, w) in
  wasProcessed p' = true ∧ sameSetup p p'.
Proof.
  pose proof (compute_advances p w) as H. cbv zeta in H.
  destruct (DkBatchProcess_compute (p, w)) as [r [p' w']].
  destruct H as [(Hs & _) Hp]. done.
Qed.

(** Property X18: as long as the counter stays within an [int], compute()
    never lowers the failure counter and adds at most the number of steps
    plus two; so it returns [true] only if the item had not failed before
    and nothing failed, and an item that has failed stays failed. *)
Theorem compute_counts_failures (p : DkBatchProcess) (w : World) :
  0 <= mFailure p →
  mFailure p + Z.of_nat (length (mProcessFunctions p)) + 2 <= max_int →
  let '(r, (p', _)) := DkBatchProcess_compute (p, w) in
  mFailure p <= mFailure p'
    <= mFailure p + Z.of_nat (length (mProcessFunctions p)) + 2
  ∧ (r = true → mFailure p = 0 ∧ mFailure p' = 0)
  ∧ (hasFailed p = true → hasFailed p' = true ∧ r = false).
Proof.
  intros H0 Hmax.
  pose proof (compute_advances p w) as H. cbv zeta in H.
  pose proof (compute_ReturnsNoFailure (p, w)) as Hr.
  destruct (DkBatchProcess_compute (p, w)) as [r [p' w']].
  cbn [fst snd] in *.
  destruct H as [(_ & _ & Hf & _) _].
  specialize (Hf H0). specialize (Hf ltac:(lia)).
  split; [lia|]. unfold hasFailed in *. split.
  - intros ->. symmetry in Hr. apply negb_true_iff, negb_false_iff in Hr.
    apply Z.eqb_eq in Hr. lia.
  - intros Hp. apply negb_true_iff, Z.eqb_neq in Hp.
    assert (Hn : (mFailure p' =? 0) = false) by (apply Z.eqb_neq; lia).
    rewrite Hr, Hn. done.
Qed.

(** Property X19: if every step of the chain only adds lines to the log it is
    given - as the resize and the transform step do - then compute() only
    adds lines to the log of the item. *)
Theorem compute_log_grows (p : DkBatchProcess) (w : World) :
  Forall stepAppends (mProcessFunctions p) →
  let '(_, (p', _)) := DkBatchProcess_compute (p, w) in
  mLogStrings p `prefix_of` mLogStrings p'.
Proof.
  intros Hc.
  pose proof (compute_advances p w) as H. cbv zeta in H.
  destruct (DkBatchProcess_compute (p, w)) as [r [p' w']].
  destruct H as [(_ & _ & _ & Hl) _]. by apply Hl.
Qed.

End ItemProperties.

(* ------------------------------------------------------------------ *)
(** * Further properties of the runner *)

Section RunnerProperties.

Context {enums : DkEnums} {qt : QtCore} {lib : ImageLib} {names : FileNames}.

Local Open Scope list_scope.

(** A loop that counts the items passing a test, in an [int]. *)
Lemma count_loop (test : DkBatchProcess → bool) (items : list DkBatchProcess) :
  ∀ n : Z,
  0 <= n → n + Z.of_nat (length items) <= max_int →
  fold_left (λ n batch, if test batch then incr32 n else n) items n
  = n + Z.of_nat (length (filter (λ batch, test batch = true) items)).
Proof.
  induction items as [|batch items IH]; intros n H0 Hmax.
  - cbn. lia.
  - rewrite length_cons in Hmax. cbn [fold_left].
    rewrite filter_cons.
    pose proof (length_filter (λ batch, test batch = true) items) as Hle.
    destruct (test batch) eqn:E.
    + rewrite decide_True by done. rewrite IH.
      * rewrite incr32_small by lia. rewrite length_cons. lia.
      * rewrite incr32_small by lia. lia.
      * rewrite incr32_small by lia. lia.
    + rewrite decide_False by done. rewrite IH; [done|lia|lia].
Qed.

Lemma getNumProcessed_count (b : DkBatchProcessing) :
  Z.of_nat (length (mBatchItems b)) <= max_int →
  getNumProcessed b
  = Z.of_nat (length (filter (λ batch, wasProcessed batch = true)
                        (mBatchItems b))).
Proof.
  intros H. unfold getNumProcessed. rewrite count_loop; [lia|lia|lia].
Qed.

Lemma getNumFailures_count (b : DkBatchProcessing) :
  Z.of_nat (length (mBatchItems b)) <= max_int →
  getNumFailures b
  = Z.of_nat (length (filter (λ batch, hasFailed batch = true)
                        (mBatchItems b))).
Proof.
  intros H. unfold getNumFailures. rewrite count_loop; [lia|lia|lia].
Qed.

Lemma classification_not_computed (item : DkBatchProcess) :
  classification item ≠ batch_item_not_computed ↔ wasProcessed item = true.
Proof.
  pose proof batch_items_distinct as Hd.
  apply NoDup_cons in Hd as [Hn _].
  apply not_elem_of_cons in Hn as [H1 Hn].
  apply not_elem_of_cons in Hn as [H2 _].
  unfold classification.
  destruct (wasProcessed item); [|by split].
  destruct (hasFailed item); split; congruence.
Qed.

Lemma classification_failed (item : DkBatchProcess) :
  classification item = batch_item_failed
  ↔ wasProcessed item = true ∧ hasFailed item = true.
Proof.
  pose proof batch_items_distinct as Hd.
  apply NoDup_cons in Hd as [Hn Hd].
  apply not_elem_of_cons in Hn as [H1 Hn].
  apply not_elem_of_cons in Hn as [H2 _].
  apply NoDup_cons in Hd as [Hn _].
  apply not_elem_of_cons in Hn as [H3 _].
  unfold classification.
  destruct (wasProcessed item); [|split; [congruence|by intros []]].
  destruct (hasFailed item); split; try done; try congruence.
  by intros [].
Qed.

(** The first poll of a runner: every item classified. *)
Lemma getCurrentResults_fresh (items : list DkBatchProcess) :
  getCurrentResults {| mBatchItems := items; mResList := [] |}
  = Some (map classification items,
          {| mBatchItems := items; mResList := map classification items |}).
Proof.
  rewrite getCurrentResults_spec by (by left). cbn [mResList mBatchItems].
  assert (E : zip_with updated
                (replicate (length items) batch_item_not_computed) items
              = map classification items).
  { induction items as [|item items IH]; [done|].
    cbn. by rewrite updated_not_computed, IH. }
  by rewrite E.
Qed.

Lemma length_filter_map {A B : Type} (f : A → B) (P : B → Prop)
    `{∀ x, Decision (P x)} (Q : A → Prop) `{∀ x, Decision (Q x)}
    (l : list A) :
  (∀ x, P (f x) ↔ Q x) →
  length (filter P (map f l)) = length (filter Q l).
Proof.
  intros HPQ. induction l as [|x l IH]; [done|].
  cbn [map]. rewrite !filter_cons.
  destruct (decide (P (f x))) as [Hp|Hp], (decide (Q x)) as [Hq|Hq];
    cbn [length]; try (by rewrite IH); exfalso; by apply HPQ in Hp || apply Hp, HPQ.
Qed.

Lemma length_filter_impl {A : Type} (P Q : A → Prop)
    `{∀ x, Decision (P x)} `{∀ x, Decision (Q x)} (l : list A) :
  (∀ x, P x → Q x) →
  (length (filter P l) ≤ length (filter Q l))%nat.
Proof.
  intros HPQ. induction l as [|x l IH]; [done|].
  rewrite !filter_cons.
  destruct (decide (P x)) as [Hp|Hp], (decide (Q x)) as [Hq|Hq];
    cbn [length]; try lia.
  exfalso. auto.
Qed.

Lemma length_filter_iff {A : Type} (P Q : A → Prop)
    `{∀ x, Decision (P x)} `{∀ x, Decision (Q x)} (l : list A) :
  Forall (λ x, P x ↔ Q x) l →
  length (filter P l) = length (filter Q l).
Proof.
  induction 1 as [|x l Hx Hl IH]; [done|].
  rewrite !filter_cons.
  destruct (decide (P x)) as [Hp|Hp], (decide (Q x)) as [Hq|Hq];
    cbn [length]; try lia; exfalso; tauto.
Qed.

(** Property X20: on a runner that has not been polled, with less than 2^31
    items: getNumProcessed() is the number of entries of
    getCurrentResults() that are not not-computed; getNumFailures() is at
    least the number of failed entries and at most getNumItems(), and it is
    that number if every item that has failed was processed. *)
Theorem counts_agree_with_results (items : list DkBatchProcess) :
  Z.of_nat (length items) <= max_int →
  let b := {| mBatchItems := items; mResList := [] |} in
  ∃ res b',
    getCurrentResults b = Some (res, b')
    ∧ getNumProcessed b =
        Z.of_nat (length (filter (λ r, r ≠ batch_item_not_computed) res))
    ∧ Z.of_nat (length (filter (λ r, r = batch_item_failed) res))
        <= getNumFailures b <= getNumItems b
    ∧ getNumProcessed b <= getNumItems b
    ∧ (Forall (λ item, hasFailed item = true → wasProcessed item = true) items →
       getNumFailures b =
         Z.of_nat (length (filter (λ r, r = batch_item_failed) res))).
Proof.
  intros Hmax b. eexists _, _. split; [apply getCurrentResults_fresh|].
  rewrite getNumProcessed_count, getNumFailures_count by done.
  unfold getNumItems. subst b. cbn [mBatchItems].
  rewrite (length_filter_map classification
             (λ r, r ≠ batch_item_not_computed)
             (λ item, wasProcessed item = true))
    by apply classification_not_computed.
  rewrite (length_filter_map classification
             (λ r, r = batch_item_failed)
             (λ item, wasProcessed item = true ∧ hasFailed item = true))
    by apply classification_failed.
  split; [done|].
  pose proof (length_filter (λ batch, hasFailed batch = true) items).
  pose proof (length_filter (λ batch, wasProcessed batch = true) items).
  pose proof (length_filter_impl
                (λ item, wasProcessed item = true ∧ hasFailed item = true)
                (λ batch, hasFailed batch = true) items) as Hsub.
  specialize (Hsub ltac:(by intros ? [_ ?])).
  split; [lia|]. split; [lia|].
  intros Hinv. f_equal. symmetry. apply length_filter_iff.
  eapply Forall_impl; [exact Hinv|]. cbv beta. tauto.
Qed.

Lemma getResultList_loop (items : list DkBatchProcess) :
  ∀ results : list (list Piece),
  fold_left
    (λ results batch,
       if wasProcessed batch then results ++ [getBatchSummary batch]
       else results) items results
  = results
    ++ map getBatchSummary (filter (λ batch, wasProcessed batch = true) items).
Proof.
  induction items as [|batch items IH]; intros results.
  - cbn. by rewrite app_nil_r.
  - cbn [fold_left]. rewrite filter_cons, IH.
    destruct (wasProcessed batch) eqn:E.
    + rewrite decide_True by done. cbn [map]. by rewrite <- app_assoc.
    + by rewrite decide_False by done.
Qed.

(** Property X21: getResultList() has one summary for each processed item, in
    the order of the items, so as many as getNumProcessed() counts; a
    summary starts with the input path and a tab, and is tagged OK exactly
    if the item has not failed and FAIL exactly if it has. *)
Theorem getResultList_lists_processed (b : DkBatchProcessing) :
  Z.of_nat (length (mBatchItems b)) <= max_int →
  getResultList b =
    map getBatchSummary
      (filter (λ batch, wasProcessed batch = true) (mBatchItems b))
  ∧ Z.of_nat (length (getResultList b)) = getNumProcessed b
  ∧ ∀ batch,
      head (getBatchSummary batch) = Some (Lit (inputFile batch ++ tab))
      ∧ (In (Translated "[OK]") (getBatchSummary batch)
         ↔ hasFailed batch = false)
      ∧ (In (Translated "[FAIL]") (getBatchSummary batch)
         ↔ hasFailed batch = true).
Proof.
  intros Hmax.
  assert (E : getResultList b =
              map getBatchSummary
                (filter (λ batch, wasProcessed batch = true) (mBatchItems b))).
  { unfold getResultList. by rewrite getResultList_loop. }
  split; [done|]. split.
  - rewrite E, length_map. symmetry. by apply getNumProcessed_count.
  - intros batch. unfold getBatchSummary.
    destruct (hasFailed batch); cbn [negb app head In].
    + split; [done|]. split; split; try done; intuition congruence.
    + split; [done|]. split; split; try done; intuition congruence.
Qed.

Lemma init_loop_spec (config : DkBatchConfig.t) (fileList : list string) :
  ∀ (idx : nat) (batchItems : list DkBatchProcess),
  init_loop config fileList idx batchItems
  = batchItems ++ imap (λ i file, init_item config (idx + i) file) fileList.
Proof.
  induction fileList as [|file fileList IH]; intros idx batchItems.
  - cbn. by rewrite app_nil_r.
  - cbn [init_loop imap]. rewrite IH, <- app_assoc. cbn [app].
    rewrite Nat.add_0_r. do 2 f_equal. apply imap_ext.
    intros i x _. cbn. f_equal. lia.
Qed.

Lemma init_items (config : DkBatchConfig.t) (b : DkBatchProcessing) :
  mBatchItems (init config b)
  = imap (init_item config) (DkBatchConfig.mFileList config).
Proof. unfold init. cbn [mBatchItems]. by rewrite init_loop_spec. Qed.

Lemma init_item_fresh (config : DkBatchConfig.t) (idx : nat) (file : string) :
  hasFailed (init_item config idx file) = false
  ∧ wasProcessed (init_item config idx file) = false.
Proof. done. Qed.

Lemma count_none (test : DkBatchProcess → bool) (items : list DkBatchProcess) :
  Forall (λ item, test item = false) items →
  ∀ n, fold_left (λ n batch, if test batch then incr32 n else n) items n = n.
Proof.
  induction 1 as [|item items Hi _ IH]; intros n; [done|].
  cbn [fold_left]. by rewrite Hi, IH.
Qed.

(** Property X22: init() makes one item per entry of the file list, in order:
    the entry is its input, its output is the converted name in the output
    directory (or in the directory of the input), mode, flag, chain and
    compression are those of the configuration, and it has neither failed
    nor been processed; so both counts are 0 and the first poll of a new
    runner returns not-computed for every file.  The result list is not
    touched. *)
Theorem init_sets_up_items (config : DkBatchConfig.t)
    (b : DkBatchProcessing) :
  let b' := init config b in
  length (mBatchItems b') = length (DkBatchConfig.mFileList config)
  ∧ mResList b' = mResList b
  ∧ (∀ idx file,
       DkBatchConfig.mFileList config !! idx = Some file →
       ∃ item,
         mBatchItems b' !! idx = Some item
         ∧ inputFile item = file
         ∧ outputFile item =
             filePathIn
               (if DkBatchConfig.mInputDirIsOutputDir config
                then absolutePath file
                else DkBatchConfig.mOutputDirPath config)
               (getConvertedFileName (QFileInfo_fileName file)
                  (DkBatchConfig.mFileNamePattern config) (Z.of_nat idx))
         ∧ mMode item = DkBatchConfig.mMode config
         ∧ mDeleteOriginal item = DkBatchConfig.mDeleteOriginal config
         ∧ mCompression item = DkBatchConfig.mCompression config
         ∧ mProcessFunctions item = DkBatchConfig.mProcessFunctions config
         ∧ mBackupFilePath item = EmptyString
         ∧ hasFailed item = false ∧ wasProcessed item = false)
  ∧ getNumProcessed b' = 0 ∧ getNumFailures b' = 0
  ∧ (mResList b = [] →
     ∃ b'',
       getCurrentResults b' =
         Some (replicate (length (DkBatchConfig.mFileList config))
                 batch_item_not_computed, b'')).
Proof.
  cbv zeta. rewrite !init_items.
  assert (Hfresh : Forall (λ item, hasFailed item = false
                                   ∧ wasProcessed item = false)
             (imap (init_item config) (DkBatchConfig.mFileList config))).
  { apply Forall_lookup. intros i item Hi.
    apply list_lookup_imap_Some in Hi as (file & _ & ->).
    apply init_item_fresh. }
  split; [by rewrite length_imap|]. split; [done|]. split.
  { intros idx file Hf. eexists. split.
    - rewrite list_lookup_imap, Hf. done.
    - repeat split. }
  unfold getNumProcessed, getNumFailures. rewrite !init_items.
  split; [|split].
  - apply count_none. eapply Forall_impl; [exact Hfresh|]. by intros ? [_ ?].
  - apply count_none. eapply Forall_impl; [exact Hfresh|]. by intros ? [? _].
  - intros Hres. eexists.
    replace (init config b)
      with {| mBatchItems := imap (init_item config)
                               (DkBatchConfig.mFileList config);
              mResList := [] |}.
    2: { unfold init. rewrite init_loop_spec, Hres. done. }
    rewrite getCurrentResults_fresh. do 2 f_equal.
    apply list_eq. intros i.
    rewrite list_lookup_fmap, list_lookup_imap.
    destruct (DkBatchConfig.mFileList config !! i) as [file|] eqn:Hf; cbn.
    + rewrite lookup_replicate_2 by (by eapply lookup_lt_Some). done.
    + symmetry. apply lookup_replicate_None. by apply lookup_ge_None.
Qed.

(** Property X23: init() leaves the result list as it is: on a runner whose
    result list is classified throughout and as long as the file list,
    getCurrentResults() after init() returns that list again, whatever the
    new items are. *)
Theorem init_keeps_result_list (config : DkBatchConfig.t)
    (b : DkBatchProcessing) :
  mResList b ≠ [] →
  length (mResList b) = length (DkBatchConfig.mFileList config) →
  Forall (λ r, r ≠ batch_item_not_computed) (mResList b) →
  ∃ b',
    getCurrentResults (init config b) = Some (mResList b, b')
    ∧ mBatchItems b' = mBatchItems (init config b).
Proof.
  intros Hne Hlen Hall.
  rewrite getCurrentResults_spec.
  2: { right. rewrite init_items, length_imap. done. }
  rewrite !init_items. cbn [mResList init].
  destruct (mResList b) as [|r l] eqn:E; [done|].
  rewrite <- E in *. clear E r l Hne.
  assert (Hz : ∀ (res : list Z) (items : list DkBatchProcess),
            length res = length items →
            Forall (λ r, r ≠ batch_item_not_computed) res →
            zip_with updated res items = res).
  { induction res as [|r res IH]; intros [|item items] Hl Hf; try done.
    apply Forall_cons in Hf as [Hr Hf]. cbn.
    rewrite updated_classified by done. f_equal. apply IH; [|done].
    cbn in Hl. lia. }
  rewrite Hz; [eauto|by rewrite length_imap|done].
Qed.

Lemma length_filter_map_iff {A B : Type} (f : A → B) (P : B → Prop)
    `{∀ x, Decision (P x)} (Q : A → Prop) `{∀ x, Decision (Q x)}
    (l : list A) :
  Forall (λ x, P (f x) ↔ Q x) l →
  length (filter P (map f l)) = length (filter Q l).
Proof.
  induction 1 as [|x l Hx Hl IH]; [done|].
  cbn [map]. rewrite !filter_cons.
  destruct (decide (P (f x))) as [Hp|Hp], (decide (Q x)) as [Hq|Hq];
    cbn [length]; try lia; exfalso; tauto.
Qed.

Lemma length_filter_all {A : Type} (P : A → Prop) `{∀ x, Decision (P x)}
    (l : list A) :
  Forall P l → length (filter P l) = length l.
Proof.
  induction 1 as [|x l Hx Hl IH]; [done|].
  rewrite filter_cons, decide_True by done. cbn [length]. lia.
Qed.

(** Property X24: once computeItem has run on every item, each on the files it
    found: getNumProcessed() is getNumItems(), getNumFailures() is the
    number of calls that returned [false], and getCurrentResults() on the
    new runner lists succeeded or failed for each item according to the
    answer of its call. *)
Theorem all_items_computed (items : list DkBatchProcess)
    (worlds : list World) :
  Z.of_nat (length items) <= max_int →
  length worlds = length items →
  let outcomes := zip_with (λ item w, computeItem (item, w)) items worlds in
  let b := {| mBatchItems := map (λ o, o.2.1) outcomes; mResList := [] |} in
  getNumProcessed b = getNumItems b
  ∧ getNumItems b = Z.of_nat (length items)
  ∧ getNumFailures b =
      Z.of_nat (length (filter (λ o, o.1 = false) outcomes))
  ∧ ∃ b',
      getCurrentResults b = Some (map (λ o, verdictEntry o.1) outcomes, b').
Proof.
  intros Hmax Hlen outcomes b.
  assert (Hl : length outcomes = length items).
  { subst outcomes. rewrite length_zip_with. lia. }
  assert (Hall : Forall (λ o : bool * (DkBatchProcess * World),
                           wasProcessed o.2.1 = true
                           ∧ o.1 = negb (hasFailed o.2.1)) outcomes).
  { apply Forall_lookup. intros i o Hi. subst outcomes.
    apply lookup_zip_with_Some in Hi as (item & w & -> & _ & _).
    split.
    - by destruct (compute_advances item w) as [_ ?].
    - apply compute_ReturnsNoFailure. }
  rewrite getNumProcessed_count, getNumFailures_count
    by (subst b; cbn [mBatchItems]; rewrite length_map; lia).
  unfold getNumItems. subst b. cbn [mBatchItems]. rewrite length_map, Hl.
  split; [|split; [done|split]].
  - f_equal. rewrite <- Hl, <- (length_map (λ o, o.2.1) outcomes).
    apply length_filter_all. apply Forall_fmap.
    eapply Forall_impl; [exact Hall|]. by intros ? [? _].
  - f_equal. apply length_filter_map_iff.
    eapply Forall_impl; [exact Hall|]. intros o [_ ->]. cbv beta.
    by destruct (hasFailed o.2.1).
  - eexists. rewrite getCurrentResults_fresh. do 2 f_equal.
    rewrite <- list_fmap_compose. apply Forall_fmap_ext.
    eapply Forall_impl; [exact Hall|]. intros o [Hp ->]. cbn.
    unfold classification, verdictEntry. rewrite Hp.
    by destruct (hasFailed o.2.1).
Qed.

(** Property X25: a configuration as the constructor leaves it is in the
    skip-existing mode, so for every item which init() makes of it,
    computeItem on an output that exists returns [false], marks the item
    failed and processed, and leaves the world as it was. *)
Theorem new_config_skips_existing (blank : DkBatchConfig.t)
    (fileList : list string) (outputDir fileNamePattern : string)
    (b : DkBatchProcessing) (item : DkBatchProcess) (w : World) :
  In item
    (mBatchItems
       (init (DkBatchConfig_new blank fileList outputDir fileNamePattern) b)) →
  fileExists w (outputFile item) = true →
  ∃ p',
    computeItem (item, w) = (false, (p', w))
    ∧ hasFailed p' = true ∧ wasProcessed p' = true.
Proof.
  intros Hin Hout. rewrite init_items in Hin.
  apply list_elem_of_In, elem_of_lookup_imap in Hin as (idx & file & -> & _).
  unfold computeItem, DkBatchProcess_compute. unfold_monad.
  unfold outputFile in Hout.
  cbn [mFilePathIn mFilePathOut mMode withIsProcessed init_item setMode
       setCompression setProcessChain setDeleteOriginal DkBatchProcess_new
       DkBatchConfig.mMode DkBatchConfig_new DkBatchConfig_init] in *.
  rewrite Hout, Z.eqb_refl. unfold_monad. eexists. split; [done|].
  done.
Qed.

End RunnerProperties.

(* ------------------------------------------------------------------ *)
(** * The configuration *)

Section ConfigProperties.

Context {enums : DkEnums} {qt : QtCore} {lib : ImageLib}.

(** Property X26: isOk() answers [true] exactly if the output directory path
    is not empty, the directory exists or can be made, the file list is not
    empty and the pattern is not empty; then the directory exists
    afterwards.  No directory is ever removed. *)
Theorem isOk_validates (c : DkBatchConfig.t) (d : Directories) :
  let path := DkBatchConfig.mOutputDirPath c in
  let '(ok, d') := isOk c d in
  (ok = true ↔
     path ≠ EmptyString
     ∧ (path ∈ existing d ∨ creatable d path = true)
     ∧ DkBatchConfig.mFileList c ≠ []
     ∧ DkBatchConfig.mFileNamePattern c ≠ EmptyString)
  ∧ (ok = true → path ∈ existing d')
  ∧ existing d ⊆ existing d'.
Proof.
  cbv zeta. unfold isOk, QDir_mkpath, QDir_exists.
  destruct (String.eqb_spec (DkBatchConfig.mOutputDirPath c) EmptyString)
    as [He|He].
  { split; [|done]. split; [done|]. by intros [? _]. }
  destruct (bool_decide_reflect
              (DkBatchConfig.mOutputDirPath c ∈ existing d)) as [Hd|Hd];
    cbn [negb].
  - destruct (DkBatchConfig.mFileList c) as [|f l].
    { split; [|done]. split; [done|]. by intros (_ & _ & ? & _). }
    destruct (String.eqb_spec (DkBatchConfig.mFileNamePattern c) EmptyString)
      as [Hp|Hp].
    { split; [|done]. split; [done|]. by intros (_ & _ & _ & ?). }
    split; [|done]. split; [|done]. intros _. eauto.
  - destruct (creatable d (DkBatchConfig.mOutputDirPath c)) eqn:Hc;
      cbn [negb].
    + destruct (DkBatchConfig.mFileList c) as [|f l].
      { split; [|split; [done|cbn; set_solver]].
        split; [done|]. by intros (_ & _ & ? & _). }
      destruct (String.eqb_spec (DkBatchConfig.mFileNamePattern c)
                  EmptyString) as [Hp|Hp].
      { split; [|split; [done|cbn; set_solver]].
        split; [done|]. by intros (_ & _ & _ & ?). }
      split; [|split; cbn; set_solver].
      split; [|done]. intros _. eauto.
    + split; [|done]. split; [done|]. intros (_ & [?|?] & _); done.
Qed.

(** Property X27: isOk() makes the output directory before it looks at the
    file list and the pattern: if the directory is missing and can be made
    it exists afterwards, also when the answer is [false] - which it is
    exactly if the file list or the pattern is empty. *)
Theorem isOk_creates_directory_first (c : DkBatchConfig.t) (d : Directories) :
  let path := DkBatchConfig.mOutputDirPath c in
  path ≠ EmptyString → path ∉ existing d → creatable d path = true →
  let '(ok, d') := isOk c d in
  existing d' = {[ path ]} ∪ existing d
  ∧ (ok = false ↔
       DkBatchConfig.mFileList c = []
       ∨ DkBatchConfig.mFileNamePattern c = EmptyString).
Proof.
  cbv zeta. intros He Hd Hc. unfold isOk, QDir_mkpath, QDir_exists.
  apply String.eqb_neq in He. rewrite He.
  rewrite bool_decide_eq_false_2 by done. cbn [negb]. rewrite Hc. cbn [negb].
  destruct (DkBatchConfig.mFileList c) as [|f l].
  { split; [done|]. split; eauto. }
  destruct (String.eqb_spec (DkBatchConfig.mFileNamePattern c) EmptyString)
    as [Hp|Hp].
  { split; [done|]. split; eauto. }
  split; [done|]. split; [done|]. by intros [|].
Qed.

End ConfigProperties.

(* ------------------------------------------------------------------ *)
(** * The plugin step *)

Section PluginProperties.

Context {host : PluginHost}.

Local Open Scope list_scope.

Lemma loadAllPlugins_loop_spec (pluginList : list string) :
  ∀ (s : DkPluginBatch) (state : PluginState),
  let '(s', _) := loadAllPlugins_loop pluginList s state in
  mPluginList s' = mPluginList s
  ∧ mPlugins s' = mPlugins s ++ map (λ d, (loadPlugin d).1) pluginList
  ∧ mRunIDs s' = mRunIDs s ++ map (λ d, (loadPlugin d).2) pluginList.
Proof.
  induction pluginList as [|d pluginList IH]; intros s state.
  - cbn. by rewrite !app_nil_r.
  - cbn [loadAllPlugins_loop map].
    destruct (loadPlugin d) as [pluginContainer runID].
    match goal with
    | |- context [loadAllPlugins_loop pluginList ?s1 ?st] =>
        specialize (IH s1 st);
        destruct (loadAllPlugins_loop pluginList s1 st) as [s' state']
    end.
    cbn in IH. destruct IH as (-> & -> & ->).
    by rewrite <- !app_assoc.
Qed.

(** One turn of the loop of [compute] adds to the infos exactly if the
    plugin is run through the batch interface, and only adds to the log. *)
Lemma DkPluginBatch_loop_spec (n : nat) (s : DkPluginBatch) :
  ∀ (idx : nat) (container : option Pointer) (logStrings : list LogLine)
    (batchInfos : list (option DkBatchInfo)) (state : PluginState),
  (idx + n ≤ length (mPlugins s))%nat →
  length (mPlugins s) = length (mRunIDs s) →
  ∃ container' lines infos state',
    DkPluginBatch_loop n idx s container logStrings batchInfos state
    = Some (container', logStrings ++ lines, batchInfos ++ infos, state')
    ∧ length infos
      = length (filter (λ e, runsAsBatch e = true)
                  (take n (drop idx (mPlugins s))))
    ∧ (Forall (λ e, e = None) (take n (drop idx (mPlugins s))) →
       container' = container ∧ state' = state
       ∧ lines = replicate n nullPluginLine).
Proof.
  induction n as [|n IH];
    intros idx container logStrings batchInfos state Hn Hlen.
  - eexists container, [], [], state. cbn. by rewrite !app_nil_r.
  - cbn [DkPluginBatch_loop].
    destruct (lookup_lt_is_Some_2 (mPlugins s) idx) as [entry He]; [lia|].
    destruct (lookup_lt_is_Some_2 (mRunIDs s) idx) as [runID Hr]; [lia|].
    rewrite He, Hr. rewrite (drop_S _ _ _ He). cbn [take].
    rewrite filter_cons.
    assert (Hturn : ∃ c1 l1 i1 st1,
      match entry with
      | Some plugin =>
          match interfaceType plugin with
          | Some type =>
              if (type =? interface_basic) || (type =? interface_batch)
              then
                let '(result, logStrings, batchInfos, state) :=
                  if type =? interface_basic then
                    let '(result, state) :=
                      runPlugin plugin runID container state in
                    (result, logStrings, batchInfos, state)
                  else if type =? interface_batch then
                    let '(result, info, logStrings, state) :=
                      if hasBatchPlugin plugin then
                        let '(result, info, state) :=
                          runBatchPlugin plugin runID container state in
                        (result, info, logStrings, state)
                      else
                        (None, None,
                         append logStrings
                           (Tr "%1 Cannot cast batch plugin %2."
                              [AStr DkPluginBatch_name;
                               AStr (pluginName plugin)]),
                         state) in
                    (result, logStrings, batchInfos ++ [info], state)
                  else (None, logStrings, batchInfos, state) in
                match result with
                | Some r =>
                    if hasImage r state
                    then (Some r, logStrings, batchInfos, state)
                    else
                      (container,
                       append logStrings
                         (Tr "%1 Cannot apply %2."
                            [AStr DkPluginBatch_name;
                             AStr (pluginName plugin)]),
                       batchInfos, state)
                | None =>
                    (container,
                     append logStrings
                       (Tr "%1 Cannot apply %2."
                          [AStr DkPluginBatch_name;
                           AStr (pluginName plugin)]),
                     batchInfos, state)
                end
              else
                (container,
                 append logStrings
                   (Tr "%1 illegal plugin interface: %2"
                      [AStr DkPluginBatch_name; AStr (pluginName plugin)]),
                 batchInfos, state)
          | None =>
              (container,
               append logStrings
                 (Tr "%1 illegal plugin interface: %2"
                    [AStr DkPluginBatch_name; AStr (pluginName plugin)]),
               batchInfos, state)
          end
      | None =>
          (container,
           append logStrings
             (Tr "%1 Cannot apply plugin because it is NULL."
                [AStr DkPluginBatch_name]),
           batchInfos, state)
      end = (c1, logStrings ++ l1, batchInfos ++ i1, st1)
      ∧ length i1 = (if runsAsBatch entry then 1 else 0)%nat
      ∧ (entry = None →
         c1 = container ∧ st1 = state ∧ l1 = [nullPluginLine])).
    { unfold runsAsBatch, append. destruct entry as [plugin|].
      2: { eexists _, [_], [], _. rewrite app_nil_r. done. }
      destruct (interfaceType plugin) as [type|].
      2: { eexists _, [_], [], _. rewrite app_nil_r. done. }
      destruct (type =? interface_basic) eqn:Eb.
      { apply Z.eqb_eq in Eb. subst type.
        pose proof interfaces_distinct as Hd. apply Z.eqb_neq in Hd.
        rewrite Hd. cbn [orb].
        destruct (runPlugin plugin runID container state) as [[r|] st1].
        - destruct (hasImage r st1).
          + eexists _, [], [], _. by rewrite !app_nil_r.
          + eexists _, [_], [], _. by rewrite !app_nil_r.
        - eexists _, [_], [], _. by rewrite !app_nil_r. }
      cbn [orb]. destruct (type =? interface_batch) eqn:Et.
      2: { eexists _, [_], [], _. rewrite app_nil_r. done. }
      destruct (hasBatchPlugin plugin).
      - destruct (runBatchPlugin plugin runID container state)
          as [[[r|] info] st1].
        + destruct (hasImage r st1).
          * eexists _, [], [_], _. by rewrite !app_nil_r.
          * eexists _, [_], [_], _. done.
        + eexists _, [_], [_], _. done.
      - eexists _, [_; _], [_], _. rewrite <- app_assoc. done. }
    destruct Hturn as (c1 & l1 & i1 & st1 & -> & Hi1 & Hnull).
    destruct (IH (S idx) c1 (logStrings ++ l1) (batchInfos ++ i1) st1)
      as (c' & lines & infos & st' & -> & Hi & Hall); [lia|done|].
    eexists c', (l1 ++ lines), (i1 ++ infos), st'.
    rewrite !app_assoc. split; [done|]. split.
    + rewrite length_app, Hi, Hi1.
      destruct (runsAsBatch entry).
      * by rewrite decide_True by done.
      * by rewrite decide_False by done.
    + intros Hf. apply Forall_cons in Hf as [-> Hf].
      destruct (Hnull eq_refl) as (-> & -> & ->).
      destruct (Hall Hf) as (-> & -> & ->). done.
Qed.

(** Property X28: preLoad() adds one entry to mPlugins and one to mRunIDs for
    every descriptor of the plugin list, resolved or not, and keeps what was
    there: lists of equal length stay so, and on such lists the loop of
    compute() never reads mRunIDs out of range, so compute() has a
    result. *)
Theorem plugin_lists_stay_aligned (s : DkPluginBatch) (state : PluginState) :
  length (mPlugins s) = length (mRunIDs s) →
  let '(s', _) := preLoad s state in
  mPluginList s' = mPluginList s
  ∧ length (mPlugins s') = length (mRunIDs s')
  ∧ (length (mPlugins s')
     = length (mPlugins s) + length (mPluginList s))%nat
  ∧ ∀ container logStrings batchInfos state',
      is_Some
        (DkPluginBatch_compute s' container logStrings batchInfos state').
Proof.
  intros Hlen. unfold preLoad, loadAllPlugins.
  pose proof (loadAllPlugins_loop_spec (mPluginList s) s state) as H.
  destruct (loadAllPlugins_loop (mPluginList s) s state) as [s' state1].
  destruct H as (Hl & Hp & Hr).
  assert (Hlen' : length (mPlugins s') = length (mRunIDs s')).
  { rewrite Hp, Hr, !length_app, !length_map. lia. }
  split; [done|]. split; [done|].
  split; [by rewrite Hp, length_app, length_map|].
  intros container logStrings batchInfos state'.
  unfold DkPluginBatch_compute.
  destruct (negb (DkPluginBatch_isActive s')); [done|].
  destruct (DkPluginBatch_loop_spec (length (mPlugins s')) s' 0 container
              logStrings batchInfos state')
    as (c' & lines & infos & st' & -> & _); [lia|done|].
  by destruct (negb _).
Qed.

(** Property X29: an active plugin step none of whose plugins could be
    loaded leaves the state and the infos alone, logs one line per entry,
    and answers whether the container has an image: with an image it logs
    that the plugins were applied and succeeds. *)
Theorem unresolved_plugins_do_not_fail (s : DkPluginBatch)
    (container : Pointer) (logStrings : list LogLine)
    (batchInfos : list (option DkBatchInfo)) (state : PluginState) :
  DkPluginBatch_isActive s = true →
  length (mPlugins s) = length (mRunIDs s) →
  Forall (λ e, e = None) (mPlugins s) →
  DkPluginBatch_compute s (Some container) logStrings batchInfos state
  = Some (hasImage container state,
          logStrings ++ replicate (length (mPlugins s)) nullPluginLine
          ++ [if hasImage container state
              then Tr "%1 plugins applied." [AStr DkPluginBatch_name]
              else Tr "%1 error, could not apply plugins."
                     [AStr DkPluginBatch_name]],
          batchInfos, state).
Proof.
  intros Ha Hlen Hnull. unfold DkPluginBatch_compute. rewrite Ha. cbn [negb].
  destruct (DkPluginBatch_loop_spec (length (mPlugins s)) s 0
              (Some container) logStrings batchInfos state)
    as (c' & lines & infos & st' & -> & Hi & Hall); [lia|done|].
  rewrite drop_0, firstn_all in Hi, Hall.
  destruct (Hall Hnull) as (-> & -> & ->).
  assert (infos = []) as ->.
  { apply length_zero_iff_nil. rewrite Hi.
    clear -Hnull. induction Hnull as [|e l -> _ IH]; [done|].
    by rewrite filter_cons, decide_False by done. }
  rewrite app_nil_r. unfold append.
  destruct (hasImage container state); cbn [negb];
    by rewrite <- app_assoc.
Qed.

(** Property X30: on lists of equal length, compute() of the plugin step
    only adds to the log - at least one line - and to the infos: an active
    step pushes exactly one info, null or not, for every plugin that is run
    through the batch interface, an inactive one none. *)
Theorem plugin_infos_one_per_batch_plugin (s : DkPluginBatch)
    (container : option Pointer) (logStrings : list LogLine)
    (batchInfos : list (option DkBatchInfo)) (state : PluginState) :
  length (mPlugins s) = length (mRunIDs s) →
  ∃ ok lines infos state',
    DkPluginBatch_compute s container logStrings batchInfos state
    = Some (ok, logStrings ++ lines, batchInfos ++ infos, state')
    ∧ lines ≠ []
    ∧ length infos
      = if DkPluginBatch_isActive s
        then length (filter (λ e, runsAsBatch e = true) (mPlugins s))
        else 0%nat.
Proof.
  intros Hlen. unfold DkPluginBatch_compute, append.
  destruct (DkPluginBatch_isActive s); cbn [negb].
  2: { eexists _, [_], [], _. by rewrite app_nil_r. }
  destruct (DkPluginBatch_loop_spec (length (mPlugins s)) s 0 container
              logStrings batchInfos state)
    as (c' & lines & infos & st' & -> & Hi & _); [lia|done|].
  rewrite drop_0, firstn_all in Hi.
  destruct (negb _); eexists _, (lines ++ [_]), infos, _;
    rewrite app_assoc; (split; [done|]); (split; [|done]);
    by destruct lines.
Qed.

End PluginProperties.

(* ------------------------------------------------------------------ *)
(** * The engine on concrete items

    The theorems above, applied to items over the stand-ins, and the runs
    on which a statement of the specification does not hold. *)

Section Scenarios.

Import Standin.

#[local] Existing Instance Standin.enums.
#[local] Existing Instance Standin.qt.
#[local] Existing Instance Standin.lib.


Lemma call_eq {A : Type} (x : A * World) (a : A) :
  x.1 = a → x = (a, x.2).
Proof. destruct x as [? ?]. simpl. by intros ->. Qed.

(** The skip of an existing output, on an item whose output exists. *)
Lemma compute_skips_existing_witness :
  let p := item "/in/a.png" "/out/a.jpg" mode_skip_existing false [] in
  let w := world twoFiles in
  fileExists w (mFilePathOut p) = true
  ∧ mMode p = mode_skip_existing
  ∧ 0 <= mFailure p < max_int
  ∧ ∃ p', DkBatchProcess_compute (p, w) = (false, (p', w))
          ∧ hasFailed p' = true.
Proof.
  intros p w.
  assert (H1 : fileExists w (mFilePathOut p) = true) by reflexivity.
  assert (H2 : mMode p = mode_skip_existing) by reflexivity.
  assert (H3 : 0 <= mFailure p < max_int) by (by vm_compute).
  split; [exact H1|]. split; [exact H2|]. split; [exact H3|].
  destruct (compute_skips_existing p w H1 H2 H3)
    as (p' & Hc & _ & _ & Hf & _).
  exists p'. split; [exact Hc|exact Hf].
Defined.

(** Long side to 200 px, increase only, on a photo of 400 x 300: the step
    would have to shrink the photo and leaves it alone. *)
Lemma resize_is_noop_witness :
  let c := container photo (0, 0) in
  (Float32.eqb (mScaleFactor longSide200) one = true
   ∨ (rMode longSide200 ≠ mode_default
      ∧ specPolicyForbids longSide200 (imageSize (image c)) = true))
  ∧ ∃ lines, compute (resizeStep longSide200) c [] = (true, c, lines, []).
Proof.
  intros c.
  assert (H : Float32.eqb (mScaleFactor longSide200) one = true
              ∨ (rMode longSide200 ≠ mode_default
                 ∧ specPolicyForbids longSide200 (imageSize (image c))
                   = true))
    by (right; split; [discriminate|reflexivity]).
  split; [exact H|].
  destruct (resize_is_noop longSide200 c [] H) as [lines Hl].
  exists lines. exact Hl.
Defined.

(** Claim C6 fails as stated: at half the size in the default mode, under
    the increase-only policy, on a photo of 400 x 300.  The scale factor
    is below 1 - the configured one, and all the more the configured one
    divided by the width -, so the policy forbids the change and the
    specification has the step leave the image alone; compute() answers
    [true] and puts the resized image into the container, the policy not
    being consulted in this mode. *)
Lemma default_mode_resizes_against_policy :
  let s := halfSize in
  let c := container photo (0, 0) in
  mProperty s = prop_increase_only
  ∧ ltb (specScaleFactor s (imageSize (image c))) one = true
  ∧ ltb (div (mScaleFactor s) (of_int (QSize.width (imageSize (image c)))))
      one = true
  ∧ specNoResize s (imageSize (image c)) = true
  ∧ let '(isOk, c', logStrings, _) := compute (resizeStep s) c [] in
    isOk = true
    ∧ image c' = Resized QSize.default (mScaleFactor s) photo
    ∧ image c' ≠ image c
    ∧ logStrings =
        [Tr "%1 image resized, scale factor: %2%"
           [AStr DkResizeBatch_name; AFloat (mul (mScaleFactor s) hundred)]].
Proof.
  intros s c.
  split; [reflexivity|]. split; [by vm_compute|]. split; [by vm_compute|].
  split; [by vm_compute|].
  assert (H1 : rMode s = mode_default) by reflexivity.
  assert (H2 : Float32.eqb (mScaleFactor s) one = false) by (by vm_compute).
  cbn [compute resizeStep].
  unfold DkAbstractBatch_compute3, DkAbstractBatch_compute2,
    DkResizeBatch_compute, prepareProperties, append.
  rewrite H2, H1, Z.eqb_refl.
  cbn. repeat split. discriminate.
Qed.

(** A factor of exactly 1 is ignored in the default mode, whatever the
    policy. *)
Example resize_by_one_is_ignored :
  let s := {| mScaleFactor := one; rMode := mode_default;
              mProperty := prop_decrease_only; mIplMethod := 0;
              mCorrectGamma := true |} in
  let c := container photo (0, 0) in
  compute (resizeStep s) c [] =
    (true, c,
     [Tr "%1 scale factor is 1 -> ignoring" [AStr DkResizeBatch_name]], []).
Proof. reflexivity. Qed.

(** Height to 600 px, decrease only, on a photo of 400 x 300: the step
    would have to enlarge the photo and leaves it alone. *)
Example resize_decrease_only_skips :
  let s := {| mScaleFactor := of_int 600; rMode := mode_height;
              mProperty := prop_decrease_only; mIplMethod := 0;
              mCorrectGamma := false |} in
  let c := container photo (0, 0) in
  computedScaleFactor s (imageSize (image c)) = Some (of_int 2)
  ∧ (compute (resizeStep s) c []).1.1.1 = true
  ∧ (compute (resizeStep s) c []).1.1.2 = c.
Proof. repeat split; vm_compute; reflexivity. Qed.

(** Claim C3, on a transform step that crops from the meta data and turns
    by 90 degrees, and a container whose stored crop region is not empty:
    compute() answers [true], its rotated and mirrored image is not null,
    but the image of the container afterwards is the cropped photo, not
    the rotated one: the result of the transform is assigned to a local
    of compute() and never put into the container. *)
Theorem transform_result_is_discarded :
  let t := quarterTurn true in
  let c := container photo (200, 100) in
  let '(isOk, c', _) := DkBatchTransform_compute t c [] in
  isOk = true
  ∧ image c' = Cropped (200, 100) photo
  ∧ transformImage t (image c')
    = Mirrored false false (Rotated 90 (Cropped (200, 100) photo))
  ∧ image c' ≠ transformImage t (image c').
Proof. vm_compute. repeat split. discriminate. Qed.

(** Claim C4 fails as stated: on an item without steps whose input and
    output are the same existing file, in overwrite mode, compute() makes
    no attempt to rename the input to the output. *)
Lemma same_path_is_never_renamed :
  let p := item "/in/a.png" "/in/a.png" mode_overwrite false [] in
  let w := world twoFiles in
  mProcessFunctions p = []
  ∧ mFilePathIn p = mFilePathOut p
  ∧ suffix (mFilePathIn p) = suffix (mFilePathOut p)
  ∧ fileExists w (mFilePathIn p) = true
  ∧ mMode p ≠ mode_skip_existing
  ∧ ∀ ok,
      ¬ In (EvRename (mFilePathIn p) (mFilePathOut p) ok)
          (trace (DkBatchProcess_compute (p, w)).2.2).
Proof.
  repeat split; try reflexivity; try discriminate.
  intros ok. vm_compute. tauto.
Qed.

(** On that item compute() leaves the world as it is. *)
Lemma compute_same_path_no_steps_witness :
  let p := item "/in/a.png" "/in/a.png" mode_overwrite false [] in
  let w := world twoFiles in
  mFilePathIn p = mFilePathOut p
  ∧ mProcessFunctions p = []
  ∧ (DkBatchProcess_compute (p, w)).2.2 = w.
Proof.
  intros p w.
  assert (H1 : mFilePathIn p = mFilePathOut p) by reflexivity.
  assert (H2 : mProcessFunctions p = []) by reflexivity.
  split; [exact H1|]. split; [exact H2|].
  pose proof (compute_same_path_no_steps p w H1 H2) as H.
  destruct (DkBatchProcess_compute (p, w)) as [r [p' w']].
  destruct H as [H _]. exact H.
Defined.



(** Claim C5 fails as stated: the image loads and the one step of the
    chain fails, but the existing output cannot be renamed aside, and
    process() returns without any attempt to save. *)
Lemma failed_backup_prevents_save :
  let p := item "/in/a.png" "/out/a.jpg" mode_overwrite false
             [Some brokenStep] in
  let w := worldWith twoFiles [false; true] in
  (∃ imgC w1, loadImage (mFilePathIn p) w = (Some imgC, w1)
              ∧ isNull (image imgC) = false)
  ∧ (process (p, w)).1 = false
  ∧ mFailure (process (p, w)).2.1 = 2
  ∧ ∀ path img k ok,
      ¬ In (EvSave path img k ok) (trace (process (p, w)).2.2).
Proof.
  split; [|split; [|split]].
  - eexists _, _. split; reflexivity.
  - vm_compute. reflexivity.
  - vm_compute. reflexivity.
  - intros path img k ok. vm_compute. intros [H|[H|[]]]; discriminate.
Qed.

(** A chain of a step that fails and a quarter turn: the quarter turn
    is invoked on the container which the failed step left. *)
Lemma process_runs_whole_chain_witness :
  let turn := transformStep (quarterTurn false) in
  let p := item "/in/a.png" "/out/b.jpg" mode_overwrite false
             [Some brokenStep; Some turn] in
  let w := world twoFiles in
  let imgC := container photo (0, 0) in
  let w1 := (loadImage (mFilePathIn p) w).2 in
  let p0 := withLog (mLogStrings p ++ [processingLine p])%list p in
  loadImage (mFilePathIn p) w = (Some imgC, w1)
  ∧ isNull (image imgC) = false
  ∧ mProcessFunctions p = ([Some brokenStep] ++ Some turn :: [])%list
  ∧ let '(imgC1, (p1, _)) := runChain [Some brokenStep] imgC (p0, w1) in
    let '(isOk, imgC2, _, _) := compute turn imgC1 (mLogStrings p1) in
    ∃ p2,
      runChain (mProcessFunctions p) imgC (p0, w1) =
        runChain [] imgC2 (p2, w1)
      ∧ mFailure p2 = if isOk then mFailure p1 else incr32 (mFailure p1).
Proof.
  intros turn p w imgC w1 p0.
  assert (H1 : loadImage (mFilePathIn p) w = (Some imgC, w1))
    by (apply call_eq; vm_compute; reflexivity).
  assert (H2 : isNull (image imgC) = false) by reflexivity.
  assert (H3 : mProcessFunctions p
               = ([Some brokenStep] ++ Some turn :: [])%list) by reflexivity.
  split; [exact H1|]. split; [exact H2|]. split; [exact H3|].
  pose proof (process_runs_whole_chain p w w1 imgC H1 H2) as H.
  cbv zeta in H. destruct H as [H _].
  exact (H [Some brokenStep] turn [] H3).
Defined.

(** Claim C10 fails as stated: with a chain of two null entries, on an
    image that loads, process() does not reach the save when the existing
    output cannot be renamed aside. *)
Lemma null_chain_without_save :
  let p := item "/in/a.png" "/out/a.jpg" mode_overwrite false
             [None; None] in
  let w := worldWith twoFiles [false; true] in
  (∃ imgC w1, loadImage (mFilePathIn p) w = (Some imgC, w1)
              ∧ isNull (image imgC) = false)
  ∧ (process (p, w)).1 = false
  ∧ mFailure (process (p, w)).2.1 = 1
  ∧ ∀ path img k ok,
      ¬ In (EvSave path img k ok) (trace (process (p, w)).2.2).
Proof.
  split; [|split; [|split]].
  - eexists _, _. split; reflexivity.
  - vm_compute. reflexivity.
  - vm_compute. reflexivity.
  - intros path img k ok. vm_compute. intros [H|[H|[]]]; discriminate.
Qed.

(** A chain of two null entries: process() is the end of process() on
    the loaded container, with two lines more in the log. *)
Lemma null_steps_are_skipped_witness :
  let p := item "/in/a.png" "/out/b.jpg" mode_overwrite false
             [None; None] in
  let w := world twoFiles in
  let imgC := container photo (0, 0) in
  let w1 := (loadImage (mFilePathIn p) w).2 in
  mProcessFunctions p = replicate 2 None
  ∧ loadImage (mFilePathIn p) w = (Some imgC, w1)
  ∧ isNull (image imgC) = false
  ∧ process (p, w) =
      process_save imgC
        (withLog (mLogStrings p
                  ++ processingLine p :: replicate 2 nullLine)%list p, w1).
Proof.
  intros p w imgC w1.
  assert (H1 : mProcessFunctions p = replicate 2 None) by reflexivity.
  assert (H2 : loadImage (mFilePathIn p) w = (Some imgC, w1))
    by (apply call_eq; vm_compute; reflexivity).
  assert (H3 : isNull (image imgC) = false) by reflexivity.
  split; [exact H1|]. split; [exact H2|]. split; [exact H3|].
  destruct null_steps_are_skipped as [_ H].
  specialize (H p w w1 imgC 2%nat H1 H2 H3). cbv zeta in H.
  destruct H as [H _]. exact H.
Defined.

(** A copy that deletes its original: the flag is set, the paths differ
    and the item has not failed. *)
Lemma original_deleted_only_on_request_witness :
  let p := item "/in/a.png" "/out/b.png" mode_overwrite true [] in
  let w := world twoFiles in
  mBackupFilePath p = EmptyString
  ∧ In (EvRemove (mFilePathIn p) true)
       (trace (DkBatchProcess_compute (p, w)).2.2)
  ∧ mDeleteOriginal p = true ∧ mFilePathIn p ≠ mFilePathOut p
  ∧ mFailure p = 0.
Proof.
  intros p w.
  assert (H1 : mBackupFilePath p = EmptyString) by reflexivity.
  assert (H2 : In (EvRemove (mFilePathIn p) true)
                  (trace (DkBatchProcess_compute (p, w)).2.2)).
  { vm_compute. right. left. reflexivity. }
  split; [exact H1|]. split; [exact H2|].
  destruct (original_deleted_only_on_request p w) as [_ H].
  specialize (H H1).
  destruct (DkBatchProcess_compute (p, w)) as [r [p' w']].
  destruct (H true H2) as [H0|H0]; [destruct H0|exact H0].
Defined.

(** Three polls of two items, the first of which is computed after the
    first poll. *)
Lemma results_never_overwritten_witness :
  let a := item "/in/a.png" "/out/a.jpg" mode_skip_existing false [] in
  let b := item "/in/b.png" "/out/b.jpg" mode_skip_existing false [] in
  let a' := (DkBatchProcess_compute (a, world twoFiles)).2.1 in
  let snapshots := [[a; b]; [a'; b]; [a'; b]] in
  Forall (λ items, length items = 2%nat) snapshots
  ∧ ∃ results,
      poll snapshots [] = Some results
      ∧ length results = length snapshots.
Proof.
  intros a b a' snapshots.
  assert (H : Forall (λ items, length items = 2%nat) snapshots).
  { repeat constructor. }
  split; [exact H|].
  destruct (results_never_overwritten 2%nat snapshots H)
    as (results & Hp & Hl & _).
  exists results. split; [exact Hp|exact Hl].
Defined.

End Scenarios.

(* ------------------------------------------------------------------ *)
(** * The further properties on concrete items *)

Section MoreScenarios.

Import Standin.

#[local] Existing Instance Standin.enums.
#[local] Existing Instance Standin.qt.
#[local] Existing Instance Standin.lib.
#[local] Existing Instance Standin.names.

Local Open Scope list_scope.

Lemma chain_eq {A : Type} (x : A * (DkBatchProcess * World)) :
  x = (x.1, (x.2.1, x.2.2)).
Proof. by destruct x as [? [? ?]]. Qed.

Lemma resize_inactive_is_ignored_witness :
  let c := container photo (0, 0) in
  isActive (resizeStep sameSize) = false
  ∧ (compute (resizeStep sameSize) c []).1.1.2 = c.
Proof.
  intros c.
  assert (H : isActive (resizeStep sameSize) = false) by reflexivity.
  split; [exact H|].
  destruct (resize_inactive_is_ignored sameSize c [] H) as [_ E].
  rewrite E. reflexivity.
Defined.

Lemma resize_default_mode_ignores_policy_witness :
  let img := image (container photo (0, 0)) in
  rMode halfSize = mode_default
  ∧ Float32.eqb (mScaleFactor halfSize) one = false
  ∧ mProperty halfSize = prop_increase_only
  ∧ (DkResizeBatch_compute halfSize img []).1.1 = true.
Proof.
  intros img.
  assert (H1 : rMode halfSize = mode_default) by reflexivity.
  assert (H2 : Float32.eqb (mScaleFactor halfSize) one = false)
    by (vm_compute; reflexivity).
  split; [exact H1|]. split; [exact H2|]. split; [reflexivity|].
  rewrite (resize_default_mode_ignores_policy halfSize img [] H1 H2).
  reflexivity.
Defined.

Lemma resize_target_side_witness :
  rMode shrinkTo200 ≠ mode_default
  ∧ prepareProperties shrinkTo200 (400, 300) QSize.default one []
    = (true, (200, 150), one, [])
  ∧ (200, 150)
    = (qRound (mScaleFactor shrinkTo200),
       qRound (mul (div (mScaleFactor shrinkTo200) (of_int 400))
                 (of_int 300))).
Proof.
  assert (H1 : rMode shrinkTo200 ≠ mode_default) by discriminate.
  assert (H2 : prepareProperties shrinkTo200 (400, 300) QSize.default one []
               = (true, (200, 150), one, []))
    by (vm_compute; reflexivity).
  split; [exact H1|]. split; [exact H2|].
  pose proof (resize_target_side shrinkTo200 (400, 300) QSize.default
                (200, 150) one one [] [] H1 H2) as H.
  cbv zeta in H. destruct H as (_ & _ & H & _).
  exact (H eq_refl).
Defined.

Lemma resize_respects_policy_witness :
  let c := container photo (0, 0) in
  let sfc := div (of_int 200) (of_int 400) in
  computedScaleFactor shrinkTo200 (imageSize (image c)) = Some sfc
  ∧ image (compute (resizeStep shrinkTo200) c []).1.1.2 ≠ image c
  ∧ gtb sfc one = false.
Proof.
  intros c sfc.
  assert (H1 : computedScaleFactor shrinkTo200 (imageSize (image c))
               = Some sfc) by reflexivity.
  assert (H2 : image (compute (resizeStep shrinkTo200) c []).1.1.2 ≠ image c)
    by (vm_compute; discriminate).
  split; [exact H1|]. split; [exact H2|].
  destruct (resize_respects_policy shrinkTo200 c [] sfc H1 H2)
    as (_ & H & _).
  exact (H eq_refl).
Defined.

Lemma compute_missing_input_witness :
  let p := item "/in/none.png" "/out/new.jpg" mode_overwrite false [] in
  let w := world twoFiles in
  fileExists w (mFilePathIn p) = false
  ∧ fileExists w (mFilePathOut p) && (mMode p =? mode_skip_existing) = false
  ∧ 0 <= mFailure p < max_int
  ∧ ∃ p', DkBatchProcess_compute (p, w) = (false, (p', w))
          ∧ mFailure p' = mFailure p + 1.
Proof.
  intros p w.
  assert (H1 : fileExists w (mFilePathIn p) = false) by reflexivity.
  assert (H2 : fileExists w (mFilePathOut p)
               && (mMode p =? mode_skip_existing) = false) by reflexivity.
  assert (H3 : 0 <= mFailure p < max_int) by (by vm_compute).
  split; [exact H1|]. split; [exact H2|]. split; [exact H3|].
  destruct (compute_missing_input p w H1 H2 H3) as (p' & Hc & _ & Hf & _).
  exists p'. split; [exact Hc|exact Hf].
Defined.

Lemma process_load_failure_witness :
  let p := item "/out/a.jpg" "/out/new.png" mode_overwrite false [] in
  let w := world twoFiles in
  match (loadImage (mFilePathIn p) w).1 with
  | Some imgC => isNull (image imgC) = true
  | None => True
  end
  ∧ (process (p, w)).1 = false.
Proof.
  intros p w.
  assert (H : match (loadImage (mFilePathIn p) w).1 with
              | Some imgC => isNull (image imgC) = true
              | None => True
              end) by reflexivity.
  split; [exact H|].
  pose proof (process_load_failure p w H) as Hp.
  destruct (process (p, w)) as [r [p' w']]. destruct Hp as [Hr _]. exact Hr.
Defined.

Lemma copyFile_copies_or_nothing_witness :
  let p := item "/in/a.png" "/out/b.png" mode_overwrite false [] in
  let w := world twoFiles in
  mBackupFilePath p = EmptyString
  ∧ let '(r, (_, w')) := copyFile (p, w) in
    r = false → files w' = files w.
Proof.
  intros p w.
  assert (H : mBackupFilePath p = EmptyString) by reflexivity.
  split; [exact H|].
  pose proof (copyFile_copies_or_nothing p w H) as Hc.
  destruct (copyFile (p, w)) as [r [p' w']].
  destruct Hc as (_ & _ & Hc & _). exact Hc.
Defined.

Lemma compute_copy_never_overwrites_witness :
  let p := item "/in/a.png" "/out/a.png" mode_overwrite false [] in
  let w := world threeFiles in
  mBackupFilePath p = EmptyString
  ∧ mProcessFunctions p = []
  ∧ suffix (mFilePathIn p) = suffix (mFilePathOut p)
  ∧ mFilePathIn p ≠ mFilePathOut p
  ∧ fileExists w (mFilePathIn p) = true
  ∧ fileExists w (mFilePathOut p) = true
  ∧ 0 <= mFailure p < max_int
  ∧ let '(r, (_, w')) := DkBatchProcess_compute (p, w) in
    r = false ∧ files w' = files w.
Proof.
  intros p w.
  assert (H1 : mBackupFilePath p = EmptyString) by reflexivity.
  assert (H2 : mProcessFunctions p = []) by reflexivity.
  assert (H3 : suffix (mFilePathIn p) = suffix (mFilePathOut p))
    by reflexivity.
  assert (H4 : mFilePathIn p ≠ mFilePathOut p) by discriminate.
  assert (H5 : fileExists w (mFilePathIn p) = true) by reflexivity.
  assert (H6 : fileExists w (mFilePathOut p) = true) by reflexivity.
  assert (H7 : 0 <= mFailure p < max_int) by (by vm_compute).
  split; [exact H1|]. split; [exact H2|]. split; [exact H3|].
  split; [exact H4|]. split; [exact H5|]. split; [exact H6|].
  split; [exact H7|].
  pose proof (compute_copy_never_overwrites p w H1 H2 H3 H4 H5 H6 H7) as H.
  destruct (DkBatchProcess_compute (p, w)) as [r [p' w']].
  destruct H as (Hr & Hf & _). split; [exact Hr|exact Hf].
Defined.

Lemma compute_copy_with_delete_moves_witness :
  let p := item "/in/a.png" "/out/b.png" mode_overwrite true [] in
  let w := world twoFiles in
  let d := Encoded photo (0, 0) 90 in
  mBackupFilePath p = EmptyString
  ∧ mProcessFunctions p = []
  ∧ suffix (mFilePathIn p) = suffix (mFilePathOut p)
  ∧ fileAt w (mFilePathIn p) = Some d
  ∧ fileAt w (mFilePathOut p) = None
  ∧ mFilePathOut p ≠ EmptyString
  ∧ mFailure p = 0
  ∧ cooperative 2 w = true
  ∧ (DkBatchProcess_compute (p, w)).1 = true.
Proof.
  intros p w d.
  assert (H1 : mBackupFilePath p = EmptyString) by reflexivity.
  assert (H2 : mProcessFunctions p = []) by reflexivity.
  assert (H3 : suffix (mFilePathIn p) = suffix (mFilePathOut p))
    by reflexivity.
  assert (H4 : fileAt w (mFilePathIn p) = Some d) by reflexivity.
  assert (H5 : fileAt w (mFilePathOut p) = None) by reflexivity.
  assert (H6 : mFilePathOut p ≠ EmptyString) by discriminate.
  assert (H7 : mFailure p = 0) by reflexivity.
  assert (H8 : cooperative 2 w = true) by reflexivity.
  split; [exact H1|]. split; [exact H2|]. split; [exact H3|].
  split; [exact H4|]. split; [exact H5|]. split; [exact H6|].
  split; [exact H7|]. split; [exact H8|].
  pose proof (compute_copy_with_delete_moves p w d H1 H2 H3 H4 H5 H6 H7 H8)
    as H.
  destruct (DkBatchProcess_compute (p, w)) as [r [p' w']].
  destruct H as [Hr _]. exact Hr.
Defined.

Lemma failed_save_without_output_witness :
  let p := item "/in/a.png" "/out/new.jpg" mode_overwrite false [] in
  let w := worldWith twoFiles [true] in
  let imgC := container photo (0, 0) in
  mBackupFilePath p = EmptyString
  ∧ fileExists w (mFilePathOut p) = false
  ∧ (saveImage imgC (mFilePathOut p) (mCompression p) w).1 = false
  ∧ 0 <= mFailure p < max_int - 1
  ∧ let '(r, (p', _)) := process_save imgC (p, w) in
    r = false ∧ mFailure p' = mFailure p + 2.
Proof.
  intros p w imgC.
  assert (H1 : mBackupFilePath p = EmptyString) by reflexivity.
  assert (H2 : fileExists w (mFilePathOut p) = false) by reflexivity.
  assert (H3 : (saveImage imgC (mFilePathOut p) (mCompression p) w).1 = false)
    by reflexivity.
  assert (H4 : 0 <= mFailure p < max_int - 1) by (by vm_compute).
  split; [exact H1|]. split; [exact H2|]. split; [exact H3|].
  split; [exact H4|].
  pose proof (failed_save_without_output imgC p w H1 H2 H3 H4) as H.
  destruct (process_save imgC (p, w)) as [r [p' w']].
  destruct H as (Hr & Hf & _). split; [exact Hr|exact Hf].
Defined.

Lemma compute_saves_chain_result_witness :
  let p := item "/in/a.png" "/out/b.jpg" mode_overwrite true
             [Some (resizeStep shrinkTo200)] in
  let w := world twoFiles in
  let d := Encoded photo (0, 0) 90 in
  let run :=
    runChain (mProcessFunctions p) (loaded (mFilePathIn p) d)
      (started p, (loadImage (mFilePathIn p) w).2) in
  mBackupFilePath p = EmptyString
  ∧ fileAt w (mFilePathIn p) = Some d
  ∧ isNull (decode d) = false
  ∧ fileAt w (mFilePathOut p) = None
  ∧ mFilePathOut p ≠ EmptyString
  ∧ chainEmpty p
    && String.eqb (suffix (mFilePathIn p)) (suffix (mFilePathOut p)) = false
  ∧ cooperative 2 w = true
  ∧ run = (run.1, (run.2.1, run.2.2))
  ∧ isNull (image run.1) = false
  ∧ ∃ w',
      (DkBatchProcess_compute (p, w)).2.2 = w'
      ∧ files w' =
          <[mFilePathOut p :=
              encode (image run.1) (mFilePathOut p) (mCompression p)]>
            (files w).
Proof.
  intros p w d run.
  assert (H1 : mBackupFilePath p = EmptyString) by reflexivity.
  assert (H2 : fileAt w (mFilePathIn p) = Some d) by reflexivity.
  assert (H3 : isNull (decode d) = false) by reflexivity.
  assert (H4 : fileAt w (mFilePathOut p) = None) by reflexivity.
  assert (H5 : mFilePathOut p ≠ EmptyString) by discriminate.
  assert (H6 : chainEmpty p
               && String.eqb (suffix (mFilePathIn p)) (suffix (mFilePathOut p))
               = false) by reflexivity.
  assert (H7 : cooperative 2 w = true) by reflexivity.
  assert (H8 : run = (run.1, (run.2.1, run.2.2))) by apply chain_eq.
  assert (H9 : isNull (image run.1) = false) by (vm_compute; reflexivity).
  split; [exact H1|]. split; [exact H2|]. split; [exact H3|].
  split; [exact H4|]. split; [exact H5|]. split; [exact H6|].
  split; [exact H7|]. split; [exact H8|]. split; [exact H9|].
  destruct (compute_saves_chain_result p run.2.1 w run.2.2 d run.1
              H1 H2 H3 H4 H5 H6 H7 H8 H9) as (w' & Hc & Hf & _).
  exists w'. split; [|exact Hf]. rewrite Hc. reflexivity.
Defined.


Lemma compute_changes_only_its_files_witness :
  let p := item "/in/a.png" "/out/b.jpg" mode_overwrite true
             [Some (resizeStep shrinkTo200)] in
  let w := world twoFiles in
  let path := "/out/a.jpg" in
  mBackupFilePath p = EmptyString
  ∧ path ≠ mFilePathOut p
  ∧ path ≠ mFilePathIn p
  ∧ fileAt w path ≠ None
  ∧ let '(_, (_, w')) := DkBatchProcess_compute (p, w) in
    fileAt w' path = fileAt w path.
Proof.
  intros p w path.
  assert (H1 : mBackupFilePath p = EmptyString) by reflexivity.
  assert (H2 : path ≠ mFilePathOut p) by discriminate.
  assert (H3 : path ≠ mFilePathIn p) by discriminate.
  assert (H4 : fileAt w path ≠ None) by discriminate.
  split; [exact H1|]. split; [exact H2|]. split; [exact H3|].
  split; [exact H4|].
  exact (compute_changes_only_its_files p w path H1 H2 H3 (or_intror H4)).
Defined.

Lemma compute_keeps_original_unless_copied_witness :
  let p := item "/in/a.png" "/out/b.jpg" mode_overwrite true
             [Some (resizeStep shrinkTo200)] in
  let w := world twoFiles in
  mBackupFilePath p = EmptyString
  ∧ mFilePathIn p ≠ mFilePathOut p
  ∧ mDeleteOriginal p = true
  ∧ mProcessFunctions p ≠ []
  ∧ let '(_, (_, w')) := DkBatchProcess_compute (p, w) in
    fileAt w' (mFilePathIn p) = fileAt w (mFilePathIn p).
Proof.
  intros p w.
  assert (H1 : mBackupFilePath p = EmptyString) by reflexivity.
  assert (H2 : mFilePathIn p ≠ mFilePathOut p) by discriminate.
  assert (H3 : mProcessFunctions p ≠ []) by discriminate.
  split; [exact H1|]. split; [exact H2|]. split; [reflexivity|].
  split; [exact H3|].
  exact (compute_keeps_original_unless_copied p w H1 H2
           (or_intror (or_introl H3))).
Defined.

Lemma compute_counts_failures_witness :
  let p := item "/in/a.png" "/out/a.jpg" mode_overwrite false
             [Some brokenStep] in
  let w := worldWith twoFiles [false; true] in
  0 <= mFailure p
  ∧ mFailure p + Z.of_nat (length (mProcessFunctions p)) + 2 <= max_int
  ∧ let '(r, (p', _)) := DkBatchProcess_compute (p, w) in
    mFailure p <= mFailure p' <= mFailure p + 3.
Proof.
  intros p w.
  assert (H1 : 0 <= mFailure p) by (by vm_compute).
  assert (H2 : mFailure p + Z.of_nat (length (mProcessFunctions p)) + 2
               <= max_int) by (by vm_compute).
  split; [exact H1|]. split; [exact H2|].
  pose proof (compute_counts_failures p w H1 H2) as H.
  destruct (DkBatchProcess_compute (p, w)) as [r [p' w']].
  destruct H as [H _]. exact H.
Defined.

Lemma compute_log_grows_witness :
  let p := item "/in/a.png" "/out/b.jpg" mode_overwrite false
             [Some (resizeStep shrinkTo200); None;
              Some (transformStep (quarterTurn false))] in
  let w := world twoFiles in
  Forall stepAppends (mProcessFunctions p)
  ∧ let '(_, (p', _)) := DkBatchProcess_compute (p, w) in
    mLogStrings p `prefix_of` mLogStrings p'.
Proof.
  intros p w.
  assert (H : Forall stepAppends (mProcessFunctions p)).
  { repeat constructor.
    - apply resizeStep_appends.
    - apply transformStep_appends. }
  split; [exact H|].
  exact (compute_log_grows p w H).
Defined.

Lemma counts_agree_with_results_witness :
  let a := item "/in/a.png" "/out/a.jpg" mode_skip_existing false [] in
  let b := item "/in/b.png" "/out/b.jpg" mode_skip_existing false [] in
  let a' := (DkBatchProcess_compute (a, world twoFiles)).2.1 in
  let items := [a'; b] in
  Z.of_nat (length items) <= max_int
  ∧ getNumProcessed {| mBatchItems := items; mResList := [] |}
    <= getNumItems {| mBatchItems := items; mResList := [] |}.
Proof.
  intros a b a' items.
  assert (H : Z.of_nat (length items) <= max_int) by (by vm_compute).
  split; [exact H|].
  destruct (counts_agree_with_results items H) as (res & b' & _ & _ & _ & Hp & _).
  exact Hp.
Defined.

Lemma getResultList_lists_processed_witness :
  let a := item "/in/a.png" "/out/a.jpg" mode_skip_existing false [] in
  let b := item "/in/b.png" "/out/b.jpg" mode_skip_existing false [] in
  let a' := (DkBatchProcess_compute (a, world twoFiles)).2.1 in
  let runner := {| mBatchItems := [a'; b]; mResList := [] |} in
  Z.of_nat (length (mBatchItems runner)) <= max_int
  ∧ Z.of_nat (length (getResultList runner)) = getNumProcessed runner.
Proof.
  intros a b a' runner.
  assert (H : Z.of_nat (length (mBatchItems runner)) <= max_int)
    by (by vm_compute).
  split; [exact H|].
  destruct (getResultList_lists_processed runner H) as (_ & Hl & _).
  exact Hl.
Defined.

Lemma init_keeps_result_list_witness :
  let runner :=
    {| mBatchItems := [];
       mResList := [batch_item_succeeded; batch_item_failed] |} in
  mResList runner ≠ []
  ∧ length (mResList runner) = length (DkBatchConfig.mFileList config)
  ∧ Forall (λ r, r ≠ batch_item_not_computed) (mResList runner)
  ∧ ∃ b', getCurrentResults (init config runner) = Some (mResList runner, b').
Proof.
  intros runner.
  assert (H1 : mResList runner ≠ []) by discriminate.
  assert (H2 : length (mResList runner)
               = length (DkBatchConfig.mFileList config)) by reflexivity.
  assert (H3 : Forall (λ r, r ≠ batch_item_not_computed) (mResList runner)).
  { repeat constructor; discriminate. }
  split; [exact H1|]. split; [exact H2|]. split; [exact H3|].
  destruct (init_keeps_result_list config runner H1 H2 H3) as (b' & Hg & _).
  exists b'. exact Hg.
Defined.

Lemma all_items_computed_witness :
  let a := item "/in/a.png" "/out/a.jpg" mode_skip_existing false [] in
  let b := item "/in/a.png" "/out/b.png" mode_skip_existing false [] in
  let items := [a; b] in
  let worlds := [world twoFiles; world twoFiles] in
  let outcomes := zip_with (λ item w, computeItem (item, w)) items worlds in
  let runner :=
    {| mBatchItems := map (λ o, o.2.1) outcomes; mResList := [] |} in
  Z.of_nat (length items) <= max_int
  ∧ length worlds = length items
  ∧ getNumProcessed runner = getNumItems runner.
Proof.
  intros a b items worlds outcomes runner.
  assert (H1 : Z.of_nat (length items) <= max_int) by (by vm_compute).
  assert (H2 : length worlds = length items) by reflexivity.
  split; [exact H1|]. split; [exact H2|].
  pose proof (all_items_computed items worlds H1 H2) as H. cbv zeta in H.
  destruct H as [H _]. exact H.
Defined.

Lemma new_config_skips_existing_witness :
  let cfg :=
    DkBatchConfig_new config ["/in/a.png"; "/in/b.png"] "/out" "<c:0>" in
  let runner := init cfg {| mBatchItems := []; mResList := [] |} in
  let p := init_item cfg 0 "/in/a.png" in
  let w := world threeFiles in
  In p (mBatchItems runner)
  ∧ fileExists w (outputFile p) = true
  ∧ ∃ p', computeItem (p, w) = (false, (p', w)).
Proof.
  intros cfg runner p w.
  assert (H1 : In p (mBatchItems
                       (init (DkBatchConfig_new config
                                ["/in/a.png"; "/in/b.png"] "/out" "<c:0>")
                          {| mBatchItems := []; mResList := [] |})))
    by (left; reflexivity).
  assert (H2 : fileExists w (outputFile p) = true) by reflexivity.
  split; [exact H1|]. split; [exact H2|].
  destruct (new_config_skips_existing config ["/in/a.png"; "/in/b.png"]
              "/out" "<c:0>" {| mBatchItems := []; mResList := [] |} p w
              H1 H2) as (p' & Hc & _).
  exists p'. exact Hc.
Defined.

Lemma isOk_creates_directory_first_witness :
  let c :=
    DkBatchConfig_new config [] "/out" "<c:0>" in
  DkBatchConfig.mOutputDirPath c ≠ EmptyString
  ∧ (DkBatchConfig.mOutputDirPath c ∉ existing emptyDisk)
  ∧ creatable emptyDisk (DkBatchConfig.mOutputDirPath c) = true
  ∧ let '(ok, d') := isOk c emptyDisk in
    existing d' = {[ DkBatchConfig.mOutputDirPath c ]} ∪ existing emptyDisk.
Proof.
  intros c.
  assert (H1 : DkBatchConfig.mOutputDirPath c ≠ EmptyString) by discriminate.
  assert (H2 : DkBatchConfig.mOutputDirPath c ∉ existing emptyDisk)
    by apply not_elem_of_empty.
  assert (H3 : creatable emptyDisk (DkBatchConfig.mOutputDirPath c) = true)
    by reflexivity.
  split; [exact H1|]. split; [exact H2|]. split; [exact H3|].
  pose proof (isOk_creates_directory_first c emptyDisk H1 H2 H3) as H.
  destruct (isOk c emptyDisk) as [ok d']. destruct H as [H _]. exact H.
Defined.

End MoreScenarios.

Section PluginScenarios.

Import Standin.

#[local] Existing Instance Standin.host.

Local Open Scope list_scope.

Example preLoad_twoPlugins :
  (preLoad twoPlugins []).1
  = {| mPluginList := ["Stats | count"; "Sepia"];
       mPlugins := [Some "Stats"; None];
       mRunIDs := ["Stats:count"; EmptyString] |}.
Proof. vm_compute. reflexivity. Qed.

Lemma plugin_lists_stay_aligned_witness :
  length (mPlugins twoPlugins) = length (mRunIDs twoPlugins)
  ∧ length (mPlugins (preLoad twoPlugins []).1) = 2%nat.
Proof.
  assert (H : length (mPlugins twoPlugins) = length (mRunIDs twoPlugins))
    by reflexivity.
  split; [exact H|].
  pose proof (plugin_lists_stay_aligned twoPlugins [] H) as Hp.
  destruct (preLoad twoPlugins []) as [s' state']. cbn [fst].
  destruct Hp as (_ & _ & Hp & _). exact Hp.
Defined.

Lemma unresolved_plugins_do_not_fail_witness :
  DkPluginBatch_isActive noPlugin = true
  ∧ length (mPlugins noPlugin) = length (mRunIDs noPlugin)
  ∧ Forall (λ e, e = None) (mPlugins noPlugin)
  ∧ ∃ lines,
      DkPluginBatch_compute noPlugin (Some 0%nat) [] [] [photo]
      = Some (true, lines, [], [photo]).
Proof.
  assert (H1 : DkPluginBatch_isActive noPlugin = true) by reflexivity.
  assert (H2 : length (mPlugins noPlugin) = length (mRunIDs noPlugin))
    by reflexivity.
  assert (H3 : Forall (λ e, e = None) (mPlugins noPlugin))
    by (repeat constructor).
  split; [exact H1|]. split; [exact H2|]. split; [exact H3|].
  eexists.
  exact (unresolved_plugins_do_not_fail noPlugin 0%nat [] [] [photo]
           H1 H2 H3).
Defined.

Lemma plugin_infos_one_per_batch_plugin_witness :
  let s := (preLoad twoPlugins []).1 in
  length (mPlugins s) = length (mRunIDs s)
  ∧ ∃ ok lines infos state',
      DkPluginBatch_compute s (Some 0%nat) [] [] [photo]
      = Some (ok, lines, infos, state')
      ∧ length infos = 1%nat.
Proof.
  intros s.
  assert (H : length (mPlugins s) = length (mRunIDs s)) by reflexivity.
  split; [exact H|].
  destruct (plugin_infos_one_per_batch_plugin s (Some 0%nat) [] [] [photo] H)
    as (ok & lines & infos & state' & Hc & _ & Hl).
  exists ok, lines, infos, state'. split; [exact Hc|exact Hl].
Defined.

End PluginScenarios.
